(** * v4l2py.device: a shallow embedding of the capture pipeline

    The Python module [v4l2py/device.py] talks to a Video4Linux2 driver
    through [fcntl.ioctl] and [mmap].  The embedding below keeps the code's
    structure: one Rocq module per Python class, methods as functions in a
    small state-and-exception monad over a [World] that holds what is shared
    between the objects (the kernel, the device's file object, the live
    memory mappings) and the trace of calls that left the process. *)

From Stdlib Require Import ZArith List String Bool Lia.
From Stdlib Require Import QArith Qabs Qround Floats.
From Stdlib Require Import DecimalString.
Import ListNotations.

Local Open Scope string_scope.
Local Open Scope list_scope.
Local Open Scope Z_scope.

(** ** Integers stored in ctypes fields *)

(** [c_uint32] and [c_int32] fields keep the low 32 bits of what is assigned
    to them (ctypes does no overflow checking). *)
Definition u32 (z : Z) : Z := z mod 2 ^ 32.

Definition s32 (z : Z) : Z := (z + 2 ^ 31) mod 2 ^ 32 - 2 ^ 31.

(** ** Enumerations built from the raw constants *)

(** Modelled from the spec: the module [raw] (the kernel constants and
    structures) is not among the sources.  [Memory] is the enumeration
    [_enum("Memory", "V4L2_MEMORY_")]; the spec's "memory backend kind", of
    which only memory-mapped is supported.  The members are the four
    V4L2_MEMORY_ constants of the kernel API. *)
Inductive Memory := MMAP | USERPTR | OVERLAY | DMABUF.

Definition Memory_value (m : Memory) : Z :=
  match m with MMAP => 1 | USERPTR => 2 | OVERLAY => 3 | DMABUF => 4 end.

Definition Memory_name (m : Memory) : string :=
  match m with
  | MMAP => "MMAP" | USERPTR => "USERPTR"
  | OVERLAY => "OVERLAY" | DMABUF => "DMABUF"
  end.

(** [self.memory != Memory.MMAP]: IntEnum members compare by value. *)
Definition Memory_neq (a b : Memory) : bool :=
  negb (Memory_value a =? Memory_value b).

(** Modelled from the spec: a [BufferType] member is kept as its integer
    value; [VIDEO_CAPTURE] is V4L2_BUF_TYPE_VIDEO_CAPTURE. *)
Definition BufferType := Z.

Definition VIDEO_CAPTURE : BufferType := 1.

(** ** The raw structures *)

(** Modelled from the spec: the ctypes structures of [raw], with the fields
    that [device.py] reads or writes.  A fresh structure is zero-filled. *)
Record v4l2_requestbuffers := mk_requestbuffers {
  rb_count : Z;
  rb_type : BufferType;
  rb_memory : Z }.

Record v4l2_buffer := mk_buffer {
  buf_index : Z;
  buf_type : BufferType;
  buf_bytesused : Z;
  buf_memory : Z;
  buf_offset : Z;
  buf_length : Z }.

Record v4l2_fract := mk_fract {
  numerator : Z;
  denominator : Z }.

Record v4l2_streamparm := mk_streamparm {
  sp_type : BufferType;
  timeperframe : v4l2_fract }.

Record v4l2_rect := mk_rect {
  r_left : Z;
  r_top : Z;
  r_width : Z;
  r_height : Z }.

Record v4l2_selection := mk_selection {
  sel_type : BufferType;
  sel_target : Z;
  sel_rectangles : Z;
  sel_pr : list v4l2_rect }.

Record v4l2_fmtdesc := mk_fmtdesc {
  fd_index : Z;
  fd_type : BufferType;
  fd_flags : Z;
  fd_description : string;
  fd_pixelformat : Z }.

Record v4l2_frmivalenum := mk_frmivalenum {
  fi_index : Z;
  fi_pixel_format : Z;
  fi_width : Z;
  fi_height : Z;
  fi_type : Z;
  fi_discrete : v4l2_fract;
  fi_min : v4l2_fract;
  fi_max : v4l2_fract;
  fi_step : v4l2_fract }.

Record v4l2_frmsizeenum := mk_frmsizeenum {
  fs_pixel_format : Z;
  fs_type : Z;
  fs_discrete_width : Z;
  fs_discrete_height : Z }.

Record v4l2_query_ext_ctrl := mk_query_ext_ctrl {
  qc_id : Z;
  qc_type : Z;
  qc_name : string;
  qc_flags : Z }.

(** The requests of [IOC] that the embedded code issues, each with the type
    of the structure it carries. *)
Inductive IOC : Type -> Type :=
| REQBUFS : IOC v4l2_requestbuffers
| QUERYBUF : IOC v4l2_buffer
| QBUF : IOC v4l2_buffer
| DQBUF : IOC v4l2_buffer
| STREAMON : IOC BufferType
| STREAMOFF : IOC BufferType
| S_PARM : IOC v4l2_streamparm
| G_PARM : IOC v4l2_streamparm
| S_SELECTION : IOC v4l2_selection
| ENUM_FMT : IOC v4l2_fmtdesc
| ENUM_FRAMEINTERVALS : IOC v4l2_frmivalenum
| ENUM_FRAMESIZES : IOC v4l2_frmsizeenum
| QUERY_EXT_CTRL : IOC v4l2_query_ext_ctrl.

(** ** Exceptions and outcomes *)

Inductive exn :=
| OSError (errno : Z)          (* raised by fcntl.ioctl and mmap.mmap *)
| IOError (msg : string)       (* [raise IOError(...)], an OSError without errno *)
| TypeError (msg : string)
| ValueError (msg : string)
| IndexError
| AssertionError
| ZeroDivisionError
| OverflowError.

Definition EINVAL : Z := 22.

Inductive outcome (A : Type) :=
| Return (a : A)
| Raise (e : exn)
| OutOfFuel.                   (* a [while True] loop that was cut short *)

Arguments Return {A} a.
Arguments Raise {A} e.
Arguments OutOfFuel {A}.

(** ** The kernel and the world *)

Inductive kres (T : Type) :=
| KOk (t : T)
| KErr (errno : Z).

Arguments KOk {T} t.
Arguments KErr {T} errno.

(** The driver, as the code sees it: an ioctl answers with the updated
    structure or an errno, [mmap] succeeds or fails, and the contents of the
    buffer at a given offset are the driver's to change. *)
Class Kernel := {
  kstate : Type;
  k_ioctl : forall {T : Type}, IOC T -> T -> kstate -> kres T * kstate;
  k_mmap : Z -> Z -> kstate -> kres unit * kstate;
  k_mem : kstate -> Z -> list Byte.byte }.

(** An [mmap.mmap] object. *)
Record mapping := mk_mapping {
  map_id : nat;
  map_length : Z;
  map_offset : Z }.

Definition mapping_eqb (a b : mapping) : bool :=
  Nat.eqb (map_id a) (map_id b).

Inductive event :=
| EvIoctl {T : Type} (req : IOC T) (arg : T)
| EvMmap (length offset : Z)
| EvMunmap (m : mapping)
| EvCopy (m : mapping) (n : Z)
| EvSelect
| EvFileClose.

Section WithKernel.

Context {KS : Kernel}.

Record World := mk_world {
  kern : kstate;
  closed : bool;                (* Device._fobj.closed *)
  live : list mapping;          (* regions mapped and not yet closed *)
  next_map : nat;
  trace : list event }.

Definition M (A : Type) : Type := World -> outcome A * World.

Definition ret {A} (a : A) : M A := fun w => (Return a, w).

Definition raise {A} (e : exn) : M A := fun w => (Raise e, w).

Definition bind {A B} (m : M A) (f : A -> M B) : M B := fun w =>
  match m w with
  | (Return a, w') => f a w'
  | (Raise e, w') => (Raise e, w')
  | (OutOfFuel, w') => (OutOfFuel, w')
  end.

Definition emit (e : event) : M unit := fun w =>
  (Return tt, mk_world (kern w) (closed w) (live w) (next_map w) (trace w ++ [e])).

End WithKernel.

Notation "x <- m ;; k" := (bind m (fun x => k))
  (at level 61, m at next level, right associativity).
Notation "m ;;; k" := (bind m (fun _ => k))
  (at level 61, right associativity).

(** ** Python numbers: int, float and fractions.Fraction *)

(** Computations that can raise but touch nothing outside. *)
Definition obind {A B} (m : outcome A) (f : A -> outcome B) : outcome B :=
  match m with
  | Return a => f a
  | Raise e => Raise e
  | OutOfFuel => OutOfFuel
  end.

Notation "'let?' x := m 'in' k" := (obind m (fun x => k))
  (at level 10, x pattern, m at level 100, k at level 200).

(** A number as a caller may pass it: a Python int or a Python float (an
    IEEE 754 binary64 value). *)
Inductive number :=
| Int (z : Z)
| Float (f : float).

(** The integer [z] as an unrounded binary floating-point datum. *)
Definition Z2SF (z : Z) : spec_float :=
  match z with
  | Z0 => S754_zero false
  | Zpos p => S754_finite false p 0
  | Zneg p => S754_finite true p 0
  end.

(** [a / b] on two ints: the correctly rounded quotient. *)
Definition truediv_int_int (a b : Z) : outcome float :=
  if b =? 0 then Raise ZeroDivisionError
  else
    match SFdiv prec emax (Z2SF a) (Z2SF b) with
    | S754_infinity _ => Raise OverflowError
    | q => Return (SF2Prim q)
    end.

(** [float(z)]. *)
Definition float_of_int (z : Z) : outcome float :=
  match binary_normalize prec emax z 0 false with
  | S754_infinity _ => Raise OverflowError
  | f => Return (SF2Prim f)
  end.

(** [a / b] for an int [a] and a number [b]. *)
Definition truediv_int (a : Z) (b : number) : outcome float :=
  match b with
  | Int b => truediv_int_int a b
  | Float f =>
      let? fa := float_of_int a in
      if PrimFloat.eqb f PrimFloat.zero then Raise ZeroDivisionError
      else Return (PrimFloat.div fa f)
  end.

(** A [Fraction] is a rational in lowest terms with a positive
    denominator. *)
Definition Fraction := Q.

Definition fr_numerator (x : Fraction) : Z := Qnum x.

Definition fr_denominator (x : Fraction) : Z := Zpos (Qden x).

(** [Fraction(n, d)]: the constructor divides out the gcd and moves the
    sign to the numerator. *)
Definition Fraction_of_ints (n d : Z) : outcome Fraction :=
  if d =? 0 then Raise ZeroDivisionError
  else Return (Qred (Qmake (Z.sgn d * n) (Z.to_pos (Z.abs d)))).

(** [float.as_integer_ratio], which [Fraction(f)] uses: exact. *)
Definition Fraction_of_float (f : float) : outcome Fraction :=
  match Prim2SF f with
  | S754_zero _ => Return (Qmake 0 1)
  | S754_infinity _ => Raise OverflowError
  | S754_nan => Raise (ValueError "cannot convert NaN to integer ratio")
  | S754_finite s m e =>
      let n := if s then Zneg m else Zpos m in
      if 0 <=? e then Return (Qmake (n * 2 ^ e) 1)
      else Return (Qred (Qmake n (Z.to_pos (2 ^ (- e)))))
  end.

(** [Fraction(x)] for a number. *)
Definition Fraction_of_number (x : number) : outcome Fraction :=
  match x with
  | Int z => Return (Qmake z 1)
  | Float f => Fraction_of_float f
  end.

(** [int(x)]: a float is truncated towards zero. *)
Definition int_of_number (x : number) : outcome Z :=
  match x with
  | Int z => Return z
  | Float f =>
      match Prim2SF f with
      | S754_zero _ => Return 0
      | S754_infinity _ => Raise OverflowError
      | S754_nan => Raise (ValueError "cannot convert float NaN to integer")
      | S754_finite s m e =>
          let n := if s then Zneg m else Zpos m in
          if 0 <=? e then Return (n * 2 ^ e)
          else Return (Z.quot n (2 ^ (- e)))
      end
  end.

(** [f < a] for a float and an int, compared exactly. *)
Definition float_lt_int (f : float) (a : Z) : bool :=
  match Prim2SF f with
  | S754_zero _ => 0 <? a
  | S754_infinity s => s
  | S754_nan => false
  | S754_finite s m e =>
      let n := if s then Zneg m else Zpos m in
      if 0 <=? e then n * 2 ^ e <? a
      else n <? a * 2 ^ (- e)
  end.

(** [min(a, f)] with the int first: the float is returned only when it is
    strictly smaller. *)
Definition min_int_float (a : Z) (f : float) : number :=
  if float_lt_int f a then Float f else Int a.

(** The loop of [Fraction.limit_denominator]: the continued-fraction
    expansion of n/d, kept while the next denominator fits.  [fuel] stands
    for [while True]. *)
Fixpoint limit_loop (fuel : nat) (max_denominator p0 q0 p1 q1 n d : Z)
    : outcome (Z * Z * Z * Z * Z * Z) :=
  match fuel with
  | O => OutOfFuel
  | S fuel' =>
      if d =? 0 then Raise ZeroDivisionError
      else
        let a := n / d in
        let q2 := q0 + a * q1 in
        if q2 >? max_denominator then Return (p0, q0, p1, q1, n, d)
        else limit_loop fuel' max_denominator p1 q1 (p0 + a * p1) q2
                        d (n - a * d)
  end.

(** Iterations granted to the loop: the remainders shrink geometrically,
    so twice the bit length of the denominator (plus two) is never used
    up. *)
Definition limit_fuel (d : Z) : nat := S (S (Z.to_nat (2 * Z.log2_up d))).

(** [Fraction.limit_denominator(self, max_denominator)], as in CPython's
    [fractions.py]. *)
Definition limit_denominator (self : Fraction) (max_denominator : Z)
    : outcome Fraction :=
  if max_denominator <? 1
  then Raise (ValueError "max_denominator should be at least 1")
  else if fr_denominator self <=? max_denominator then Return self
  else
    let? (p0, q0, p1, q1, n, d) :=
      limit_loop (limit_fuel (fr_denominator self)) max_denominator
                 0 1 1 0 (fr_numerator self) (fr_denominator self) in
    let k := (max_denominator - q0) / q1 in
    let? bound1 := Fraction_of_ints (p0 + k * p1) (q0 + k * q1) in
    let? bound2 := Fraction_of_ints p1 q1 in
    if Qle_bool (Qabs (bound2 - self)) (Qabs (bound1 - self))
    then Return bound2
    else Return bound1.

(** ** Python built-ins used by the code *)

(** [l[i]] on a list: a negative index counts from the end, an index out
    of range raises IndexError. *)
Definition list_getitem {A} (l : list A) (i : Z) : option A :=
  if 0 <=? i then nth_error l (Z.to_nat i)
  else if 0 <=? Z.of_nat (List.length l) + i
       then nth_error l (Z.to_nat (Z.of_nat (List.length l) + i))
       else None.

(** [s[:n]] on a sequence. *)
Definition slice_to {A} (l : list A) (n : Z) : list A :=
  if 0 <=? n then firstn (Z.to_nat n) l
  else firstn (Z.to_nat (Z.of_nat (List.length l) + n)) l.

(** [range(n)]. *)
Definition range (n : Z) : list Z := map Z.of_nat (seq 0 (Z.to_nat n)).

(** [str(n)] for an integer. *)
Definition str_of_Z (n : Z) : string := NilZero.string_of_int (Z.to_int n).

Section Primitives.

Context {KS : Kernel}.

(** A list comprehension whose element expression has effects: elements are
    built left to right, and the first exception abandons the partial
    list. *)
Fixpoint comprehension {Item Elt : Type} (element : Item -> M Elt)
    (items : list Item) : M (list Elt) :=
  match items with
  | [] => ret []
  | item :: rest =>
      e <- element item ;;
      es <- comprehension element rest ;;
      ret (e :: es)
  end.

(** [for x in l: body(x)], for a body that neither breaks nor continues. *)
Fixpoint for_each {A} (body : A -> M unit) (l : list A) : M unit :=
  match l with
  | [] => ret tt
  | x :: xs => body x ;;; for_each body xs
  end.

(** A pure computation inside a method. *)
Definition lift {A} (m : outcome A) : M A := fun w => (m, w).

Definition out_of_fuel {A} : M A := fun w => (OutOfFuel, w).

(** [e.errno]: None for an OSError raised without one. *)
Definition exn_errno (e : exn) : option Z :=
  match e with OSError errno => Some errno | _ => None end.

Definition is_OSError (e : exn) : bool :=
  match e with OSError _ | IOError _ => true | _ => false end.

(** [try: m / except OSError as error: ...]: the result of [m], or the
    OSError it raised; any other exception goes through. *)
Definition try_OSError {A} (m : M A) : M (A + exn) := fun w =>
  match m w with
  | (Return a, w') => (Return (inl a), w')
  | (Raise e, w') =>
      if is_OSError e then (Return (inr e), w') else (Raise e, w')
  | (OutOfFuel, w') => (OutOfFuel, w')
  end.

(** [error.errno == errno.EINVAL]. *)
Definition errno_is (e : exn) (code : Z) : bool :=
  match exn_errno e with Some errno => errno =? code | None => false end.

(** [fobj.fileno()]. *)
Definition fileno : M unit := fun w =>
  if closed w then (Raise (ValueError "I/O operation on closed file"), w)
  else (Return tt, w).

(** [fcntl.ioctl(fd, request, arg)] on a descriptor obtained earlier. *)
Definition fcntl_ioctl_fd {T} (request : IOC T) (arg : T) : M T :=
  emit (EvIoctl request arg) ;;;
  fun w =>
    match k_ioctl request arg (kern w) with
    | (KOk arg', k') =>
        (Return arg', mk_world k' (closed w) (live w) (next_map w) (trace w))
    | (KErr errno, k') =>
        (Raise (OSError errno),
         mk_world k' (closed w) (live w) (next_map w) (trace w))
    end.

(** [fcntl.ioctl(device, request, arg)]: the descriptor is taken from
    [device.fileno()], the structure is updated in place (here: returned),
    a failure raises OSError with the kernel's errno. *)
Definition fcntl_ioctl {T} (request : IOC T) (arg : T) : M T :=
  fileno ;;; fcntl_ioctl_fd request arg.

(** [mmap.mmap(fd, length, offset=offset)]. *)
Definition mmap_mmap (length offset : Z) : M mapping :=
  emit (EvMmap length offset) ;;;
  fun w =>
    match k_mmap length offset (kern w) with
    | (KOk _, k') =>
        let m := mk_mapping (next_map w) length offset in
        (Return m, mk_world k' (closed w) (live w ++ [m]) (S (next_map w)) (trace w))
    | (KErr errno, k') =>
        (Raise (OSError errno),
         mk_world k' (closed w) (live w) (next_map w) (trace w))
    end.

(** [m.close()] on an mmap object: the region is unmapped. *)
Definition mmap_close (m : mapping) : M unit :=
  emit (EvMunmap m) ;;;
  fun w =>
    (Return tt,
     mk_world (kern w) (closed w)
       (filter (fun m' => negb (mapping_eqb m m')) (live w))
       (next_map w) (trace w)).

(** The bytes seen through a mapping. *)
Definition mmap_bytes (k : kstate) (m : mapping) : list Byte.byte :=
  firstn (Z.to_nat (map_length m)) (k_mem k (map_offset m)).

(** [m[:n]]: a copy of the first [n] bytes, taken now. *)
Definition mmap_slice_to (m : mapping) (n : Z) : M (list Byte.byte) :=
  emit (EvCopy m n) ;;;
  fun w =>
    if existsb (mapping_eqb m) (live w)
    then (Return (slice_to (mmap_bytes (kern w) m) n), w)
    else (Raise (ValueError "mmap closed or invalid"), w).

(** [select.select((device,), (), ())]. *)
Definition select_select : M unit :=
  fileno ;;; emit EvSelect.

(** [fobj.close()]. *)
Definition file_close : M unit :=
  emit EvFileClose ;;;
  fun w => (Return tt, mk_world (kern w) true (live w) (next_map w) (trace w)).

End Primitives.

(** ** Enumeration at device open: [frame_sizes] and [read_info] *)

(** Modelled from the spec: constants of the missing module [raw], with the
    values the kernel API gives them. *)
Definition V4L2_FRMIVAL_TYPE_DISCRETE : Z := 1.

Definition V4L2_FRMIVAL_TYPE_CONTINUOUS : Z := 2.

Definition V4L2_FRMIVAL_TYPE_STEPWISE : Z := 3.

Definition V4L2_FRMSIZE_TYPE_DISCRETE : Z := 1.

Definition V4L2_CTRL_FLAG_DISABLED : Z := 1.

Definition V4L2_CTRL_FLAG_NEXT_CTRL : Z := 2147483648.

Definition V4L2_CTRL_FLAG_NEXT_COMPOUND : Z := 1073741824.

Definition V4L2_CTRL_TYPE_CTRL_CLASS : Z := 6.

(** [FrameIntervalType(v)]: the member with value [v]; ValueError (here
    None) when there is none. *)
Definition FrameIntervalType (v : Z) : option Z :=
  if (v =? V4L2_FRMIVAL_TYPE_DISCRETE) || (v =? V4L2_FRMIVAL_TYPE_CONTINUOUS)
     || (v =? V4L2_FRMIVAL_TYPE_STEPWISE)
  then Some v else None.

(** The named tuples [FrameType] and [ImageFormat]. *)
Record FrameType := mk_FrameType {
  ft_type : Z;
  ft_pixel_format : Z;
  ft_width : Z;
  ft_height : Z;
  ft_min_fps : Fraction;
  ft_max_fps : Fraction;
  ft_step_fps : Fraction }.

Record ImageFormat := mk_ImageFormat {
  if_type : BufferType;
  if_description : string;
  if_flags : Z;
  if_pixel_format : Z }.

(** [s.add(x)] on a set kept as a list without repetition. *)
Definition set_add (x : Z) (s : list Z) : list Z :=
  if existsb (Z.eqb x) s then s else s ++ [x].

Section Enumeration.

Context {KS : Kernel}.

(** The values of the members of [PixelFormat] (the V4L2_PIX_FMT_ constants
    of the missing module [raw]). *)
Variable is_PixelFormat : Z -> bool.

(** One of the three stepwise bounds of [get_frame_intervals]. *)
Definition stepwise_fps (f : v4l2_fract) : outcome Fraction :=
  if numerator f =? 0 then Return (Qmake 0 1)
  else Fraction_of_ints (denominator f) (numerator f).

(** The body of [for index in range(128)] in [get_frame_intervals]; the
    list holds the indices still to come, a [break] returns at once. *)
Fixpoint frame_intervals_loop (indices : list Z) (val : v4l2_frmivalenum)
    (res : list FrameType) : M (list FrameType) :=
  match indices with
  | [] => ret res
  | index :: rest =>
      r <- try_OSError (fcntl_ioctl_fd ENUM_FRAMEINTERVALS val) ;;
      match r with
      | inr error =>
          if errno_is error EINVAL then ret res else raise error
      | inl val =>
          let val := mk_frmivalenum (u32 index) (fi_pixel_format val)
                       (fi_width val) (fi_height val) (fi_type val)
                       (fi_discrete val) (fi_min val) (fi_max val)
                       (fi_step val) in
          match FrameIntervalType (fi_type val) with
          | None => ret res
          | Some ftype =>
              fps <- lift
                (if ftype =? V4L2_FRMIVAL_TYPE_DISCRETE
                 then
                   let? q := truediv_int_int (denominator (fi_discrete val))
                                             (numerator (fi_discrete val)) in
                   let? x := Fraction_of_float q in
                   Return (x, x, x)
                 else
                   let? min_fps := stepwise_fps (fi_min val) in
                   let? max_fps := stepwise_fps (fi_max val) in
                   let? step_fps := stepwise_fps (fi_step val) in
                   Return (min_fps, max_fps, step_fps)) ;;
              let '(min_fps, max_fps, step_fps) := fps in
              frame_intervals_loop rest val
                (res ++ [mk_FrameType ftype (fi_pixel_format val)
                           (fi_width val) (fi_height val)
                           min_fps max_fps step_fps])
          end
      end
  end.

Definition get_frame_intervals (fmt w h : Z) : M (list FrameType) :=
  let val := mk_frmivalenum 0 (u32 fmt) (u32 w) (u32 h) 0
               (mk_fract 0 0) (mk_fract 0 0) (mk_fract 0 0) (mk_fract 0 0) in
  frame_intervals_loop (range 128) val [].

(** [for pixel_format in pixel_formats] of [frame_sizes]; [size] is one
    structure reused from one request to the next. *)
Fixpoint frame_sizes_loop (pixel_formats : list Z) (size : v4l2_frmsizeenum)
    (sizes : list FrameType) : M (list FrameType) :=
  match pixel_formats with
  | [] => ret sizes
  | pixel_format :: rest =>
      let size := mk_frmsizeenum (u32 pixel_format) (fs_type size)
                    (fs_discrete_width size) (fs_discrete_height size) in
      size <- fcntl_ioctl_fd ENUM_FRAMESIZES size ;;
      if fs_type size =? V4L2_FRMSIZE_TYPE_DISCRETE
      then
        more <- get_frame_intervals pixel_format (fs_discrete_width size)
                                    (fs_discrete_height size) ;;
        frame_sizes_loop rest size (sizes ++ more)
      else frame_sizes_loop rest size sizes
  end.

Definition frame_sizes (pixel_formats : list Z) : M (list FrameType) :=
  frame_sizes_loop pixel_formats (mk_frmsizeenum 0 0 0 0) [].

(** The body of [for index in range(128)] in [read_info], for one stream
    type.  [fmt] is the one structure that all requests share; the
    description is kept decoded. *)
Fixpoint enum_fmt_loop (stream_type : BufferType) (indices : list Z)
    (fmt : v4l2_fmtdesc) (formats : list ImageFormat) (pixel_formats : list Z)
    : M (v4l2_fmtdesc * list ImageFormat * list Z) :=
  match indices with
  | [] => ret (fmt, formats, pixel_formats)
  | index :: rest =>
      let fmt := mk_fmtdesc (u32 index) (fd_type fmt) (fd_flags fmt)
                   (fd_description fmt) (fd_pixelformat fmt) in
      r <- try_OSError (fcntl_ioctl_fd ENUM_FMT fmt) ;;
      match r with
      | inr error =>
          if errno_is error EINVAL then ret (fmt, formats, pixel_formats)
          else raise error
      | inl fmt =>
          if is_PixelFormat (fd_pixelformat fmt)
          then
            enum_fmt_loop stream_type rest fmt
              (formats ++ [mk_ImageFormat stream_type (fd_description fmt)
                             (fd_flags fmt) (fd_pixelformat fmt)])
              (set_add (fd_pixelformat fmt) pixel_formats)
          else enum_fmt_loop stream_type rest fmt formats pixel_formats
      end
  end.

(** [for stream_type in img_fmt_stream_types] of [read_info]. *)
Fixpoint enum_formats (stream_types : list BufferType) (fmt : v4l2_fmtdesc)
    (formats : list ImageFormat) (pixel_formats : list Z)
    : M (list ImageFormat * list Z) :=
  match stream_types with
  | [] => ret (formats, pixel_formats)
  | stream_type :: rest =>
      let fmt := mk_fmtdesc (fd_index fmt) (u32 stream_type) (fd_flags fmt)
                   (fd_description fmt) (fd_pixelformat fmt) in
      r <- enum_fmt_loop stream_type (range 128) fmt formats pixel_formats ;;
      let '(fmt, formats, pixel_formats) := r in
      enum_formats rest fmt formats pixel_formats
  end.

(** The part of [read_info] that enumerates: the image formats of the
    stream types the device has, then the frame sizes of the pixel formats
    found. *)
Definition read_info_formats (img_fmt_stream_types : list BufferType)
    : M (list ImageFormat * list FrameType) :=
  r <- enum_formats img_fmt_stream_types (mk_fmtdesc 0 0 0 "" 0) [] [] ;;
  let '(formats, pixel_formats) := r in
  sizes <- frame_sizes pixel_formats ;;
  ret (formats, sizes).

End Enumeration.

(** ** class Device *)

Module Device.

Record t := mk {
  _context_level : Z }.

Section Methods.

Context {KS : Kernel}.

Definition is_closed : M bool := fun w => (Return (closed w), w).

Definition _ioctl {T} (request : IOC T) (arg : T) : M T :=
  fcntl_ioctl request arg.

(** The body of [while True] in [_get_device_controls]; [fuel] bounds the
    iterations that are followed.  The [assert] on the errno is taken as
    executed (Python run without -O): an OSError other than EINVAL ends
    the loop with AssertionError. *)
Fixpoint controls_loop (fuel : nat) (queryctrl_ext : v4l2_query_ext_ctrl)
    (ret_ : list v4l2_query_ext_ctrl) : M (list v4l2_query_ext_ctrl) :=
  match fuel with
  | O => out_of_fuel
  | S fuel' =>
      r <- try_OSError (_ioctl QUERY_EXT_CTRL queryctrl_ext) ;;
      match r with
      | inr e =>
          if errno_is e EINVAL then ret ret_ else raise AssertionError
      | inl queryctrl_ext =>
          let ret_ :=
            if (Z.land (qc_flags queryctrl_ext) V4L2_CTRL_FLAG_DISABLED =? 0)
               && negb (qc_type queryctrl_ext =? V4L2_CTRL_TYPE_CTRL_CLASS)
            then ret_ ++ [queryctrl_ext] else ret_ in
          let queryctrl_ext :=
            mk_query_ext_ctrl
              (u32 (Z.lor (qc_id queryctrl_ext)
                      (Z.lor V4L2_CTRL_FLAG_NEXT_CTRL
                             V4L2_CTRL_FLAG_NEXT_COMPOUND)))
              (qc_type queryctrl_ext) (qc_name queryctrl_ext)
              (qc_flags queryctrl_ext) in
          controls_loop fuel' queryctrl_ext ret_
      end
  end.

Definition _get_device_controls (fuel : nat) : M (list v4l2_query_ext_ctrl) :=
  let queryctrl_ext :=
    mk_query_ext_ctrl
      (u32 (Z.lor V4L2_CTRL_FLAG_NEXT_CTRL V4L2_CTRL_FLAG_NEXT_COMPOUND))
      0 "" 0 in
  controls_loop fuel queryctrl_ext [].

Definition close (self : t) : M t :=
  c <- is_closed ;;
  if negb c then file_close ;;; ret self else ret self.

Definition __enter__ (self : t) : M t :=
  ret (mk (_context_level self + 1)).

Definition __exit__ (self : t) : M t :=
  let self := mk (_context_level self - 1) in
  if _context_level self =? 0 then close self else ret self.

End Methods.

End Device.

(** ** class BaseBuffer and class BufferMMAP *)

Module BufferMMAP.

(** A [BufferMMAP] object: the attributes set by [BaseBuffer.__init__] and
    the two it adds, [mmap] (None once closed) and [length]. *)
Record t := mk {
  _context_level : Z;
  index : Z;
  buffer_type : BufferType;
  queue : bool;
  mmap : option mapping;
  length : Z }.

Section Methods.

Context {KS : Kernel}.

(** [BaseBuffer._v4l2_buffer] followed by the override's
    [buff.memory = Memory.MMAP]. *)
Definition _v4l2_buffer (index : Z) (buffer_type : BufferType) : v4l2_buffer :=
  mk_buffer (u32 index) (u32 buffer_type) 0 (Memory_value MMAP) 0 0.

Definition _ioctl {T} (request : IOC T) (arg : T) : M T :=
  Device._ioctl request arg.

Definition __init__ (index : Z) (buffer_type : BufferType) (queue : bool) : M t :=
  let buff := _v4l2_buffer index buffer_type in
  buff <- _ioctl QUERYBUF buff ;;
  fileno ;;;
  m <- mmap_mmap (buf_length buff) (buf_offset buff) ;;
  (if queue then _ioctl QBUF buff ;;; ret tt else ret tt) ;;;
  ret (mk 0 index buffer_type queue (Some m) (buf_length buff)).

Definition close (self : t) : M t :=
  match mmap self with
  | Some m =>
      mmap_close m ;;;
      ret (mk (_context_level self) (index self) (buffer_type self)
              (queue self) None (length self))
  | None => ret self
  end.

Definition raw_read (self : t) (buff : v4l2_buffer) : M (list Byte.byte) :=
  match mmap self with
  | None => raise (TypeError "'NoneType' object is not subscriptable")
  | Some m =>
      result <- mmap_slice_to m (buf_bytesused buff) ;;
      (if queue self then _ioctl QBUF buff ;;; ret tt else ret tt) ;;;
      ret result
  end.

Definition read (self : t) (buff : v4l2_buffer) : M (list Byte.byte) :=
  select_select ;;; raw_read self buff.

Definition __enter__ (self : t) : M t :=
  ret (mk (_context_level self + 1) (index self) (buffer_type self)
          (queue self) (mmap self) (length self)).

Definition __exit__ (self : t) : M t :=
  let self := mk (_context_level self - 1) (index self) (buffer_type self)
                 (queue self) (mmap self) (length self) in
  if _context_level self =? 0 then close self else ret self.

End Methods.

End BufferMMAP.

(** ** class Buffers *)

Module Buffers.

Record t := mk {
  _context_level : Z;
  buffer_size : Z;
  buffer_type : BufferType;
  buffer_queue : bool;
  memory : Memory;
  buffers : option (list BufferMMAP.t) }.

Section Methods.

Context {KS : Kernel}.

Definition _ioctl {T} (request : IOC T) (arg : T) : M T :=
  Device._ioctl request arg.

Definition _create_buffers (self : t) : M (list BufferMMAP.t) :=
  if Memory_neq (memory self) MMAP
  then raise (TypeError ("Unsupported buffer type '"
                           ++ Memory_name (memory self) ++ "'")%string)
  else
    let r := mk_requestbuffers (u32 (buffer_size self))
                               (u32 (buffer_type self))
                               (u32 (Memory_value (memory self))) in
    r <- _ioctl REQBUFS r ;;
    if rb_count r =? 0
    then raise (IOError "Not enough buffer memory")
    else
      comprehension
        (fun index =>
           BufferMMAP.__init__ index (buffer_type self) (buffer_queue self))
        (range (rb_count r)).

Definition __init__ (buffer_type : BufferType) (buffer_size : Z)
    (buffer_queue : bool) (memory : Memory) : M t :=
  let self := mk 0 buffer_size buffer_type buffer_queue memory None in
  bs <- _create_buffers self ;;
  ret (mk 0 buffer_size buffer_type buffer_queue memory (Some bs)).

Definition set_buffers (self : t) (bs : option (list BufferMMAP.t)) : t :=
  mk (_context_level self) (buffer_size self) (buffer_type self)
     (buffer_queue self) (memory self) bs.

(** [for buff in self.buffers: buff.close()]: every slot object is updated
    in place. *)
Fixpoint close_all (bs : list BufferMMAP.t) : M (list BufferMMAP.t) :=
  match bs with
  | [] => ret []
  | b :: bs' =>
      b' <- BufferMMAP.close b ;;
      bs'' <- close_all bs' ;;
      ret (b' :: bs'')
  end.

Definition close (self : t) : M t :=
  match buffers self with
  | Some (b :: bs) =>
      close_all (b :: bs) ;;;
      ret (set_buffers self None)
  | _ => ret self
  end.

Definition raw_read (self : t) : M (list Byte.byte) :=
  match buffers self with
  | None => raise (TypeError "'NoneType' object is not subscriptable")
  | Some bs =>
      match list_getitem bs 0 with
      | None => raise IndexError
      | Some b0 =>
          let buff := BufferMMAP._v4l2_buffer (BufferMMAP.index b0)
                                              (BufferMMAP.buffer_type b0) in
          buff <- _ioctl DQBUF buff ;;
          match list_getitem bs (buf_index buff) with
          | None => raise IndexError
          | Some b => BufferMMAP.raw_read b buff
          end
      end
  end.

Definition read (self : t) : M (list Byte.byte) :=
  select_select ;;; raw_read self.

Definition __enter__ (self : t) : M t :=
  ret (mk (_context_level self + 1) (buffer_size self) (buffer_type self)
          (buffer_queue self) (memory self) (buffers self)).

Definition __exit__ (self : t) : M t :=
  let self := mk (_context_level self - 1) (buffer_size self)
                 (buffer_type self) (buffer_queue self) (memory self)
                 (buffers self) in
  if _context_level self =? 0 then close self else ret self.

End Methods.

End Buffers.

(** ** class VideoCapture: streaming switch and selection rectangles *)

(** The named tuple [Rect]. *)
Record Rect := mk_Rect {
  left : Z;
  top : Z;
  width : Z;
  height : Z }.

(** Modelled from the spec: [raw.V4L2_SEL_TGT_CROP], a constant of the
    missing module [raw]; the kernel API gives it the value 0. *)
Definition V4L2_SEL_TGT_CROP : Z := 0.

Module VideoCapture.

Definition buffer_type : BufferType := VIDEO_CAPTURE.

Definition MAX_NR_CROP_RECTS : Z := 8.

Section Methods.

Context {KS : Kernel}.

Definition _ioctl {T} (request : IOC T) (arg : T) : M T :=
  Device._ioctl request arg.

(** The body of [for i in range(0, nr_rects)]: the four fields of
    [rect_array[i]] are stored in [rects[i].r]. *)
Definition store_rect (r : Rect) : v4l2_rect :=
  mk_rect (s32 (left r)) (s32 (top r)) (u32 (width r)) (u32 (height r)).

Definition set_selection (rect_array : list Rect) : M unit :=
  let nr_rects := Z.of_nat (List.length rect_array) in
  if nr_rects >? MAX_NR_CROP_RECTS
  then raise (ValueError ("Too many selection areas: " ++ str_of_Z nr_rects
                            ++ ", max supported: "
                            ++ str_of_Z MAX_NR_CROP_RECTS)%string)
  else
    let rects := map store_rect rect_array in
    let selection :=
      mk_selection (u32 buffer_type) (u32 V4L2_SEL_TGT_CROP) (u32 nr_rects)
                   rects in
    _ioctl S_SELECTION selection ;;; ret tt.

(** [set_fps]: the bound [int(min(2**32, 2**32/fps))], the fraction
    [Fraction(fps).limit_denominator(max_den)], and the S_PARM ioctl with
    the time per frame, the inverse of that fraction.  The value returned
    (the ioctl's 0) is dropped. *)
Definition set_fps (fps : number) : M unit :=
  max_den <- lift (let? q := truediv_int (2 ^ 32) fps in
                   int_of_number (min_int_float (2 ^ 32) q)) ;;
  fps <- lift (let? x := Fraction_of_number fps in
               limit_denominator x max_den) ;;
  let p := mk_streamparm (u32 buffer_type)
             (mk_fract (u32 (fr_denominator fps)) (u32 (fr_numerator fps))) in
  _ioctl S_PARM p ;;; ret tt.

(** [get_fps]: the G_PARM ioctl, then denominator / numerator as a
    float. *)
Definition get_fps : M float :=
  let p := mk_streamparm (u32 buffer_type) (mk_fract 0 0) in
  p <- _ioctl G_PARM p ;;
  lift (truediv_int_int (denominator (timeperframe p))
                        (numerator (timeperframe p))).

Definition start : M unit :=
  let btype := buffer_type in
  _ioctl STREAMON btype ;;; ret tt.

Definition stop : M unit :=
  c <- Device.is_closed ;;
  if negb c
  then
    let btype := buffer_type in
    _ioctl STREAMOFF btype ;;; ret tt
  else ret tt.

End Methods.

End VideoCapture.

(** ** class VideoStream *)

Module VideoStream.

Record t := mk {
  _context_level : Z;
  buffers : Buffers.t }.

Section Methods.

Context {KS : Kernel}.

Definition __init__ (buffer_size : Z) (buffer_queue : bool) (memory : Memory)
    : M t :=
  bs <- Buffers.__init__ VideoCapture.buffer_type buffer_size buffer_queue
                         memory ;;
  ret (mk 0 bs).

Definition close (self : t) : M t :=
  bs <- Buffers.close (buffers self) ;;
  ret (mk (_context_level self) bs).

Definition raw_read (self : t) : M (list Byte.byte) :=
  Buffers.raw_read (buffers self).

Definition read (self : t) : M (list Byte.byte) :=
  Buffers.read (buffers self).

Definition __enter__ (self : t) : M t :=
  ret (mk (_context_level self + 1) (buffers self)).

Definition __exit__ (self : t) : M t :=
  let self := mk (_context_level self - 1) (buffers self) in
  if _context_level self =? 0 then close self else ret self.

End Methods.

End VideoStream.

(** ** The context-manager protocol *)

(** [Device], [BaseBuffer], [Buffers] and [VideoStream] all define
    [__enter__] and [__exit__]. *)
Class ContextManager {KS : Kernel} (T : Type) := {
  cm_enter : T -> M T;
  cm_exit : T -> M T }.

#[export] Instance Device_cm {KS : Kernel} : ContextManager Device.t :=
  {| cm_enter := Device.__enter__; cm_exit := Device.__exit__ |}.

#[export] Instance BufferMMAP_cm {KS : Kernel} : ContextManager BufferMMAP.t :=
  {| cm_enter := BufferMMAP.__enter__; cm_exit := BufferMMAP.__exit__ |}.

#[export] Instance Buffers_cm {KS : Kernel} : ContextManager Buffers.t :=
  {| cm_enter := Buffers.__enter__; cm_exit := Buffers.__exit__ |}.

#[export] Instance VideoStream_cm {KS : Kernel} : ContextManager VideoStream.t :=
  {| cm_enter := VideoStream.__enter__; cm_exit := VideoStream.__exit__ |}.

(** A with-block over one object, whose body is a sequence of further
    with-blocks over the same object:
    [with obj: (with obj: ...) (with obj: ...) ...]. *)
Inductive block := With (body : list block).

Inductive cm_call := Enter | Exit.

(** The calls a block makes on its object, in order. *)
Fixpoint calls_of (b : block) : list cm_call :=
  match b with
  | With body => Enter :: flat_map calls_of body ++ [Exit]
  end.

(** Blocks still open after a sequence of calls. *)
Fixpoint depth (cs : list cm_call) : Z :=
  match cs with
  | [] => 0
  | Enter :: cs' => depth cs' + 1
  | Exit :: cs' => depth cs' - 1
  end.

Section WithBlocks.

Context {KS : Kernel} {T : Type} {CM : ContextManager T}.

Definition run_call (c : cm_call) (self : T) : M T :=
  match c with
  | Enter => cm_enter self
  | Exit => cm_exit self
  end.

Fixpoint run_calls (cs : list cm_call) (self : T) : M T :=
  match cs with
  | [] => ret self
  | c :: cs' => self <- run_call c self ;; run_calls cs' self
  end.

(** The with statement over such a block: [__enter__], the body, then
    [__exit__].  The bodies hold nothing but further with-blocks on the
    same object, and none of the calls involved raises, so the path on
    which [__exit__] receives an exception does not arise. *)
Fixpoint run_with (b : block) (self : T) : M T :=
  match b with
  | With body =>
      self <- cm_enter self ;;
      self <- (fix run_body (bs : list block) (self : T) : M T :=
                 match bs with
                 | [] => ret self
                 | b' :: bs' => self <- run_with b' self ;; run_body bs' self
                 end) body self ;;
      cm_exit self
  end.

End WithBlocks.

(** ** Drivers to run the code against *)

(** A scripted driver.  It grants at most [d_grant] buffers, refuses
    QUERYBUF for the index [d_fail_querybuf] and [mmap] at the offset
    [d_fail_mmap], hands buffers back in the order [d_ready], stores the
    stream parameters it is given, and lists [d_formats] formats and
    [d_controls] controls before answering EINVAL (never, when negative).
    Every QBUF starts a new frame, which changes what the buffers hold. *)
Record driver := mk_driver {
  d_grant : Z;
  d_fail_querybuf : option Z;
  d_fail_mmap : option Z;
  d_ready : list (Z * Z);
  d_parm : v4l2_fract;
  d_formats : Z;
  d_controls : Z;
  d_queried : Z;
  d_frame : Z }.

Definition ENOMEM : Z := 12.

Definition EAGAIN : Z := 11.

Definition opt_is (o : option Z) (z : Z) : bool :=
  match o with Some x => x =? z | None => false end.

Definition driver_ioctl {T : Type} (req : IOC T) : T -> driver -> kres T * driver :=
  match req in IOC T return T -> driver -> kres T * driver with
  | REQBUFS => fun r d =>
      (KOk (mk_requestbuffers (Z.min (rb_count r) (d_grant d))
                              (rb_type r) (rb_memory r)), d)
  | QUERYBUF => fun b d =>
      if opt_is (d_fail_querybuf d) (buf_index b) then (KErr EINVAL, d)
      else (KOk (mk_buffer (buf_index b) (buf_type b) 0 (buf_memory b)
                           (4096 * buf_index b) 4096), d)
  | QBUF => fun b d =>
      (KOk b, mk_driver (d_grant d) (d_fail_querybuf d) (d_fail_mmap d)
                (d_ready d) (d_parm d) (d_formats d) (d_controls d)
                (d_queried d) (d_frame d + 1))
  | DQBUF => fun b d =>
      match d_ready d with
      | [] => (KErr EAGAIN, d)
      | (i, n) :: rest =>
          (KOk (mk_buffer i (buf_type b) n (buf_memory b) (4096 * i) 4096),
           mk_driver (d_grant d) (d_fail_querybuf d) (d_fail_mmap d)
             rest (d_parm d) (d_formats d) (d_controls d) (d_queried d)
             (d_frame d))
      end
  | STREAMON => fun t d => (KOk t, d)
  | STREAMOFF => fun t d => (KOk t, d)
  | S_PARM => fun p d =>
      (KOk p, mk_driver (d_grant d) (d_fail_querybuf d) (d_fail_mmap d)
                (d_ready d) (timeperframe p) (d_formats d) (d_controls d)
                (d_queried d) (d_frame d))
  | G_PARM => fun p d => (KOk (mk_streamparm (sp_type p) (d_parm d)), d)
  | S_SELECTION => fun s d => (KOk s, d)
  | ENUM_FMT => fun f d =>
      if (0 <=? d_formats d) && (d_formats d <=? fd_index f)
      then (KErr EINVAL, d)
      else (KOk (mk_fmtdesc (fd_index f) (fd_type f) 0 "fmt"
                            (1000 + fd_index f)), d)
  | ENUM_FRAMEINTERVALS => fun v d =>
      if (0 <=? d_formats d) && (d_formats d <=? fi_index v)
      then (KErr EINVAL, d)
      else (KOk (mk_frmivalenum (fi_index v) (fi_pixel_format v)
                   (fi_width v) (fi_height v) V4L2_FRMIVAL_TYPE_DISCRETE
                   (mk_fract 1 30) (fi_min v) (fi_max v) (fi_step v)), d)
  | ENUM_FRAMESIZES => fun s d =>
      (KOk (mk_frmsizeenum (fs_pixel_format s) V4L2_FRMSIZE_TYPE_DISCRETE
                           640 480), d)
  | QUERY_EXT_CTRL => fun q d =>
      if (0 <=? d_controls d) && (d_controls d <=? d_queried d)
      then (KErr EINVAL, d)
      else (KOk (mk_query_ext_ctrl (d_queried d + 1) 1 "ctrl" 0),
            mk_driver (d_grant d) (d_fail_querybuf d) (d_fail_mmap d)
              (d_ready d) (d_parm d) (d_formats d) (d_controls d)
              (d_queried d + 1) (d_frame d))
  end.

Definition driver_mmap (length offset : Z) (d : driver) : kres unit * driver :=
  if opt_is (d_fail_mmap d) offset then (KErr ENOMEM, d) else (KOk tt, d).

(** What a buffer holds: it changes from frame to frame. *)
Definition driver_mem (d : driver) (offset : Z) : list Byte.byte :=
  if Z.even (d_frame d)
  then [Byte.x01; Byte.x02; Byte.x03; Byte.x04]
  else [Byte.xa1; Byte.xa2; Byte.xa3; Byte.xa4].

Definition scripted : Kernel :=
  {| kstate := driver;
     k_ioctl := @driver_ioctl;
     k_mmap := driver_mmap;
     k_mem := driver_mem |}.

(** A driver in its initial state, and the world around it: device open,
    nothing mapped, nothing called. *)
Definition driver0 : driver :=
  mk_driver 4 None None [] (mk_fract 0 0) 3 2 0 0.

Definition world0 (d : driver) : @World scripted :=
  mk_world (KS := scripted) d false [] 0 [].

(** * Properties *)

(** ** Tactics and basic facts about the monad *)

Ltac unfold_monad :=
  unfold bind, ret, raise, lift, emit, fileno, out_of_fuel in *.

Ltac run_prim :=
  unfold Device._ioctl, BufferMMAP._ioctl, Buffers._ioctl,
    VideoCapture._ioctl, fcntl_ioctl, fcntl_ioctl_fd, mmap_mmap, mmap_close,
    mmap_slice_to, select_select, file_close, Device.is_closed in *;
  unfold_monad.

Section MonadFacts.

Context {KS : Kernel}.

Lemma bind_Return {A B} (m : M A) (f : A -> M B) w a w' :
  m w = (Return a, w') -> bind m f w = f a w'.
Proof. intros H. unfold bind. now rewrite H. Qed.

Lemma bind_Raise {A B} (m : M A) (f : A -> M B) w e w' :
  m w = (Raise e, w') -> bind m f w = (Raise e, w').
Proof. intros H. unfold bind. now rewrite H. Qed.

Lemma bind_inv_Return {A B} (m : M A) (f : A -> M B) w b w' :
  bind m f w = (Return b, w') ->
  exists a w1, m w = (Return a, w1) /\ f a w1 = (Return b, w').
Proof.
  unfold bind. destruct (m w) as [[a | e |] w1]; intros H; try discriminate.
  now exists a, w1.
Qed.

Lemma bind_assoc {A B C} (m : M A) (f : A -> M B) (g : B -> M C) w :
  bind (bind m f) g w = bind m (fun a => bind (f a) g) w.
Proof. unfold bind. destruct (m w) as [[a | e |] w1]; reflexivity. Qed.

Lemma bind_ext {A B} (m : M A) (f g : A -> M B) w :
  (forall a w', f a w' = g a w') -> bind m f w = bind m g w.
Proof.
  intros H. unfold bind. destruct (m w) as [[a | e |] w1]; auto.
Qed.

Lemma bind_ext_l {A B} (m m' : M A) (f : A -> M B) w :
  m w = m' w -> bind m f w = bind m' f w.
Proof. intros H. unfold bind. now rewrite H. Qed.

Lemma bind_ret_r {A} (m : M A) w : bind m ret w = m w.
Proof. unfold bind, ret. destruct (m w) as [[a | e |] w1]; reflexivity. Qed.

End MonadFacts.

(** ** Memory kinds other than MMAP *)

Section MemoryKind.

Context {KS : Kernel}.

Lemma Memory_neq_MMAP (m : Memory) : m <> MMAP -> Memory_neq m MMAP = true.
Proof. destruct m; intros H; try reflexivity. now elim H. Qed.

(** C7: a pool asked for with a memory kind other than MMAP is refused with
    TypeError (the spec's UnsupportedError) and the world is left as it
    was: no ioctl, no mapping, nothing in the trace.  The same holds one
    level up, for the VideoStream that builds the pool. *)
Theorem C7_non_mmap_refused_before_any_ioctl
    (buffer_type : BufferType) (buffer_size : Z) (buffer_queue : bool)
    (memory : Memory) (w : World) :
  memory <> MMAP ->
  let refusal :=
    TypeError ("Unsupported buffer type '" ++ Memory_name memory ++ "'")%string
  in
  Buffers._create_buffers
    (Buffers.mk 0 buffer_size buffer_type buffer_queue memory None) w
    = (Raise refusal, w)
  /\ Buffers.__init__ buffer_type buffer_size buffer_queue memory w
     = (Raise refusal, w)
  /\ VideoStream.__init__ buffer_size buffer_queue memory w
     = (Raise refusal, w)
  /\ trace (snd (Buffers.__init__ buffer_type buffer_size buffer_queue
                   memory w)) = trace w.
Proof.
  intros Hm refusal.
  assert (H : forall bt, Buffers._create_buffers
            (Buffers.mk 0 buffer_size bt buffer_queue memory None) w
          = (Raise refusal, w)).
  { intros bt. unfold Buffers._create_buffers. cbn [Buffers.memory].
    now rewrite (Memory_neq_MMAP _ Hm). }
  assert (H' : forall bt, Buffers.__init__ bt buffer_size buffer_queue memory w
                          = (Raise refusal, w)).
  { intros bt. unfold Buffers.__init__. now rewrite (bind_Raise _ _ _ _ _ (H bt)). }
  repeat split.
  - apply H.
  - apply H'.
  - unfold VideoStream.__init__. now rewrite (bind_Raise _ _ _ _ _ (H' _)).
  - now rewrite H'.
Qed.

End MemoryKind.

Lemma C7_witness :
  USERPTR <> MMAP /\
  Buffers.__init__ (KS := scripted) VIDEO_CAPTURE 4 true USERPTR (world0 driver0)
  = (Raise (TypeError "Unsupported buffer type 'USERPTR'"), world0 driver0).
Proof.
  split; [discriminate |].
  apply (C7_non_mmap_refused_before_any_ioctl (KS := scripted)
           VIDEO_CAPTURE 4 true USERPTR (world0 driver0)).
  discriminate.
Defined.

(** ** Selection rectangles and the streaming switch *)

(** A rectangle whose four fields fit the kernel's: signed 32-bit
    coordinates, unsigned 32-bit sizes. *)
Definition rect_fits (r : Rect) : Prop :=
  - 2 ^ 31 <= left r < 2 ^ 31 /\ - 2 ^ 31 <= top r < 2 ^ 31 /\
  0 <= width r < 2 ^ 32 /\ 0 <= height r < 2 ^ 32.

Definition same_rect (r : Rect) (v : v4l2_rect) : Prop :=
  r_left v = left r /\ r_top v = top r /\
  r_width v = width r /\ r_height v = height r.

Lemma u32_small z : 0 <= z < 2 ^ 32 -> u32 z = z.
Proof. intros H. unfold u32. now apply Z.mod_small. Qed.

Lemma s32_small z : - 2 ^ 31 <= z < 2 ^ 31 -> s32 z = z.
Proof. intros H. unfold s32. rewrite Z.mod_small; lia. Qed.

Lemma store_rect_fits (r : Rect) :
  rect_fits r -> same_rect r (VideoCapture.store_rect r).
Proof.
  intros (Hl & Ht & Hw & Hh). unfold same_rect, VideoCapture.store_rect. cbn.
  now rewrite !s32_small, !u32_small.
Qed.

Section Session.

Context {KS : Kernel}.

(** The world after one ioctl on an open device. *)
Definition after_ioctl {T} (request : IOC T) (arg : T) (w : World) : World :=
  mk_world (snd (k_ioctl request arg (kern w))) (closed w) (live w)
           (next_map w) (trace w ++ [EvIoctl request arg]).

(** What a method returns when it issues one ioctl and nothing else. *)
Definition ioctl_answer {T A} (request : IOC T) (arg : T) (w : World)
    (value : T -> A) : outcome A :=
  match fst (k_ioctl request arg (kern w)) with
  | KOk arg' => Return (value arg')
  | KErr errno => Raise (OSError errno)
  end.

Lemma ioctl_open {T} (request : IOC T) (arg : T) (w : World) :
  closed w = false ->
  Device._ioctl request arg w
  = (ioctl_answer request arg w (fun a => a), after_ioctl request arg w).
Proof.
  intros Hc. run_prim. rewrite Hc. cbn.
  unfold ioctl_answer, after_ioctl.
  destruct (k_ioctl request arg (kern w)) as [[a | e] k']; reflexivity.
Qed.

Lemma ioctl_closed {T} (request : IOC T) (arg : T) (w : World) :
  closed w = true ->
  Device._ioctl request arg w
  = (Raise (ValueError "I/O operation on closed file"), w).
Proof. intros Hc. run_prim. now rewrite Hc. Qed.

(** C8: [set_selection] with more than eight rectangles raises ValueError
    (the spec's ValidationError) and leaves the world untouched; with eight
    or fewer, on an open device, it issues one S_SELECTION ioctl and nothing
    else, whose structure counts and carries every rectangle given, in
    order (field for field when the values fit the kernel's fields). *)
Theorem C8_set_selection_checks_the_count_first
    (rect_array : list Rect) (w : World) :
  closed w = false ->
  let n := Z.of_nat (List.length rect_array) in
  (8 < n ->
    VideoCapture.set_selection rect_array w
    = (Raise (ValueError ("Too many selection areas: " ++ str_of_Z n
                            ++ ", max supported: 8")%string), w))
  /\
  (n <= 8 ->
    let selection :=
      mk_selection VideoCapture.buffer_type V4L2_SEL_TGT_CROP n
                   (map VideoCapture.store_rect rect_array) in
    VideoCapture.set_selection rect_array w
    = (ioctl_answer S_SELECTION selection w (fun _ => tt),
       after_ioctl S_SELECTION selection w)
    /\ List.length (sel_pr selection) = List.length rect_array
    /\ (Forall rect_fits rect_array ->
        Forall2 same_rect rect_array (sel_pr selection))).
Proof.
  intros Hc n. split.
  - intros Hn. unfold VideoCapture.set_selection. fold n.
    replace (n >? VideoCapture.MAX_NR_CROP_RECTS) with true; [reflexivity |].
    symmetry. apply Z.gtb_lt. unfold VideoCapture.MAX_NR_CROP_RECTS. lia.
  - intros Hn selection. repeat split.
    + unfold VideoCapture.set_selection. fold n.
      replace (n >? VideoCapture.MAX_NR_CROP_RECTS) with false.
      2:{ symmetry. rewrite Z.gtb_ltb. apply Z.ltb_ge.
          unfold VideoCapture.MAX_NR_CROP_RECTS. lia. }
      assert (Hu : u32 n = n) by (apply u32_small; lia).
      rewrite Hu. change (u32 VideoCapture.buffer_type) with VideoCapture.buffer_type.
      change (u32 V4L2_SEL_TGT_CROP) with V4L2_SEL_TGT_CROP.
      fold selection. unfold VideoCapture._ioctl.
      unfold bind at 1. rewrite (ioctl_open _ _ _ Hc).
      unfold ioctl_answer.
      destruct (fst (k_ioctl S_SELECTION selection (kern w))); reflexivity.
    + cbn. apply length_map.
    + intros Hfit. cbn. clear - Hfit.
      induction Hfit; cbn; constructor; auto using store_rect_fits.
Qed.

(** C9: [stop] on a capture whose device is closed returns normally and
    leaves the world as it was (no ioctl); on an open device it issues one
    STREAMOFF ioctl, for the capture's buffer type, and nothing else. *)
Theorem C9_stop_skipped_on_a_closed_device (w : World) :
  (closed w = true -> VideoCapture.stop w = (Return tt, w))
  /\
  (closed w = false ->
    VideoCapture.stop w
    = (ioctl_answer STREAMOFF VideoCapture.buffer_type w (fun _ => tt),
       after_ioctl STREAMOFF VideoCapture.buffer_type w)).
Proof.
  split; intros Hc; unfold VideoCapture.stop.
  - unfold bind at 1. unfold Device.is_closed. now rewrite Hc.
  - unfold bind at 1. unfold Device.is_closed. rewrite Hc. cbn [negb].
    unfold VideoCapture._ioctl.
    unfold bind at 1. rewrite (ioctl_open _ _ _ Hc).
    unfold ioctl_answer.
    destruct (fst (k_ioctl STREAMOFF VideoCapture.buffer_type (kern w)));
      reflexivity.
Qed.

End Session.

Lemma C8_witness :
  closed (world0 driver0) = false /\
  trace (snd (VideoCapture.set_selection (KS := scripted)
                [mk_Rect 0 0 640 480; mk_Rect 16 16 320 240] (world0 driver0)))
  = [EvIoctl S_SELECTION
       (mk_selection 1 0 2 [mk_rect 0 0 640 480; mk_rect 16 16 320 240])].
Proof.
  split; [reflexivity |].
  destruct (C8_set_selection_checks_the_count_first (KS := scripted)
              [mk_Rect 0 0 640 480; mk_Rect 16 16 320 240] (world0 driver0)
              eq_refl) as [_ H].
  destruct (H ltac:(cbn; lia)) as [-> _]. reflexivity.
Defined.

(** ** Building the buffer pool *)

Definition is_munmap (e : event) : bool :=
  match e with EvMunmap _ => true | _ => false end.

(** The unmap calls of a trace. *)
Definition unmaps (tr : list event) : list event := filter is_munmap tr.

Section Pool.

Context {KS : Kernel}.

(** What every call of the pool's constructor preserves: the device stays
    as open as it was, no region is unmapped, and no unmap is issued. *)
Definition grows (w w' : World) : Prop :=
  closed w' = closed w /\ incl (live w) (live w')
  /\ unmaps (trace w') = unmaps (trace w).

Lemma grows_refl w : grows w w.
Proof. repeat split. apply incl_refl. Qed.

Lemma grows_trans w1 w2 w3 : grows w1 w2 -> grows w2 w3 -> grows w1 w3.
Proof.
  intros (Hc1 & Hl1 & Hu1) (Hc2 & Hl2 & Hu2). repeat split.
  - congruence.
  - eapply incl_tran; eassumption.
  - congruence.
Qed.

Lemma unmaps_snoc tr e : is_munmap e = false -> unmaps (tr ++ [e]) = unmaps tr.
Proof.
  intros He. unfold unmaps. rewrite filter_app. cbn. rewrite He.
  apply app_nil_r.
Qed.

(** The constructor of one slot, as the comprehension of
    [_create_buffers] calls it. *)
Definition slot_init (self : Buffers.t) (index : Z) : M BufferMMAP.t :=
  BufferMMAP.__init__ index (Buffers.buffer_type self)
                      (Buffers.buffer_queue self).

(** A slot that holds a live mapping. *)
Definition mapped_in (w : World) (s : BufferMMAP.t) : Prop :=
  exists m, BufferMMAP.mmap s = Some m /\ In m (live w).

(** Computations that only grow the world, whatever their outcome. *)
Definition Grows {A} (m : M A) : Prop := forall w, grows w (snd (m w)).

Lemma Grows_bind {A B} (m : M A) (f : A -> M B) :
  Grows m -> (forall a, Grows (f a)) -> Grows (bind m f).
Proof.
  intros Hm Hf w. unfold bind. specialize (Hm w).
  destruct (m w) as [[a | e |] w1]; cbn in *; auto.
  eapply grows_trans; [exact Hm | apply Hf].
Qed.

Lemma Grows_ret {A} (a : A) : Grows (ret a).
Proof. intros w. apply grows_refl. Qed.

Lemma Grows_fileno : Grows fileno.
Proof. intros w. unfold fileno. destruct (closed w); apply grows_refl. Qed.

Lemma Grows_emit e : is_munmap e = false -> Grows (emit e).
Proof.
  intros He w. repeat split; cbn; auto using incl_refl, unmaps_snoc.
Qed.

Lemma Grows_ioctl {T} (request : IOC T) (arg : T) :
  Grows (Device._ioctl request arg).
Proof.
  unfold Device._ioctl, fcntl_ioctl, fcntl_ioctl_fd.
  apply Grows_bind; [apply Grows_fileno | intros _].
  apply Grows_bind; [now apply Grows_emit | intros _].
  intros w. destruct (k_ioctl request arg (kern w)) as [[a | e] k1]; cbn;
    repeat split; apply incl_refl.
Qed.

Lemma Grows_mmap length offset : Grows (mmap_mmap length offset).
Proof.
  unfold mmap_mmap.
  apply Grows_bind; [now apply Grows_emit | intros _].
  intros w. destruct (k_mmap length offset (kern w)) as [[[] | e] k1]; cbn;
    repeat split; cbn; auto using incl_refl, incl_appl.
Qed.

Lemma slot_init_grows index bt q : Grows (BufferMMAP.__init__ index bt q).
Proof.
  unfold BufferMMAP.__init__, BufferMMAP._ioctl.
  apply Grows_bind; [apply Grows_ioctl | intros b].
  apply Grows_bind; [apply Grows_fileno | intros _].
  apply Grows_bind; [apply Grows_mmap | intros m].
  apply Grows_bind; [| intros _; apply Grows_ret].
  destruct q; [| apply Grows_ret].
  apply Grows_bind; [apply Grows_ioctl | intros _; apply Grows_ret].
Qed.

Lemma mmap_Return length offset w m w' :
  mmap_mmap length offset w = (Return m, w') -> In m (live w').
Proof.
  unfold mmap_mmap, bind, emit. cbn.
  destruct (k_mmap length offset (kern w)) as [[[] | e] k1]; [| discriminate].
  intros H; injection H as <- <-. cbn. apply in_or_app. right. now left.
Qed.

Lemma slot_init_Return index bt q w s w' :
  BufferMMAP.__init__ index bt q w = (Return s, w') ->
  BufferMMAP.index s = index /\ BufferMMAP.queue s = q
  /\ BufferMMAP.buffer_type s = bt /\ BufferMMAP._context_level s = 0
  /\ mapped_in w' s.
Proof.
  unfold BufferMMAP.__init__, mapped_in. intros H.
  apply bind_inv_Return in H as (b & w1 & _ & H).
  apply bind_inv_Return in H as ([] & w2 & _ & H).
  apply bind_inv_Return in H as (m & w3 & Hm & H).
  apply bind_inv_Return in H as ([] & w4 & Hq & H).
  unfold ret in H. injection H as <- <-. cbn. repeat split.
  exists m. split; [reflexivity |].
  apply mmap_Return in Hm.
  assert (Hg : grows w3 w4).
  { destruct q.
    - pose proof (Grows_bind _ (fun _ => ret tt) (Grows_ioctl QBUF b)
                    (fun _ => Grows_ret tt) w3) as Hg.
      unfold BufferMMAP._ioctl in Hq. now rewrite Hq in Hg.
    - unfold ret in Hq. injection Hq as <-. apply grows_refl. }
  now apply Hg.
Qed.

Lemma mapped_in_grows w w' s : grows w w' -> mapped_in w s -> mapped_in w' s.
Proof. intros (_ & Hl & _) (m & Hm & Hin). exists m. auto. Qed.

Lemma comprehension_grows {A B} (f : A -> M B) (l : list A) :
  (forall x, Grows (f x)) -> Grows (comprehension f l).
Proof.
  intros Hf. induction l as [| x xs IH]; cbn.
  - apply Grows_ret.
  - apply Grows_bind; [apply Hf | intros b].
    apply Grows_bind; [apply IH | intros bs]. apply Grows_ret.
Qed.

(** A comprehension that completes has run its element expression on every
    item, in order. *)
Lemma comprehension_Return {A B} (f : A -> M B) (P : A -> B -> Prop)
    (Q : World -> B -> Prop) :
  (forall x w b w', f x w = (Return b, w') -> P x b /\ Q w' b) ->
  (forall x w b, Q w b -> Q (snd (f x w)) b) ->
  forall l w bs w',
    comprehension f l w = (Return bs, w') ->
    Forall2 P l bs /\ Forall (Q w') bs.
Proof.
  intros Hf Hkeep. induction l as [| x xs IH]; intros w bs w'; cbn.
  - unfold ret. intros H; injection H as <- <-. split; constructor.
  - intros H. apply bind_inv_Return in H as (b & w1 & Hb & H).
    apply bind_inv_Return in H as (bs' & w2 & Hbs & H).
    unfold ret in H. injection H as <- <-.
    destruct (Hf _ _ _ _ Hb) as [HP HQ].
    destruct (IH _ _ _ Hbs) as [HPs HQs].
    split; constructor; auto.
    clear - Hkeep HQ Hbs. revert w1 bs' w2 Hbs HQ.
    induction xs as [| y ys IH]; intros w1 bs' w2; cbn.
    + unfold ret. intros H; now injection H as <- <-.
    + intros H HQ. apply bind_inv_Return in H as (c & w3 & Hc & H).
      apply bind_inv_Return in H as (cs & w4 & Hcs & H).
      unfold ret in H. injection H as <- <-.
      eapply IH; [exact Hcs |].
      specialize (Hkeep y w1 b HQ). now rewrite Hc in Hkeep.
Qed.

(** A comprehension stops at the first element that raises. *)
Lemma comprehension_raises_at {A B} (f : A -> M B) l1 x l2 w bs w1 e w' :
  comprehension f l1 w = (Return bs, w1) ->
  f x w1 = (Raise e, w') ->
  comprehension f (l1 ++ x :: l2) w = (Raise e, w').
Proof.
  revert w bs. induction l1 as [| y ys IH]; intros w bs; cbn.
  - unfold ret. intros H Hx. injection H as <- <-.
    now rewrite (bind_Raise _ _ _ _ _ Hx).
  - intros H Hx. apply bind_inv_Return in H as (b & w2 & Hb & H).
    apply bind_inv_Return in H as (bs' & w3 & Hbs & H).
    unfold ret in H. injection H as <- <-.
    rewrite (bind_Return _ _ _ _ _ Hb).
    now rewrite (bind_Raise _ _ _ _ _ (IH _ _ Hbs Hx)).
Qed.

Lemma range_prefix (k n : Z) :
  0 <= k < n -> exists rest, range n = range k ++ k :: rest.
Proof.
  intros H. unfold range.
  replace (Z.to_nat n) with (Z.to_nat k + S (Z.to_nat n - S (Z.to_nat k)))%nat
    by lia.
  rewrite seq_app, map_app. cbn.
  eexists. f_equal. f_equal. lia.
Qed.

Lemma length_range n : 0 <= n -> Z.of_nat (List.length (range n)) = n.
Proof. intros H. unfold range. rewrite length_map, length_seq. lia. Qed.

Lemma NoDup_range n : NoDup (range n).
Proof.
  unfold range. apply NoDup_map_NoDup_ForallPairs; [| apply seq_NoDup].
  intros a b _ _ H. now apply Nat2Z.inj.
Qed.

Lemma range_bounds n i : In i (range n) -> 0 <= i < n.
Proof.
  unfold range. rewrite in_map_iff. intros (j & <- & Hj).
  apply in_seq in Hj. lia.
Qed.

(** The request that [_create_buffers] sends for an MMAP pool. *)
Definition reqbufs_of (self : Buffers.t) : v4l2_requestbuffers :=
  mk_requestbuffers (u32 (Buffers.buffer_size self))
                    (u32 (Buffers.buffer_type self)) (Memory_value MMAP).

(** [_create_buffers] on an open device, for an MMAP pool: the REQBUFS
    ioctl, the test of the count, and the comprehension. *)
Lemma create_buffers_unfold (self : Buffers.t) (w : World) r k1 :
  Buffers.memory self = MMAP -> closed w = false ->
  k_ioctl REQBUFS (reqbufs_of self) (kern w) = (KOk r, k1) ->
  Buffers._create_buffers self w
  = if rb_count r =? 0
    then (Raise (IOError "Not enough buffer memory"),
          after_ioctl REQBUFS (reqbufs_of self) w)
    else comprehension (slot_init self) (range (rb_count r))
           (after_ioctl REQBUFS (reqbufs_of self) w).
Proof.
  intros Hm Hc Hk. unfold Buffers._create_buffers. rewrite Hm. cbn [Memory_neq Memory_value Z.eqb negb Pos.eqb].
  change (mk_requestbuffers _ _ _) with (reqbufs_of self).
  unfold Buffers._ioctl. unfold bind at 1. rewrite (ioctl_open _ _ _ Hc).
  unfold ioctl_answer, after_ioctl. rewrite Hk. cbn [fst snd].
  destruct (rb_count r =? 0); reflexivity.
Qed.

End Pool.

Section PoolClaims.

Context {KS : Kernel}.

Lemma ioctl_open_ok {T} (request : IOC T) (arg : T) (w : World) a k' :
  closed w = false ->
  k_ioctl request arg (kern w) = (KOk a, k') ->
  Device._ioctl request arg w = (Return a, after_ioctl request arg w).
Proof.
  intros Hc Hk. rewrite (ioctl_open _ _ _ Hc). unfold ioctl_answer.
  now rewrite Hk.
Qed.

(** A driver that never refuses to describe, map or queue a buffer. *)
Definition obliging : Prop :=
  (forall b k, exists b' k', k_ioctl QUERYBUF b k = (KOk b', k'))
  /\ (forall length offset k, exists k', k_mmap length offset k = (KOk tt, k'))
  /\ (forall b k, exists b' k', k_ioctl QBUF b k = (KOk b', k')).

Lemma slot_init_obliging index bt q w :
  obliging -> closed w = false ->
  exists s w', BufferMMAP.__init__ index bt q w = (Return s, w').
Proof.
  intros (Hquery & Hmap & Hqueue) Hc. unfold BufferMMAP.__init__.
  destruct (Hquery (BufferMMAP._v4l2_buffer index bt) (kern w)) as (b & k1 & Hb).
  unfold BufferMMAP._ioctl.
  rewrite (bind_Return _ _ _ _ _ (ioctl_open_ok _ _ _ _ _ Hc Hb)).
  set (w1 := after_ioctl _ _ w).
  assert (Hc1 : closed w1 = false) by exact Hc.
  unfold bind at 1. unfold fileno at 1. rewrite Hc1.
  unfold bind at 1. unfold mmap_mmap at 1. unfold bind at 1. cbn [emit kern].
  destruct (Hmap (buf_length b) (buf_offset b) (kern w1)) as (k2 & Hm).
  rewrite Hm. cbn [closed live next_map trace].
  set (w2 := mk_world k2 _ _ _ _).
  assert (Hc2 : closed w2 = false) by exact Hc.
  destruct q.
  - destruct (Hqueue b (kern w2)) as (b' & k3 & Hq).
    unfold bind at 1.
    rewrite (bind_Return _ _ _ _ _ (ioctl_open_ok _ _ _ _ _ Hc2 Hq)).
    unfold ret. eauto.
  - unfold bind, ret. eauto.
Qed.

Lemma comprehension_obliging (self : Buffers.t) (l : list Z) :
  obliging -> forall w, closed w = false ->
  exists slots w', comprehension (slot_init self) l w = (Return slots, w').
Proof.
  intros Hob. induction l as [| i l IH]; intros w Hc; cbn.
  - unfold ret. eauto.
  - destruct (slot_init_obliging i (Buffers.buffer_type self)
                (Buffers.buffer_queue self) w Hob Hc) as (s & w1 & Hs).
    unfold slot_init at 1. rewrite (bind_Return _ _ _ _ _ Hs).
    assert (Hc1 : closed w1 = false).
    { pose proof (slot_init_grows i (Buffers.buffer_type self)
                    (Buffers.buffer_queue self) w) as (Hcl & _).
      rewrite Hs in Hcl. cbn in Hcl. congruence. }
    destruct (IH w1 Hc1) as (slots & w2 & Hl).
    rewrite (bind_Return _ _ _ _ _ Hl). unfold ret. eauto.
Qed.

(** The slots of a pool that was built, seen from the world it was built
    in: the slot at position i has index i, its queue flag is the pool's,
    and it holds a live mapping. *)
Lemma created_slots (self : Buffers.t) (l : list Z) w slots w' :
  comprehension (slot_init self) l w = (Return slots, w') ->
  map BufferMMAP.index slots = l
  /\ Forall (fun s => BufferMMAP.queue s = Buffers.buffer_queue self) slots
  /\ Forall (mapped_in w') slots.
Proof.
  intros H.
  destruct (comprehension_Return (slot_init self)
              (fun i s => BufferMMAP.index s = i
                          /\ BufferMMAP.queue s = Buffers.buffer_queue self)
              mapped_in) with (l := l) (w := w) (bs := slots) (w' := w')
    as [HP HQ]; auto.
  - intros i w0 s w1 Hs. apply slot_init_Return in Hs. tauto.
  - intros i w0 s Hs. eapply mapped_in_grows; [| exact Hs].
    apply slot_init_grows.
  - repeat split; auto.
    + clear - HP. induction HP as [| i s l slots [Hi _] _ IH]; cbn; congruence.
    + clear - HP. induction HP as [| i s l slots [_ Hq] _ IH]; constructor; auto.
Qed.

(** C3: on an open device, when the kernel answers the REQBUFS of an MMAP
    pool with a count M: if M is 0, [_create_buffers] raises
    IOError("Not enough buffer memory") (the spec's AllocationError) right
    after that one ioctl, with nothing mapped; if M is at least 1, a pool
    that is built holds M slots, the slot at position i having index i (so
    the indices are distinct and lie in [0, M)), and with a driver that
    refuses no QUERYBUF, mmap or QBUF the pool is built. *)
Theorem C3_pool_holds_the_granted_slots
    (self : Buffers.t) (w : World) (r : v4l2_requestbuffers) (k1 : kstate) :
  Buffers.memory self = MMAP ->
  closed w = false ->
  k_ioctl REQBUFS (reqbufs_of self) (kern w) = (KOk r, k1) ->
  let M := rb_count r in
  (M = 0 ->
     Buffers._create_buffers self w
     = (Raise (IOError "Not enough buffer memory"),
        after_ioctl REQBUFS (reqbufs_of self) w)
     /\ live (after_ioctl REQBUFS (reqbufs_of self) w) = live w)
  /\
  (1 <= M ->
     (forall slots w',
        Buffers._create_buffers self w = (Return slots, w') ->
        map BufferMMAP.index slots = range M
        /\ Z.of_nat (List.length slots) = M
        /\ NoDup (map BufferMMAP.index slots)
        /\ Forall (fun s => 0 <= BufferMMAP.index s < M) slots
        /\ Forall (mapped_in w') slots)
     /\ (obliging ->
         exists slots w', Buffers._create_buffers self w = (Return slots, w'))).
Proof.
  intros Hm Hc Hk M.
  rewrite (create_buffers_unfold self w r k1 Hm Hc Hk). fold M. split.
  - intros ->. cbn. auto.
  - intros HM. replace (M =? 0) with false by (symmetry; apply Z.eqb_neq; lia).
    split.
    + intros slots w' H. apply created_slots in H as (Hidx & _ & Hmap).
      repeat split; auto.
      * rewrite <- (length_map BufferMMAP.index), Hidx.
        apply length_range. lia.
      * rewrite Hidx. apply NoDup_range.
      * apply Forall_forall. intros s Hs. apply range_bounds.
        rewrite <- Hidx. now apply in_map.
    + intros Hob. now apply comprehension_obliging.
Qed.

(** C1 (as the code has it): when the constructor of slot k raises, after
    the slots before it were built, [_create_buffers] and [Buffers.__init__]
    raise that same exception at once; they issue no unmap, and the k slots
    built before keep their mappings, which are still live in the world
    the exception leaves. *)
Theorem C1_failed_slot_aborts_and_unmaps_nothing
    (self : Buffers.t) (w : World) (r : v4l2_requestbuffers) (k1 : kstate)
    (k : Z) (slots : list BufferMMAP.t) (wk : World) (e : exn) (w' : World) :
  Buffers.memory self = MMAP ->
  closed w = false ->
  k_ioctl REQBUFS (reqbufs_of self) (kern w) = (KOk r, k1) ->
  0 <= k < rb_count r ->
  comprehension (slot_init self) (range k)
    (after_ioctl REQBUFS (reqbufs_of self) w) = (Return slots, wk) ->
  slot_init self k wk = (Raise e, w') ->
  Buffers._create_buffers self w = (Raise e, w')
  /\ Buffers.__init__ (Buffers.buffer_type self) (Buffers.buffer_size self)
       (Buffers.buffer_queue self) (Buffers.memory self) w = (Raise e, w')
  /\ unmaps (trace w') = unmaps (trace w)
  /\ Z.of_nat (List.length slots) = k
  /\ Forall (mapped_in w') slots
  /\ incl (live w) (live w').
Proof.
  intros Hm Hc Hk Hrange Hslots Hfail.
  assert (Hcreate : forall self', Buffers.memory self' = MMAP ->
            reqbufs_of self' = reqbufs_of self ->
            slot_init self' = slot_init self ->
            Buffers._create_buffers self' w = (Raise e, w')).
  { intros self' Hm' Hreq Hinit.
    rewrite (create_buffers_unfold self' w r k1 Hm' Hc); [| now rewrite Hreq].
    replace (rb_count r =? 0) with false by (symmetry; apply Z.eqb_neq; lia).
    destruct (range_prefix k (rb_count r) Hrange) as (rest & ->).
    rewrite Hreq, Hinit.
    eapply comprehension_raises_at; eassumption. }
  destruct (created_slots _ _ _ _ _ Hslots) as (Hidx & _ & Hmapped).
  assert (Hg1 : grows w (after_ioctl REQBUFS (reqbufs_of self) w)).
  { repeat split; cbn; auto using incl_refl, unmaps_snoc. }
  assert (Hg2 : grows (after_ioctl REQBUFS (reqbufs_of self) w) wk).
  { pose proof (comprehension_grows (slot_init self) (range k)
                  (fun i => slot_init_grows i _ _)
                  (after_ioctl REQBUFS (reqbufs_of self) w)) as H.
    now rewrite Hslots in H. }
  assert (Hg3 : grows wk w').
  { pose proof (slot_init_grows k (Buffers.buffer_type self)
                  (Buffers.buffer_queue self) wk) as H.
    unfold slot_init in Hfail. now rewrite Hfail in H. }
  pose proof (grows_trans _ _ _ Hg1 (grows_trans _ _ _ Hg2 Hg3))
    as (_ & Hlive & Hun).
  repeat split; auto.
  - unfold Buffers.__init__.
    erewrite bind_Raise; [reflexivity |]. apply Hcreate; auto.
  - rewrite <- (length_map BufferMMAP.index), Hidx. apply length_range. lia.
  - eapply Forall_impl; [| exact Hmapped].
    intros s. now apply mapped_in_grows.
Qed.

(** The pool's invariant that [raw_read] relies on: every slot was given
    the pool's own queue flag. *)
Definition queue_flags_agree (self : Buffers.t) : Prop :=
  match Buffers.buffers self with
  | Some slots =>
      Forall (fun s => BufferMMAP.queue s = Buffers.buffer_queue self) slots
  | None => True
  end.

Lemma init_queue_flags_agree buffer_type buffer_size buffer_queue memory w
    self w' :
  Buffers.__init__ buffer_type buffer_size buffer_queue memory w
  = (Return self, w') ->
  queue_flags_agree self /\ Buffers.buffer_queue self = buffer_queue.
Proof.
  unfold Buffers.__init__. intros H.
  apply bind_inv_Return in H as (slots & w1 & Hs & H).
  unfold ret in H. injection H as <- <-.
  unfold queue_flags_agree. cbn. split; [| reflexivity].
  unfold Buffers._create_buffers in Hs. cbn in Hs.
  destruct (Memory_neq memory MMAP); [discriminate |].
  apply bind_inv_Return in Hs as (r & w2 & _ & Hs).
  destruct (rb_count r =? 0); [discriminate |].
  apply (created_slots (Buffers.mk 0 buffer_size buffer_type buffer_queue
                          memory None)) in Hs.
  tauto.
Qed.

(** C2: a read from a pool in auto-queue mode, on an open device, when the
    DQBUF ioctl succeeds and reports a slot of the pool that is mapped.
    The calls that leave the process are, in this order and no others: one
    DQBUF; the copy of the first [bytesused] bytes of the reported slot's
    mapping; one QBUF with the structure DQBUF filled in, hence for the
    index it reported.  The bytes returned are those the mapping held
    before the QBUF was issued. *)
Theorem C2_auto_queue_read_copies_then_requeues
    (self : Buffers.t) (w : World) (slots : list BufferMMAP.t)
    (s0 s : BufferMMAP.t) (b : v4l2_buffer) (k1 : kstate) (m : mapping) :
  closed w = false ->
  Buffers.buffer_queue self = true ->
  queue_flags_agree self ->
  Buffers.buffers self = Some slots ->
  list_getitem slots 0 = Some s0 ->
  let request :=
    BufferMMAP._v4l2_buffer (BufferMMAP.index s0) (BufferMMAP.buffer_type s0) in
  k_ioctl DQBUF request (kern w) = (KOk b, k1) ->
  list_getitem slots (buf_index b) = Some s ->
  BufferMMAP.mmap s = Some m ->
  In m (live w) ->
  let copied := slice_to (mmap_bytes k1 m) (buf_bytesused b) in
  Buffers.raw_read self w
  = (match fst (k_ioctl QBUF b k1) with
     | KOk _ => Return copied
     | KErr errno => Raise (OSError errno)
     end,
     mk_world (snd (k_ioctl QBUF b k1)) false (live w) (next_map w)
       (trace w ++ [EvIoctl DQBUF request;
                    EvCopy m (buf_bytesused b);
                    EvIoctl QBUF b]))
  /\ (0 <= buf_bytesused b ->
      copied = firstn (Z.to_nat (buf_bytesused b)) (mmap_bytes k1 m)).
Proof.
  intros Hc Hq Hagree Hslots Hs0 request Hk Hs Hm Hlive copied. split.
  2:{ intros Hn. unfold copied, slice_to.
      now replace (0 <=? buf_bytesused b) with true
        by (symmetry; apply Z.leb_le; lia). }
  unfold queue_flags_agree in Hagree. rewrite Hslots in Hagree.
  assert (Hsq : BufferMMAP.queue s = true).
  { rewrite <- Hq. rewrite Forall_forall in Hagree. apply Hagree.
    unfold list_getitem in Hs.
    destruct (0 <=? buf_index b); [now apply nth_error_In in Hs |].
    destruct (0 <=? _); [now apply nth_error_In in Hs | discriminate]. }
  unfold Buffers.raw_read. rewrite Hslots, Hs0. fold request.
  unfold Buffers._ioctl.
  rewrite (bind_Return _ _ _ _ _ (ioctl_open_ok _ _ _ _ _ Hc Hk)).
  rewrite Hs. unfold BufferMMAP.raw_read. rewrite Hm, Hsq.
  unfold mmap_slice_to, BufferMMAP._ioctl, Device._ioctl, fcntl_ioctl,
    fcntl_ioctl_fd, fileno, bind, emit, ret, after_ioctl. cbn.
  rewrite Hk. cbn.
  replace (existsb (mapping_eqb m) (live w)) with true.
  2:{ symmetry. apply existsb_exists. exists m. split; [assumption |].
      unfold mapping_eqb. apply Nat.eqb_refl. }
  rewrite Hc. cbn.
  rewrite <- !app_assoc. cbn.
  destruct (k_ioctl QBUF b k1) as [[b' | errno] k2]; reflexivity.
Qed.

End PoolClaims.

(** ** The pool claims on the scripted driver *)

(** The scripted driver with its refusals switched off. *)
Definition no_refusal (d : driver) : driver :=
  mk_driver (d_grant d) None None (d_ready d) (d_parm d) (d_formats d)
            (d_controls d) (d_queried d) (d_frame d).

Definition steady : Kernel :=
  {| kstate := driver;
     k_ioctl := fun T req arg d => driver_ioctl req arg (no_refusal d);
     k_mmap := fun length offset d => driver_mmap length offset (no_refusal d);
     k_mem := driver_mem |}.

Lemma steady_obliging : obliging (KS := steady).
Proof.
  repeat split.
  - intros b k. cbn. eauto.
  - intros length offset k. cbn. eauto.
  - intros b k. cbn. eauto.
Qed.

Definition pool_of (n : Z) : Buffers.t :=
  Buffers.mk 0 n VIDEO_CAPTURE true MMAP None.

Lemma C3_witness :
  exists slots w',
    Buffers._create_buffers (KS := steady) (pool_of 2)
      (mk_world (KS := steady) driver0 false [] 0 []) = (Return slots, w')
    /\ map BufferMMAP.index slots = [0; 1].
Proof.
  destruct (C3_pool_holds_the_granted_slots (KS := steady) (pool_of 2)
              (mk_world (KS := steady) driver0 false [] 0 [])
              _ _ eq_refl eq_refl eq_refl) as [_ H].
  destruct (H ltac:(cbn; lia)) as [Hshape Hbuilt].
  destruct (Hbuilt steady_obliging) as (slots & w' & Hs).
  exists slots, w'. split; [exact Hs |].
  now destruct (Hshape _ _ Hs) as (Hidx & _).
Defined.

(** A driver that grants four buffers and refuses to describe the second. *)
Definition refusing_second : driver :=
  mk_driver 4 (Some 1) None [] (mk_fract 0 0) 3 2 0 0.

(** C1, refuted as stated: the driver refuses QUERYBUF for index 1; the
    constructor raises that error, the mapping of slot 0 is still live
    afterwards, and no unmap was issued. *)
Lemma C1_counterexample :
  let out := Buffers.__init__ (KS := scripted) VIDEO_CAPTURE 3 true MMAP
               (world0 refusing_second) in
  fst out = Raise (OSError EINVAL)
  /\ live (snd out) = [mk_mapping 0 4096 0]
  /\ unmaps (trace (snd out)) = [].
Proof. cbv zeta. repeat split. Qed.

Lemma C1_witness :
  Buffers.__init__ (KS := scripted) VIDEO_CAPTURE 3 true MMAP
    (world0 refusing_second)
  = (Raise (OSError EINVAL),
     snd (Buffers.__init__ (KS := scripted) VIDEO_CAPTURE 3 true MMAP
            (world0 refusing_second)))
  /\ Forall (mapped_in
               (snd (Buffers.__init__ (KS := scripted) VIDEO_CAPTURE 3 true
                       MMAP (world0 refusing_second))))
            [BufferMMAP.mk 0 0 VIDEO_CAPTURE true
               (Some (mk_mapping 0 4096 0)) 4096].
Proof.
  edestruct (C1_failed_slot_aborts_and_unmaps_nothing (KS := scripted)
               (pool_of 3) (world0 refusing_second)) with (k := 1)
    as (_ & H & _ & _ & Hmapped & _).
  - reflexivity.
  - reflexivity.
  - vm_compute. reflexivity.
  - cbn. lia.
  - vm_compute. reflexivity.
  - vm_compute. reflexivity.
  - split; [exact H | exact Hmapped].
Defined.

(** An open pool of two slots on a driver with one frame ready in slot 1,
    three bytes long. *)
Definition frame_ready : driver :=
  mk_driver 4 None None [(1, 3)] (mk_fract 0 0) 3 2 0 0.

Lemma C2_witness :
  let built := Buffers.__init__ (KS := scripted) VIDEO_CAPTURE 2 true MMAP
                 (world0 frame_ready) in
  exists self,
    fst built = Return self
    /\ fst (Buffers.raw_read self (snd built))
       = Return [Byte.x01; Byte.x02; Byte.x03]
    /\ skipn 7 (trace (snd (Buffers.raw_read self (snd built))))
       = [EvIoctl DQBUF (mk_buffer 0 1 0 1 0 0);
          EvCopy (mk_mapping 1 4096 4096) 3;
          EvIoctl QBUF (mk_buffer 1 1 3 1 4096 4096)]
    /\ mmap_bytes (KS := scripted)
         (kern (snd (Buffers.raw_read self (snd built))))
         (mk_mapping 1 4096 4096)
       = [Byte.xa1; Byte.xa2; Byte.xa3; Byte.xa4].
Proof.
  cbv zeta.
  destruct (Buffers.__init__ (KS := scripted) VIDEO_CAPTURE 2 true MMAP
              (world0 frame_ready)) as [o w] eqn:Hbuilt.
  vm_compute in Hbuilt. injection Hbuilt as <- <-.
  eexists. split; [reflexivity |].
  match goal with
  | |- context [Buffers.raw_read ?self ?w] =>
      edestruct (C2_auto_queue_read_copies_then_requeues (KS := scripted)
                   self w) as [H _]
  end.
  - reflexivity.
  - reflexivity.
  - cbv. repeat constructor.
  - reflexivity.
  - reflexivity.
  - vm_compute. reflexivity.
  - reflexivity.
  - reflexivity.
  - cbn. auto.
  - rewrite H. vm_compute. repeat split.
Defined.

(** ** Nested with-blocks *)

Lemma block_nested_ind (P : block -> Prop) :
  (forall body, Forall P body -> P (With body)) -> forall b, P b.
Proof.
  intros H. fix IH 1. intros [body]. apply H.
  induction body as [| b bs IHbs]; constructor; auto.
Qed.

Lemma depth_app (a b : list cm_call) : depth (a ++ b) = depth a + depth b.
Proof.
  induction a as [| [|] a IH]; cbn; rewrite ?IH; lia.
Qed.

(** No prefix closes more blocks than it opened. *)
Definition balanced_prefixes (cs : list cm_call) : Prop :=
  forall pre post, cs = pre ++ post -> 0 <= depth pre.

Lemma balanced_prefixes_app (a b : list cm_call) :
  balanced_prefixes a -> depth a = 0 -> balanced_prefixes b ->
  balanced_prefixes (a ++ b).
Proof.
  intros Ha Hd Hb pre post H.
  apply app_eq_app in H as (l & [[-> ->] | [-> ->]]).
  - eapply Ha. reflexivity.
  - rewrite depth_app, Hd. cbn. eapply Hb. reflexivity.
Qed.

Lemma calls_of_balanced (b : block) :
  balanced_prefixes (calls_of b) /\ depth (calls_of b) = 0.
Proof.
  induction b as [body IH] using block_nested_ind. cbn [calls_of].
  assert (Hbody : balanced_prefixes (flat_map calls_of body)
                  /\ depth (flat_map calls_of body) = 0).
  { induction IH as [| b bs [Hb Hd] _ [Hbs Hds]]; cbn.
    - split; [| reflexivity]. intros pre post H.
      symmetry in H. apply app_eq_nil in H as [-> _]. cbn. lia.
    - split; [now apply balanced_prefixes_app |].
      rewrite depth_app. lia. }
  destruct Hbody as [Hbal Hd]. split.
  - intros pre post H. destruct pre as [| c pre]; [cbn; lia |].
    cbn in H. injection H as <- H. cbn.
    apply app_eq_app in H as (l & [[H _] | [-> H]]).
    + specialize (Hbal pre l H). lia.
    + rewrite depth_app, Hd. cbn.
      destruct l as [| c l]; [cbn; lia |].
      cbn in H. injection H as <- H. symmetry in H.
      apply app_eq_nil in H as [-> _]. cbn. lia.
  - cbn. rewrite depth_app, Hd. cbn. lia.
Qed.

(** Inside a block, at least that block is open. *)
Lemma inside_block_depth (b : block) pre post :
  calls_of b = pre ++ post -> pre <> [] -> post <> [] -> 1 <= depth pre.
Proof.
  destruct b as [body]. cbn [calls_of]. intros H Hpre Hpost.
  destruct pre as [| c pre]; [now elim Hpre |].
  cbn in H. injection H as <- H. cbn.
  assert (Hbal : balanced_prefixes (flat_map calls_of body)).
  { clear. induction body as [| b bs IH]; cbn.
    - intros pre post H. symmetry in H.
      apply app_eq_nil in H as [-> _]. cbn. lia.
    - destruct (calls_of_balanced b) as [Hb Hd].
      now apply balanced_prefixes_app. }
  apply app_eq_app in H as (l & [[H _] | [-> H]]).
  - specialize (Hbal pre l H). lia.
  - destruct l as [| c l].
    + rewrite app_nil_r.
      specialize (Hbal (flat_map calls_of body) [] (eq_sym (app_nil_r _))). lia.
    + cbn in H. injection H as <- H. symmetry in H.
      apply app_eq_nil in H as [_ ->]. now elim Hpost.
Qed.

Section Reentrant.

Context {KS : Kernel} {T : Type} {CM : ContextManager T}.

(** What the three classes have in common: a nesting counter that
    [__enter__] increments and [__exit__] decrements, the latter calling
    [close] when the counter is back to zero. *)
Variable level : T -> Z.
Variable with_level : Z -> T -> T.
Variable close : T -> M T.

Hypothesis level_with_level : forall z self, level (with_level z self) = z.
Hypothesis with_level_twice :
  forall z z' self, with_level z (with_level z' self) = with_level z self.
Hypothesis with_level_same : forall self, with_level (level self) self = self.
Hypothesis enter_spec :
  forall self w, cm_enter self w = (Return (with_level (level self + 1) self), w).
Hypothesis exit_spec :
  forall self w,
    cm_exit self w
    = if level self - 1 =? 0 then close (with_level (level self - 1) self) w
      else (Return (with_level (level self - 1) self), w).

Lemma run_calls_app (a b : list cm_call) (self : T) (w : World) :
  run_calls (a ++ b) self w = bind (run_calls a self) (run_calls b) w.
Proof.
  revert self w. induction a as [| c a IH]; intros self w; cbn [app run_calls].
  - reflexivity.
  - rewrite bind_assoc. apply bind_ext. intros self' w'. apply IH.
Qed.

(** Calls that never bring the counter back to zero touch nothing but the
    counter. *)
Lemma run_calls_inside (cs : list cm_call) :
  forall self w,
    (forall pre post, cs = pre ++ post -> pre <> [] ->
                      level self + depth pre <> 0) ->
    run_calls cs self w
    = (Return (with_level (level self + depth cs) self), w).
Proof.
  induction cs as [| c cs IH]; intros self w Hpos; cbn [run_calls depth].
  - unfold ret. now rewrite Z.add_0_r, with_level_same.
  - assert (Hc : run_call c self w
                 = (Return (with_level (level self + depth [c]) self), w)).
    { specialize (Hpos [c] cs eq_refl ltac:(discriminate)).
      destruct c; cbn in *.
      - apply enter_spec.
      - rewrite exit_spec.
        replace (level self - 1 =? 0) with false
          by (symmetry; apply Z.eqb_neq; lia).
        reflexivity. }
    rewrite (bind_Return _ _ _ _ _ Hc).
    rewrite IH.
    + rewrite level_with_level, with_level_twice. do 2 f_equal.
      f_equal. destruct c; cbn; lia.
    + intros pre post -> Hpre. rewrite level_with_level.
      specialize (Hpos (c :: pre) post eq_refl ltac:(discriminate)).
      destruct c; cbn in *; lia.
Qed.

Lemma run_with_calls (b : block) :
  forall self w, run_with b self w = run_calls (calls_of b) self w.
Proof.
  induction b as [body IH] using block_nested_ind. intros self w.
  cbn [run_with calls_of run_calls run_call].
  apply bind_ext. clear self w. intros self w.
  rewrite run_calls_app.
  assert (Hbody : forall self w,
    (fix run_body (bs : list block) (self : T) : M T :=
       match bs with
       | [] => ret self
       | b' :: bs' => self <- run_with b' self ;; run_body bs' self
       end) body self w = run_calls (flat_map calls_of body) self w).
  { clear self w.
    induction IH as [| b bs Hb _ IHbs]; intros self w; cbn [flat_map].
    - reflexivity.
    - rewrite run_calls_app.
      etransitivity; [apply bind_ext; intros; apply IHbs |].
      apply bind_ext_l, Hb. }
  etransitivity; [apply bind_ext_l, Hbody |].
  apply bind_ext. intros self' w'.
  cbn [run_calls run_call]. now rewrite bind_ret_r.
Qed.

(** Nested with-blocks over an object whose counter is at zero: before the
    last call, the outermost [__exit__], only the counter has changed,
    whatever the point reached; the block as a whole does what one call of
    [close] does. *)
Lemma nested_blocks_close_at_the_end (b : block) (self : T) (w : World) :
  level self = 0 ->
  (forall pre post, calls_of b = pre ++ post -> post <> [] ->
     run_calls pre self w = (Return (with_level (depth pre) self), w))
  /\ run_with b self w = close self w.
Proof.
  intros Hl.
  assert (Hin : forall pre post, calls_of b = pre ++ post -> post <> [] ->
            run_calls pre self w = (Return (with_level (depth pre) self), w)).
  { intros pre post H Hpost.
    rewrite run_calls_inside; [now rewrite Hl |].
    intros p q -> Hp. rewrite Hl. cbn.
    rewrite <- app_assoc in H.
    pose proof (inside_block_depth b p (q ++ post) H Hp) as Hd.
    assert (q ++ post <> []) by (destruct q; [assumption | discriminate]).
    specialize (Hd H0). lia. }
  split; [exact Hin |].
  rewrite run_with_calls.
  destruct b as [body]. cbn [calls_of].
  change (Enter :: flat_map calls_of body ++ [Exit])
    with ((Enter :: flat_map calls_of body) ++ [Exit]).
  rewrite run_calls_app.
  rewrite (bind_Return _ _ _ _ _
             (Hin (Enter :: flat_map calls_of body) [Exit] eq_refl
                  ltac:(discriminate))).
  cbn [run_calls run_call]. unfold bind.
  rewrite exit_spec, level_with_level.
  destruct (calls_of_balanced (With body)) as [_ Hd]. cbn in Hd.
  rewrite depth_app in Hd. cbn in Hd.
  replace (depth (Enter :: flat_map calls_of body)) with 1 by (cbn; lia).
  cbn [Z.sub Z.eqb Z.add Z.opp Z.pos_sub]. rewrite with_level_twice.
  rewrite <- Hl, with_level_same.
  destruct (close self w) as [[self' | e |] w']; reflexivity.
Qed.

End Reentrant.

(** The three classes follow the protocol. *)

Definition Buffers_with_level (z : Z) (self : Buffers.t) : Buffers.t :=
  Buffers.mk z (Buffers.buffer_size self) (Buffers.buffer_type self)
    (Buffers.buffer_queue self) (Buffers.memory self) (Buffers.buffers self).

Definition VideoStream_with_level (z : Z) (self : VideoStream.t)
    : VideoStream.t :=
  VideoStream.mk z (VideoStream.buffers self).

(** The mappings that the slots of a pool hold. *)
Definition mappings_of (slots : list BufferMMAP.t) : list mapping :=
  flat_map (fun s => match BufferMMAP.mmap s with
                     | Some m => [m]
                     | None => []
                     end) slots.

Section ClosingOnce.

Context {KS : Kernel}.

Lemma Device_close_open (self : Device.t) (w : World) :
  closed w = false ->
  Device.close self w
  = (Return self,
     mk_world (kern w) true (live w) (next_map w) (trace w ++ [EvFileClose])).
Proof.
  intros Hc. unfold Device.close, Device.is_closed, file_close, bind, emit, ret.
  now rewrite Hc.
Qed.

Lemma slot_close_trace (s : BufferMMAP.t) (w : World) :
  exists s' w',
    BufferMMAP.close s w = (Return s', w')
    /\ trace w' = trace w ++ map EvMunmap (mappings_of [s])
    /\ BufferMMAP.mmap s' = None.
Proof.
  unfold BufferMMAP.close, mappings_of. cbn [flat_map].
  destruct (BufferMMAP.mmap s) as [m |] eqn:Hm.
  - unfold mmap_close, bind, emit, ret. cbn. do 2 eexists.
    split; [reflexivity |]. cbn. auto.
  - unfold ret. exists s, w. cbn. now rewrite app_nil_r.
Qed.

Lemma close_all_trace (slots : list BufferMMAP.t) (w : World) :
  exists slots' w',
    Buffers.close_all slots w = (Return slots', w')
    /\ trace w' = trace w ++ map EvMunmap (mappings_of slots)
    /\ Forall (fun s => BufferMMAP.mmap s = None) slots'.
Proof.
  revert w. induction slots as [| s slots IH]; intros w.
  - cbn. unfold ret. exists [], w. now rewrite app_nil_r.
  - cbn [Buffers.close_all].
    destruct (slot_close_trace s w) as (s' & w1 & Hs & Ht1 & Hn1).
    rewrite (bind_Return _ _ _ _ _ Hs).
    destruct (IH w1) as (slots' & w2 & Hss & Ht2 & Hn2).
    rewrite (bind_Return _ _ _ _ _ Hss).
    unfold ret. do 2 eexists. split; [reflexivity |]. split.
    + rewrite Ht2, Ht1. unfold mappings_of. cbn [flat_map].
      rewrite !map_app. cbn [map]. now rewrite app_nil_r, <- app_assoc.
    + constructor; auto.
Qed.

Lemma Buffers_close_trace (self : Buffers.t) (w : World) slots :
  Buffers.buffers self = Some slots ->
  trace (snd (Buffers.close self w))
  = trace w ++ map EvMunmap (mappings_of slots).
Proof.
  intros Hs. unfold Buffers.close. rewrite Hs.
  destruct slots as [| s slots].
  - cbn. now rewrite app_nil_r.
  - destruct (close_all_trace (s :: slots) w) as (slots' & w' & Hc & Ht & _).
    rewrite (bind_Return _ _ _ _ _ Hc). exact Ht.
Qed.

(** C10: for every nesting of with-blocks over one Device, Buffers or
    VideoStream object whose counter starts at zero: up to any point
    before the last call, the outermost [__exit__], the calls have changed
    the counter and nothing else (the world is the same, so nothing was
    closed at an inner exit); the nesting as a whole does what a single
    call of [close] does.  On an open device that is one closing of the
    file; on a pool it is one unmap for each mapping its slots hold. *)
Theorem C10_nested_with_blocks_close_once_at_the_outermost_exit (b : block) :
  (forall (self : Device.t) (w : World),
     Device._context_level self = 0 ->
     (forall pre post, calls_of b = pre ++ post -> post <> [] ->
        run_calls pre self w = (Return (Device.mk (depth pre)), w))
     /\ run_with b self w = Device.close self w
     /\ (closed w = false ->
         trace (snd (run_with b self w)) = trace w ++ [EvFileClose]
         /\ closed (snd (run_with b self w)) = true))
  /\
  (forall (self : Buffers.t) (w : World),
     Buffers._context_level self = 0 ->
     (forall pre post, calls_of b = pre ++ post -> post <> [] ->
        run_calls pre self w
        = (Return (Buffers_with_level (depth pre) self), w))
     /\ run_with b self w = Buffers.close self w
     /\ (forall slots, Buffers.buffers self = Some slots ->
         trace (snd (run_with b self w))
         = trace w ++ map EvMunmap (mappings_of slots)))
  /\
  (forall (self : VideoStream.t) (w : World),
     VideoStream._context_level self = 0 ->
     (forall pre post, calls_of b = pre ++ post -> post <> [] ->
        run_calls pre self w
        = (Return (VideoStream_with_level (depth pre) self), w))
     /\ run_with b self w = VideoStream.close self w
     /\ (forall slots,
         Buffers.buffers (VideoStream.buffers self) = Some slots ->
         trace (snd (run_with b self w))
         = trace w ++ map EvMunmap (mappings_of slots))).
Proof.
  split; [| split].
  - intros self w Hl.
    destruct (nested_blocks_close_at_the_end (CM := Device_cm)
                Device._context_level (fun z _ => Device.mk z) Device.close)
      with (b := b) (self := self) (w := w) as [Hin Hall];
      [ reflexivity | reflexivity | now intros [] | reflexivity
      | intros s0 w0; cbn; unfold Device.__exit__; cbn;
        now destruct (_ =? 0)
      | assumption | ].
    split; [exact Hin |]. split; [exact Hall |].
    intros Hc. rewrite Hall, (Device_close_open _ _ Hc). auto.
  - intros self w Hl.
    destruct (nested_blocks_close_at_the_end (CM := Buffers_cm)
                Buffers._context_level Buffers_with_level Buffers.close)
      with (b := b) (self := self) (w := w) as [Hin Hall];
      [ reflexivity | reflexivity | now intros [] | reflexivity
      | intros s0 w0; cbn; unfold Buffers.__exit__; cbn;
        now destruct (_ =? 0)
      | assumption | ].
    split; [exact Hin |]. split; [exact Hall |].
    intros slots Hs. rewrite Hall. now apply Buffers_close_trace.
  - intros self w Hl.
    destruct (nested_blocks_close_at_the_end (CM := VideoStream_cm)
                VideoStream._context_level VideoStream_with_level
                VideoStream.close)
      with (b := b) (self := self) (w := w) as [Hin Hall];
      [ reflexivity | reflexivity | now intros [] | reflexivity
      | intros s0 w0; cbn; unfold VideoStream.__exit__; cbn;
        now destruct (_ =? 0)
      | assumption | ].
    split; [exact Hin |]. split; [exact Hall |].
    intros slots Hs. rewrite Hall. unfold VideoStream.close.
    pose proof (Buffers_close_trace (VideoStream.buffers self) w slots Hs)
      as Ht.
    unfold bind, ret.
    destruct (Buffers.close (VideoStream.buffers self) w)
      as [[bs | e |] w']; exact Ht.
Qed.

End ClosingOnce.

(** The nesting [with d: (with d: (with d: pass); with d: pass)] on an
    open device: the file is closed at the sixth and last call, not at the
    inner exits. *)
Example nested_device_blocks :
  let b := With [With [With []; With []]] in
  calls_of b = [Enter; Enter; Enter; Exit; Enter; Exit; Exit; Exit]
  /\ snd (run_calls (KS := scripted) (firstn 7 (calls_of b)) (Device.mk 0)
            (world0 driver0)) = world0 driver0
  /\ trace (snd (run_with (KS := scripted) b (Device.mk 0) (world0 driver0)))
     = [EvFileClose].
Proof. cbv zeta. repeat split. Qed.

(** ** The enumeration loops *)

(** An event that is an ioctl with the given request. *)
Definition is_request {T} (request : IOC T) (e : event) : Prop :=
  exists arg, e = EvIoctl request arg.

Section EnumerationClaims.

Context {KS : Kernel}.

Variable is_PixelFormat : Z -> bool.

(** What a loop did: the events it added to the trace. *)
Definition added (w w' : World) (evs : list event) : Prop :=
  trace w' = trace w ++ evs.

Lemma try_ioctl_fd {T} (request : IOC T) (arg : T) (w : World) :
  try_OSError (fcntl_ioctl_fd request arg) w
  = (match fst (k_ioctl request arg (kern w)) with
     | KOk arg' => Return (inl arg')
     | KErr errno => Return (inr (OSError errno))
     end, after_ioctl request arg w).
Proof.
  unfold try_OSError, fcntl_ioctl_fd, bind, emit, after_ioctl. cbn.
  destruct (k_ioctl request arg (kern w)) as [[a | errno] k']; reflexivity.
Qed.

Lemma try_ioctl_open {T} (request : IOC T) (arg : T) (w : World) :
  closed w = false ->
  try_OSError (Device._ioctl request arg) w
  = (match fst (k_ioctl request arg (kern w)) with
     | KOk arg' => Return (inl arg')
     | KErr errno => Return (inr (OSError errno))
     end, after_ioctl request arg w).
Proof.
  intros Hc. unfold try_OSError. rewrite (ioctl_open _ _ _ Hc).
  unfold ioctl_answer.
  destruct (fst (k_ioctl request arg (kern w))); reflexivity.
Qed.

Lemma added_refl w : added w w [].
Proof. unfold added. now rewrite app_nil_r. Qed.

Lemma added_step {T} (request : IOC T) (arg : T) w w' evs :
  added (after_ioctl request arg w) w' evs ->
  added w w' (EvIoctl request arg :: evs).
Proof. unfold added. cbn. intros ->. now rewrite <- app_assoc. Qed.

(** The outcome of a loop that ended, and not because of EINVAL. *)
Definition ends_well {A} (o : outcome A) : Prop :=
  o <> OutOfFuel /\ o <> Raise (OSError EINVAL).

Lemma errno_is_EINVAL errno : errno_is (OSError errno) EINVAL = false ->
  errno <> EINVAL.
Proof. cbn. intros H. now apply Z.eqb_neq. Qed.

Lemma ends_well_Return {A} (a : A) : ends_well (Return a).
Proof. split; discriminate. Qed.

Lemma ends_well_Raise {A} e : e <> OSError EINVAL -> ends_well (@Raise A e).
Proof. intros H. split; [discriminate | congruence]. Qed.

(** One request was made, and the loop ended there. *)
Lemma ended_after_one {T A} (request : IOC T) (arg : T) (w : World)
    (o : outcome A) (n : nat) :
  ends_well o ->
  exists evs,
    added w (snd (o, after_ioctl request arg w)) evs
    /\ (List.length evs <= S n)%nat
    /\ Forall (is_request request) evs
    /\ ends_well (fst (o, after_ioctl request arg w)).
Proof.
  intros Ho. exists [EvIoctl request arg].
  split; [apply added_step, added_refl |].
  split; [cbn; lia |].
  split; [| exact Ho].
  constructor; [now exists arg | constructor].
Qed.

(** One request was made, and the rest of the loop kept within bounds. *)
Lemma went_on_after_one {T A} (request : IOC T) (arg : T) (w : World)
    (m : outcome A * World) (n : nat) :
  (exists evs,
     added (after_ioctl request arg w) (snd m) evs
     /\ (List.length evs <= n)%nat
     /\ Forall (is_request request) evs
     /\ ends_well (fst m)) ->
  exists evs,
    added w (snd m) evs
    /\ (List.length evs <= S n)%nat
    /\ Forall (is_request request) evs
    /\ ends_well (fst m).
Proof.
  intros (evs & Hadd & Hlen & Hall & Hend).
  exists (EvIoctl request arg :: evs).
  split; [now apply added_step |].
  split; [cbn; lia |].
  split; [| exact Hend].
  constructor; [now exists arg | assumption].
Qed.

(** One turn of the format loop: the request, then the end of the loop
    on EINVAL, the error on any other errno, the next turn otherwise. *)
Lemma enum_fmt_loop_step stream_type index rest fmt formats pixel_formats w :
  let fmt' := mk_fmtdesc (u32 index) (fd_type fmt) (fd_flags fmt)
                (fd_description fmt) (fd_pixelformat fmt) in
  let w1 := after_ioctl ENUM_FMT fmt' w in
  enum_fmt_loop is_PixelFormat stream_type (index :: rest) fmt formats
    pixel_formats w
  = match fst (k_ioctl ENUM_FMT fmt' (kern w)) with
    | KErr errno =>
        if errno =? EINVAL then (Return (fmt', formats, pixel_formats), w1)
        else (Raise (OSError errno), w1)
    | KOk fmt1 =>
        if is_PixelFormat (fd_pixelformat fmt1)
        then enum_fmt_loop is_PixelFormat stream_type rest fmt1
               (formats ++ [mk_ImageFormat stream_type (fd_description fmt1)
                              (fd_flags fmt1) (fd_pixelformat fmt1)])
               (set_add (fd_pixelformat fmt1) pixel_formats) w1
        else enum_fmt_loop is_PixelFormat stream_type rest fmt1 formats
               pixel_formats w1
    end.
Proof.
  intros fmt' w1. cbn [enum_fmt_loop]. fold fmt'.
  unfold bind at 1. rewrite try_ioctl_fd. fold w1.
  destruct (fst (k_ioctl ENUM_FMT fmt' (kern w))) as [fmt1 | errno].
  - destruct (is_PixelFormat (fd_pixelformat fmt1)); reflexivity.
  - cbn. destruct (errno =? EINVAL); reflexivity.
Qed.

(** The format loop issues at most one ENUM_FMT per index and always
    ends. *)
Lemma enum_fmt_loop_bounded stream_type indices :
  forall fmt formats pixel_formats w,
  exists evs,
    added w (snd (enum_fmt_loop is_PixelFormat stream_type indices fmt formats
                    pixel_formats w)) evs
    /\ (List.length evs <= List.length indices)%nat
    /\ Forall (is_request ENUM_FMT) evs
    /\ ends_well (fst (enum_fmt_loop is_PixelFormat stream_type indices fmt
                         formats pixel_formats w)).
Proof.
  induction indices as [| index rest IH]; intros fmt formats pixel_formats w.
  - exists []. cbn. repeat split; auto using added_refl; discriminate.
  - rewrite enum_fmt_loop_step. cbv zeta. cbn [List.length].
    set (fmt' := mk_fmtdesc (u32 index) _ _ _ _).
    destruct (fst (k_ioctl ENUM_FMT fmt' (kern w))) as [fmt1 | errno].
    + apply (went_on_after_one ENUM_FMT fmt').
      destruct (is_PixelFormat (fd_pixelformat fmt1)); apply IH.
    + destruct (errno =? EINVAL) eqn:He.
      * apply ended_after_one, ends_well_Return.
      * apply ended_after_one, ends_well_Raise.
        apply Z.eqb_neq in He. congruence.
Qed.

(** What the fps computations of [get_frame_intervals] can raise is never
    an OSError. *)
Lemma truediv_not_OSError a b errno :
  truediv_int_int a b <> Raise (OSError errno).
Proof.
  unfold truediv_int_int. destruct (b =? 0); [discriminate |].
  destruct (SFdiv prec emax (Z2SF a) (Z2SF b)); discriminate.
Qed.

Lemma Fraction_of_float_not_OSError f errno :
  Fraction_of_float f <> Raise (OSError errno).
Proof.
  unfold Fraction_of_float. destruct (Prim2SF f); try discriminate.
  destruct (0 <=? e); discriminate.
Qed.

Lemma stepwise_fps_not_OSError f errno :
  stepwise_fps f <> Raise (OSError errno).
Proof.
  unfold stepwise_fps, Fraction_of_ints.
  destruct (numerator f =? 0); discriminate.
Qed.

Lemma obind_not_OSError {A B} (m : outcome A) (f : A -> outcome B) errno :
  m <> Raise (OSError errno) ->
  (forall a, f a <> Raise (OSError errno)) ->
  obind m f <> Raise (OSError errno).
Proof.
  intros Hm Hf. destruct m as [a | e |]; cbn; auto; [| discriminate].
  intros H. apply Hm. congruence.
Qed.

Lemma obind_not_OutOfFuel {A B} (m : outcome A) (f : A -> outcome B) :
  m <> OutOfFuel -> (forall a, f a <> OutOfFuel) -> obind m f <> OutOfFuel.
Proof. intros Hm Hf. destruct m; cbn; auto. discriminate. Qed.

Lemma truediv_not_OutOfFuel a b : truediv_int_int a b <> OutOfFuel.
Proof.
  unfold truediv_int_int. destruct (b =? 0); [discriminate |].
  destruct (SFdiv prec emax (Z2SF a) (Z2SF b)); discriminate.
Qed.

Lemma Fraction_of_float_not_OutOfFuel f : Fraction_of_float f <> OutOfFuel.
Proof.
  unfold Fraction_of_float. destruct (Prim2SF f); try discriminate.
  destruct (0 <=? e); discriminate.
Qed.

Lemma stepwise_fps_not_OutOfFuel f : stepwise_fps f <> OutOfFuel.
Proof.
  unfold stepwise_fps, Fraction_of_ints.
  destruct (numerator f =? 0); discriminate.
Qed.

(** The frame-interval loop issues at most one ENUM_FRAMEINTERVALS per
    index and always ends. *)
(** The fps bounds that one turn of [get_frame_intervals] computes. *)
Definition fps_bounds (ftype : Z) (val : v4l2_frmivalenum)
    : outcome (Fraction * Fraction * Fraction) :=
  if ftype =? V4L2_FRMIVAL_TYPE_DISCRETE
  then
    let? q := truediv_int_int (denominator (fi_discrete val))
                              (numerator (fi_discrete val)) in
    let? x := Fraction_of_float q in
    Return (x, x, x)
  else
    let? min_fps := stepwise_fps (fi_min val) in
    let? max_fps := stepwise_fps (fi_max val) in
    let? step_fps := stepwise_fps (fi_step val) in
    Return (min_fps, max_fps, step_fps).

(** One turn of the frame-interval loop. *)
Lemma frame_intervals_loop_step index rest val res w :
  let w1 := after_ioctl ENUM_FRAMEINTERVALS val w in
  frame_intervals_loop (index :: rest) val res w
  = match fst (k_ioctl ENUM_FRAMEINTERVALS val (kern w)) with
    | KErr errno =>
        if errno =? EINVAL then (Return res, w1)
        else (Raise (OSError errno), w1)
    | KOk val1 =>
        let val' := mk_frmivalenum (u32 index) (fi_pixel_format val1)
                      (fi_width val1) (fi_height val1) (fi_type val1)
                      (fi_discrete val1) (fi_min val1) (fi_max val1)
                      (fi_step val1) in
        match FrameIntervalType (fi_type val1) with
        | None => (Return res, w1)
        | Some ftype =>
            match fps_bounds ftype val' with
            | Return (min_fps, max_fps, step_fps) =>
                frame_intervals_loop rest val'
                  (res ++ [mk_FrameType ftype (fi_pixel_format val1)
                             (fi_width val1) (fi_height val1)
                             min_fps max_fps step_fps]) w1
            | Raise e => (Raise e, w1)
            | OutOfFuel => (OutOfFuel, w1)
            end
        end
    end.
Proof.
  intros w1. cbn [frame_intervals_loop].
  unfold bind at 1. rewrite try_ioctl_fd. fold w1.
  destruct (fst (k_ioctl ENUM_FRAMEINTERVALS val (kern w)))
    as [val1 | errno].
  - cbn [fi_type fi_discrete fi_min fi_max fi_step fi_pixel_format
           fi_width fi_height].
    destruct (FrameIntervalType (fi_type val1)) as [ftype |]; [| reflexivity].
    unfold bind at 1, lift at 1, fps_bounds.
    cbn [fi_type fi_discrete fi_min fi_max fi_step fi_pixel_format
           fi_width fi_height].
    match goal with
    | |- context [match ?pure with Return _ => _ | Raise _ => _
                  | OutOfFuel => _ end] =>
        destruct pure as [[[fmin fmax] fstep] | e |]
    end; reflexivity.
  - cbn. destruct (errno =? EINVAL); reflexivity.
Qed.

Lemma fps_bounds_end_well (ftype : Z) (val : v4l2_frmivalenum) :
  ends_well (fps_bounds ftype val).
Proof.
  unfold fps_bounds.
  destruct (ftype =? V4L2_FRMIVAL_TYPE_DISCRETE); split.
  - apply obind_not_OutOfFuel; [apply truediv_not_OutOfFuel | intros q].
    apply obind_not_OutOfFuel; [apply Fraction_of_float_not_OutOfFuel |].
    discriminate.
  - apply obind_not_OSError; [apply truediv_not_OSError | intros q].
    apply obind_not_OSError; [apply Fraction_of_float_not_OSError |].
    discriminate.
  - repeat (apply obind_not_OutOfFuel;
            [apply stepwise_fps_not_OutOfFuel | intros ?]).
    discriminate.
  - repeat (apply obind_not_OSError;
            [apply stepwise_fps_not_OSError | intros ?]).
    discriminate.
Qed.

Lemma frame_intervals_loop_bounded indices :
  forall val res w,
  exists evs,
    added w (snd (frame_intervals_loop indices val res w)) evs
    /\ (List.length evs <= List.length indices)%nat
    /\ Forall (is_request ENUM_FRAMEINTERVALS) evs
    /\ ends_well (fst (frame_intervals_loop indices val res w)).
Proof.
  induction indices as [| index rest IH]; intros val res w.
  - exists []. cbn. repeat split; auto using added_refl; discriminate.
  - rewrite frame_intervals_loop_step. cbv zeta. cbn [List.length].
    destruct (fst (k_ioctl ENUM_FRAMEINTERVALS val (kern w)))
      as [val1 | errno].
    + destruct (FrameIntervalType (fi_type val1)) as [ftype |].
      2:{ apply ended_after_one, ends_well_Return. }
      set (val' := mk_frmivalenum _ _ _ _ _ _ _ _ _).
      pose proof (fps_bounds_end_well ftype val') as Hpure.
      destruct (fps_bounds ftype val') as [[[fmin fmax] fstep] | e |].
      * apply (went_on_after_one ENUM_FRAMEINTERVALS val), IH.
      * apply ended_after_one, ends_well_Raise.
        destruct Hpure as [_ Hp]. congruence.
      * now destruct Hpure as [Hp _].
    + destruct (errno =? EINVAL) eqn:He.
      * apply ended_after_one, ends_well_Return.
      * apply ended_after_one, ends_well_Raise.
        apply Z.eqb_neq in He. congruence.
Qed.

End EnumerationClaims.

Section ControlEnumeration.

Context {KS : Kernel}.

(** The structure with which the control loop asks for the next control. *)
Definition next_query (q : v4l2_query_ext_ctrl) : v4l2_query_ext_ctrl :=
  mk_query_ext_ctrl
    (u32 (Z.lor (qc_id q)
            (Z.lor V4L2_CTRL_FLAG_NEXT_CTRL V4L2_CTRL_FLAG_NEXT_COMPOUND)))
    (qc_type q) (qc_name q) (qc_flags q).

(** The list of controls after one answer. *)
Definition keep_control (q : v4l2_query_ext_ctrl)
    (acc : list v4l2_query_ext_ctrl) : list v4l2_query_ext_ctrl :=
  if (Z.land (qc_flags q) V4L2_CTRL_FLAG_DISABLED =? 0)
     && negb (qc_type q =? V4L2_CTRL_TYPE_CTRL_CLASS)
  then acc ++ [q] else acc.

(** One turn of the control loop on an open device. *)
Lemma controls_loop_step fuel q acc w :
  closed w = false ->
  let w1 := after_ioctl QUERY_EXT_CTRL q w in
  Device.controls_loop (S fuel) q acc w
  = match fst (k_ioctl QUERY_EXT_CTRL q (kern w)) with
    | KErr errno =>
        if errno =? EINVAL then (Return acc, w1)
        else (Raise AssertionError, w1)
    | KOk q1 =>
        Device.controls_loop fuel (next_query q1) (keep_control q1 acc) w1
    end.
Proof.
  intros Hc w1. cbn [Device.controls_loop].
  unfold bind at 1. rewrite (try_ioctl_open _ _ _ Hc). fold w1.
  destruct (fst (k_ioctl QUERY_EXT_CTRL q (kern w))) as [q1 | errno].
  - reflexivity.
  - cbn. destruct (errno =? EINVAL); reflexivity.
Qed.

Lemma controls_loop_closed fuel q acc w :
  closed w = true ->
  Device.controls_loop (S fuel) q acc w
  = (Raise (ValueError "I/O operation on closed file"), w).
Proof.
  intros Hc. cbn [Device.controls_loop].
  unfold bind at 1, try_OSError. now rewrite (ioctl_closed _ _ _ Hc).
Qed.

Lemma controls_loop_no_OSError fuel :
  forall q acc w errno,
    fst (Device.controls_loop fuel q acc w) <> Raise (OSError errno).
Proof.
  induction fuel as [| fuel IH]; intros q acc w errno; [discriminate |].
  destruct (closed w) eqn:Hc.
  - now rewrite (controls_loop_closed _ _ _ _ Hc).
  - rewrite (controls_loop_step _ _ _ _ Hc). cbv zeta.
    destruct (fst (k_ioctl QUERY_EXT_CTRL q (kern w))) as [q1 | e].
    + apply IH.
    + destruct (e =? EINVAL); discriminate.
Qed.

End ControlEnumeration.

(** C4 (as the code has it): the image-format loop and the frame-interval
    loop each run over [range(128)]: whatever the driver answers they end,
    after at most 128 requests of their kind and nothing else, and never by
    raising EINVAL; a request answered EINVAL ends them normally, with what
    was gathered so far.  The control loop, too, ends normally on a request
    answered EINVAL and never raises an OSError; it has no bound on its
    iterations. *)
Theorem C4_enumeration_loops_end_on_EINVAL {KS : Kernel} :
  (forall is_PixelFormat stream_type fmt formats pixel_formats w,
     let run := enum_fmt_loop is_PixelFormat stream_type (range 128) fmt
                  formats pixel_formats w in
     exists evs,
       added w (snd run) evs /\ (List.length evs <= 128)%nat
       /\ Forall (is_request ENUM_FMT) evs /\ ends_well (fst run))
  /\
  (forall is_PixelFormat stream_type index rest fmt formats pixel_formats w k',
     let fmt' := mk_fmtdesc (u32 index) (fd_type fmt) (fd_flags fmt)
                   (fd_description fmt) (fd_pixelformat fmt) in
     k_ioctl ENUM_FMT fmt' (kern w) = (KErr EINVAL, k') ->
     enum_fmt_loop is_PixelFormat stream_type (index :: rest) fmt formats
       pixel_formats w
     = (Return (fmt', formats, pixel_formats), after_ioctl ENUM_FMT fmt' w))
  /\
  (forall fmt width height w,
     let run := get_frame_intervals fmt width height w in
     exists evs,
       added w (snd run) evs /\ (List.length evs <= 128)%nat
       /\ Forall (is_request ENUM_FRAMEINTERVALS) evs /\ ends_well (fst run))
  /\
  (forall index rest val res w k',
     k_ioctl ENUM_FRAMEINTERVALS val (kern w) = (KErr EINVAL, k') ->
     frame_intervals_loop (index :: rest) val res w
     = (Return res, after_ioctl ENUM_FRAMEINTERVALS val w))
  /\
  (forall fuel q acc w k',
     closed w = false ->
     k_ioctl QUERY_EXT_CTRL q (kern w) = (KErr EINVAL, k') ->
     Device.controls_loop (S fuel) q acc w
     = (Return acc, after_ioctl QUERY_EXT_CTRL q w))
  /\
  (forall fuel w errno,
     fst (Device._get_device_controls fuel w) <> Raise (OSError errno)).
Proof.
  repeat apply conj.
  - intros is_PixelFormat stream_type fmt formats pixel_formats w run.
    apply (enum_fmt_loop_bounded is_PixelFormat stream_type (range 128)).
  - intros is_PixelFormat stream_type index rest fmt formats pixel_formats w k'
           fmt' Hk.
    rewrite enum_fmt_loop_step. cbv zeta. fold fmt'. now rewrite Hk.
  - intros fmt width height w run.
    apply (frame_intervals_loop_bounded (range 128)).
  - intros index rest val res w k' Hk.
    rewrite frame_intervals_loop_step. cbv zeta. now rewrite Hk.
  - intros fuel q acc w k' Hc Hk.
    rewrite (controls_loop_step _ _ _ _ Hc). cbv zeta. now rewrite Hk.
  - intros fuel w errno. apply controls_loop_no_OSError.
Qed.

(** An event that is a QUERY_EXT_CTRL ioctl. *)
Definition is_control_query (e : event) : bool :=
  match e with
  | EvIoctl QUERY_EXT_CTRL _ => true
  | _ => false
  end.

(** A driver that always has one more control to report. *)
Definition endless_controls : driver :=
  mk_driver 4 None None [] (mk_fract 0 0) 3 (-1) 0 0.

Lemma endless_controls_never_end (fuel : nat) :
  forall q acc (w : @World scripted),
    closed w = false -> d_controls (kern w) = -1 ->
    fst (Device.controls_loop (KS := scripted) fuel q acc w) = OutOfFuel.
Proof.
  induction fuel as [| fuel IH]; intros q acc w Hc Hd; [reflexivity |].
  rewrite (controls_loop_step (KS := scripted) _ _ _ _ Hc). cbv zeta.
  cbn [k_ioctl scripted driver_ioctl]. rewrite Hd. cbn [Z.leb Z.compare andb fst].
  apply IH; [exact Hc |]. cbn. rewrite Hd. reflexivity.
Qed.

(** C4, refuted as stated: on a driver that never answers EINVAL to
    QUERY_EXT_CTRL the control loop is still running after 129 requests
    (more than the claimed bound of 128), and after any number of them. *)
Lemma C4_counterexample :
  (fst (Device._get_device_controls (KS := scripted) 129
          (world0 endless_controls)) = OutOfFuel
   /\ List.length (trace (snd (Device._get_device_controls (KS := scripted) 129
                                 (world0 endless_controls)))) = 129%nat
   /\ forallb is_control_query
        (trace (snd (Device._get_device_controls (KS := scripted) 129
                       (world0 endless_controls)))) = true)
  /\ (forall fuel,
        fst (Device._get_device_controls (KS := scripted) fuel
               (world0 endless_controls)) = OutOfFuel).
Proof.
  split.
  - repeat split; vm_compute; reflexivity.
  - intros fuel. now apply endless_controls_never_end.
Qed.

(** The three enumerations on a driver with three formats and two
    controls: each ends normally once the driver answers EINVAL. *)
Example enumerations_end_on_EINVAL :
  (exists formats w',
     enum_formats (KS := scripted) (fun _ => true) [VIDEO_CAPTURE]
       (mk_fmtdesc 0 0 0 "" 0) [] [] (world0 driver0)
     = (Return (formats, [1000; 1001; 1002]), w')
     /\ List.length (trace w') = 4%nat)
  /\ (exists frames w',
        get_frame_intervals (KS := scripted) 1000 640 480 (world0 driver0)
        = (Return frames, w')
        /\ List.length frames = 4%nat /\ List.length (trace w') = 5%nat)
  /\ (exists controls w',
        Device._get_device_controls (KS := scripted) 5 (world0 driver0)
        = (Return controls, w')
        /\ List.length controls = 2%nat /\ List.length (trace w') = 3%nat).
Proof.
  repeat split; do 2 eexists; (split; [vm_compute; reflexivity |]);
    try split; reflexivity.
Qed.

(** ** The closest fraction with a bounded denominator *)

Section ContinuedFraction.

(** The fraction N/D that is approximated, in lowest terms, and the bound M
    on the denominator, which the fraction itself exceeds. *)
Variables N D M : Z.
Hypothesis D_large : M < D.
Hypothesis M_pos : 1 <= M.
Hypothesis lowest_terms : Z.gcd N D = 1.

(** What the loop of [limit_denominator] maintains from its second turn
    on: p0/q0 and p1/q1 are consecutive convergents of N/D, and n/d is the
    tail of the expansion. *)
Definition convergents (p0 q0 p1 q1 n d : Z) : Prop :=
  N = p1 * n + p0 * d /\ D = q1 * n + q0 * d
  /\ (p1 * q0 - p0 * q1 = 1 \/ p1 * q0 - p0 * q1 = -1)
  /\ 0 <= d < n /\ 0 <= q0 <= q1 /\ 1 <= q1 <= M.

Lemma convergents_d_pos p0 q0 p1 q1 n d :
  convergents p0 q0 p1 q1 n d -> 0 < d.
Proof.
  intros (HN & HD & _ & Hd & Hq0 & Hq1).
  destruct (Z.eq_dec d 0) as [-> |]; [| lia].
  exfalso. rewrite Z.mul_0_r, Z.add_0_r in HN, HD.
  assert (Hn : (n | 1)).
  { rewrite <- lowest_terms. apply Z.gcd_greatest.
    - exists p1. lia.
    - exists q1. lia. }
  apply Z.divide_1_r_nonneg in Hn; [| lia]. subst n. lia.
Qed.

Lemma convergents_step p0 q0 p1 q1 n d :
  convergents p0 q0 p1 q1 n d ->
  q0 + n / d * q1 <= M ->
  convergents p1 q1 (p0 + n / d * p1) (q0 + n / d * q1) d (n - n / d * d).
Proof.
  intros Hc Hq2. pose proof (convergents_d_pos _ _ _ _ _ _ Hc) as Hd.
  destruct Hc as (HN & HD & Hdet & Hdn & Hq0 & Hq1).
  pose proof (Z.div_mod n d ltac:(lia)) as Hdiv.
  pose proof (Z.mod_pos_bound n d Hd) as Hmod.
  assert (Ha : 1 <= n / d) by (apply Z.div_le_lower_bound; lia).
  set (a := n / d) in *.
  unfold convergents. repeat split; nia.
Qed.

(** The product n * d at least halves with every turn, so the loop stops
    before its fuel runs out. *)
Lemma limit_loop_exits (fuel : nat) :
  forall p0 q0 p1 q1 n d,
    convergents p0 q0 p1 q1 n d ->
    n * d < 2 ^ Z.of_nat fuel ->
    exists p0' q0' p1' q1' n' d',
      limit_loop (S fuel) M p0 q0 p1 q1 n d
      = Return (p0', q0', p1', q1', n', d')
      /\ convergents p0' q0' p1' q1' n' d'
      /\ M < q0' + n' / d' * q1'.
Proof.
  induction fuel as [| fuel IH]; intros p0 q0 p1 q1 n d Hc Hfuel;
    pose proof (convergents_d_pos _ _ _ _ _ _ Hc) as Hd;
    cbn [limit_loop];
    replace (d =? 0) with false by (symmetry; apply Z.eqb_neq; lia).
  - exfalso. destruct Hc as (_ & _ & _ & Hdn & _). cbn in Hfuel. nia.
  - destruct (Z.gtb_spec (q0 + n / d * q1) M) as [Hgt | Hle].
    + exists p0, q0, p1, q1, n, d. auto.
    + apply IH; [now apply convergents_step |].
      destruct Hc as (_ & _ & _ & Hdn & _).
      pose proof (Z.div_mod n d ltac:(lia)) as Hdiv.
      pose proof (Z.mod_pos_bound n d Hd) as Hmod.
      assert (Ha : 1 <= n / d) by (apply Z.div_le_lower_bound; lia).
      rewrite Nat2Z.inj_succ, Z.pow_succ_r in Hfuel by lia.
      nia.
Qed.

(** The distance from a/b to N/D, scaled by b * D. *)
Definition err (a b : Z) : Z := Z.abs (a * D - N * b).

(** a/b is at least as close to N/D as c/e (b and e positive). *)
Definition as_close (a b c e : Z) : Prop := err a b * e <= err c e * b.

(** Where the loop stops: the last convergent p1/q1 and the last
    semiconvergent that fits, (p0 + k p1)/(q0 + k q1), have N/D between
    them and no fraction with a denominator up to M strictly between
    them. *)
Lemma candidates_enclose p0 q0 p1 q1 n d :
  convergents p0 q0 p1 q1 n d ->
  M < q0 + n / d * q1 ->
  let k := (M - q0) / q1 in
  1 <= q0 + k * q1 <= M
  /\ err p1 q1 = d
  /\ err (p0 + k * p1) (q0 + k * q1) = n - k * d
  /\ (forall p q, 1 <= q <= M ->
        as_close p1 q1 p q \/ as_close (p0 + k * p1) (q0 + k * q1) p q).
Proof.
  intros Hc Hq2 k. pose proof (convergents_d_pos _ _ _ _ _ _ Hc) as Hd.
  destruct Hc as (HN & HD & Hdet & Hdn & Hq0 & Hq1).
  pose proof (Z.div_mod n d ltac:(lia)) as Hdiv.
  pose proof (Z.mod_pos_bound n d Hd) as Hmod.
  pose proof (Z.div_mod (M - q0) q1 ltac:(lia)) as Hkdiv. fold k in Hkdiv.
  pose proof (Z.mod_pos_bound (M - q0) q1 ltac:(lia)) as Hkmod.
  set (a := n / d) in *.
  assert (Hk0 : 0 <= k) by (apply Z.div_pos; lia).
  assert (Hka : k < a) by nia.
  assert (HQ : 1 <= q0 + k * q1 <= M).
  { split; [| nia].
    destruct (Z.eq_dec q0 0) as [Hz |]; [| nia].
    assert (1 <= k) by (apply Z.div_le_lower_bound; lia). nia. }
  assert (Hsum : M < (q0 + k * q1) + q1) by nia.
  set (P := p0 + k * p1) in *. set (Q := q0 + k * q1) in *.
  assert (Hdet' : p1 * Q - P * q1 = p1 * q0 - p0 * q1) by (unfold P, Q; ring).
  assert (He2 : p1 * D - N * q1 = (p1 * q0 - p0 * q1) * d)
    by (rewrite HN, HD; ring).
  assert (He1 : N * Q - P * D = (p1 * q0 - p0 * q1) * (n - k * d))
    by (rewrite HN, HD; unfold P, Q; ring).
  assert (Hrem : 0 < n - k * d).
  { assert (k * d <= (a - 1) * d) by (apply Z.mul_le_mono_nonneg_r; lia).
    lia. }
  split; [exact HQ |]. split; [| split].
  - unfold err. rewrite He2. destruct Hdet as [-> | ->]; lia.
  - unfold err. replace (P * D - N * Q) with (- (N * Q - P * D)) by ring.
    rewrite He1. destruct Hdet as [-> | ->]; lia.
  - intros p q Hq. unfold as_close, err.
    replace (P * D - N * Q) with (- (N * Q - P * D)) by ring.
    rewrite He1, He2.
    assert (Hu : q1 * (p * D - N * q)
                 = q * ((p1 * q0 - p0 * q1) * d) - (p1 * q - p * q1) * D)
      by (rewrite <- He2; ring).
    assert (Hv : Q * (p * D - N * q)
                 = (p * Q - P * q) * D
                   - q * ((p1 * q0 - p0 * q1) * (n - k * d)))
      by (rewrite <- He1; ring).
    assert (Hq' : q * (p1 * q0 - p0 * q1)
                  = Q * (p1 * q - p * q1) + q1 * (p * Q - P * q))
      by (rewrite <- Hdet'; ring).
    set (u := p1 * q - p * q1) in *. set (v := p * Q - P * q) in *.
    set (t := p * D - N * q) in *.
    assert (HDpos : 0 < D) by lia.
    assert (Hfar : forall c e w, 0 < c -> 0 <= e -> 0 <= w ->
              c * t = q * e + w \/ c * t = - (q * e) - w ->
              e * q <= Z.abs t * c).
    { intros c e w Hc He Hw Ht.
      replace (Z.abs t * c) with (Z.abs (c * t))
        by (rewrite Z.abs_mul, (Z.abs_eq c); lia).
      assert (0 <= q * e) by (apply Z.mul_nonneg_nonneg; lia).
      rewrite (Z.mul_comm e q). destruct Ht as [-> | ->]; lia. }
    assert (Hbetween : forall u' v', 1 <= u' -> 1 <= v' ->
              q <> Q * u' + q1 * v').
    { intros u' v' Hu' Hv'.
      assert (Q * 1 <= Q * u') by (apply Z.mul_le_mono_nonneg_l; lia).
      assert (q1 * 1 <= q1 * v') by (apply Z.mul_le_mono_nonneg_l; lia).
      lia. }
    destruct Hdet as [Hs | Hs]; rewrite Hs in *.
    + destruct (Z_le_gt_dec u 0) as [Hu0 | Hu0].
      * left. replace (Z.abs (1 * d)) with d by lia.
        apply (Hfar q1 d (- u * D)); [lia | lia | |].
        -- apply Z.mul_nonneg_nonneg; lia.
        -- left. rewrite Hu. ring.
      * destruct (Z_le_gt_dec v 0) as [Hv0 | Hv0].
        -- right. replace (Z.abs (- (1 * (n - k * d)))) with (n - k * d) by lia.
           apply (Hfar Q (n - k * d) (- v * D)); [lia | lia | |].
           ++ apply Z.mul_nonneg_nonneg; lia.
           ++ right. rewrite Hv. ring.
        -- exfalso. apply (Hbetween u v); lia.
    + destruct (Z_le_gt_dec 0 u) as [Hu0 | Hu0].
      * left. replace (Z.abs (-1 * d)) with d by lia.
        apply (Hfar q1 d (u * D)); [lia | lia | |].
        -- apply Z.mul_nonneg_nonneg; lia.
        -- right. rewrite Hu. ring.
      * destruct (Z_le_gt_dec 0 v) as [Hv0 | Hv0].
        -- right.
           replace (Z.abs (- (-1 * (n - k * d)))) with (n - k * d) by lia.
           apply (Hfar Q (n - k * d) (v * D)); [lia | lia | |].
           ++ apply Z.mul_nonneg_nonneg; lia.
           ++ left. rewrite Hv. ring.
        -- exfalso. apply (Hbetween (- u) (- v)); [lia | lia |].
           replace (Q * - u + q1 * - v) with (- (Q * u + q1 * v)) by ring.
           lia.
Qed.

End ContinuedFraction.

Lemma limit_loop_S fuel M p0 q0 p1 q1 n d :
  limit_loop (S fuel) M p0 q0 p1 q1 n d
  = if d =? 0 then Raise ZeroDivisionError
    else if q0 + n / d * q1 >? M then Return (p0, q0, p1, q1, n, d)
         else limit_loop fuel M p1 q1 (p0 + n / d * p1) (q0 + n / d * q1)
                d (n - n / d * d).
Proof. reflexivity. Qed.

(** ** From integers to rationals *)

Lemma Qabs_dist_le (a c N : Z) (b e D : positive) :
  (Qabs ((a # b) - (N # D)) <= Qabs ((c # e) - (N # D)))%Q
  <-> Z.abs (a * Zpos D - N * Zpos b) * Zpos e
      <= Z.abs (c * Zpos D - N * Zpos e) * Zpos b.
Proof.
  unfold Qle, Qabs, Qminus, Qplus, Qopp. cbn [Qnum Qden].
  rewrite !Pos2Z.inj_mul.
  replace (a * Zpos D + - N * Zpos b) with (a * Zpos D - N * Zpos b) by ring.
  replace (c * Zpos D + - N * Zpos e) with (c * Zpos D - N * Zpos e) by ring.
  set (A := Z.abs (a * Zpos D - N * Zpos b)).
  set (C := Z.abs (c * Zpos D - N * Zpos e)).
  replace (A * (Zpos e * Zpos D)) with (A * Zpos e * Zpos D) by ring.
  replace (C * (Zpos b * Zpos D)) with (C * Zpos b * Zpos D) by ring.
  split; intros H.
  - apply Z.mul_le_mono_pos_r in H; [exact H | reflexivity].
  - apply Z.mul_le_mono_pos_r; [reflexivity | exact H].
Qed.

Lemma Qred_den_le (q : Q) : QDen (Qred q) <= QDen q.
Proof.
  pose proof (Qred_correct q) as Heq. pose proof (gcd_Qred q) as Hg.
  unfold Qeq in Heq.
  apply Z.divide_pos_le; [reflexivity |].
  apply Z.gauss with (m := Qnum (Qred q)).
  - exists (Qnum q). rewrite Heq. ring.
  - now rewrite Z.gcd_comm.
Qed.

Lemma Fraction_of_ints_pos (n d : Z) :
  0 < d -> Fraction_of_ints n d = Return (Qred (n # Z.to_pos d)).
Proof.
  intros Hd. unfold Fraction_of_ints.
  replace (d =? 0) with false by (symmetry; apply Z.eqb_neq; lia).
  rewrite Z.sgn_pos, Z.abs_eq, Z.mul_1_l by lia. reflexivity.
Qed.

(** [limit_denominator] returns a closest fraction among those whose
    denominator is at most [max_denominator]: it always returns, its result
    has such a denominator, and no fraction with such a denominator is
    closer to [self]. *)
Theorem limit_denominator_closest (self : Fraction) (max_denominator : Z) :
  Z.gcd (fr_numerator self) (fr_denominator self) = 1 ->
  1 <= max_denominator ->
  exists r,
    limit_denominator self max_denominator = Return r
    /\ 1 <= fr_denominator r <= max_denominator
    /\ forall t : Q, fr_denominator t <= max_denominator ->
         (Qabs (r - self) <= Qabs (t - self))%Q.
Proof.
  intros Hgcd HM. unfold limit_denominator.
  replace (max_denominator <? 1) with false by (symmetry; apply Z.ltb_ge; lia).
  destruct (Z.leb_spec (fr_denominator self) max_denominator) as [Hle | Hgt].
  { exists self. split; [reflexivity |]. split.
    - unfold fr_denominator in *. lia.
    - intros t _. setoid_replace (self - self)%Q with 0%Q by ring.
      apply Qabs_nonneg. }
  destruct self as [N D]. unfold fr_numerator, fr_denominator in *.
  cbn [Qnum Qden] in *. set (M := max_denominator) in *.
  (* the first turn of the loop *)
  unfold limit_fuel. rewrite limit_loop_S.
  change (Zpos D =? 0) with false. cbv iota.
  replace (1 + N / Zpos D * 0 >? M) with false
    by (symmetry; rewrite Z.gtb_ltb; apply Z.ltb_ge; lia).
  assert (Hfirst : convergents N (Zpos D) M 1 0 (0 + N / Zpos D * 1)
                     (1 + N / Zpos D * 0) (Zpos D)
                     (N - N / Zpos D * Zpos D)).
  { pose proof (Z.div_mod N (Zpos D) ltac:(lia)) as Hdiv.
    pose proof (Z.mod_pos_bound N (Zpos D) ltac:(lia)) as Hmod.
    unfold convergents. repeat split; lia. }
  destruct (limit_loop_exits N (Zpos D) M Hgt Hgcd
              (Z.to_nat (2 * Z.log2_up (Zpos D))) _ _ _ _ _ _ Hfirst)
    as (p0 & q0 & p1 & q1 & n & d & Hloop & Hc & Hstop).
  { pose proof (Z.mod_pos_bound N (Zpos D) ltac:(lia)) as Hmod.
    pose proof (Z.div_mod N (Zpos D) ltac:(lia)) as Hdiv.
    pose proof (Z.log2_log2_up_spec (Zpos D) ltac:(lia)) as [_ Hlog].
    pose proof (Z.log2_up_nonneg (Zpos D)) as Hlog0.
    rewrite Z2Nat.id by lia.
    replace (2 * Z.log2_up (Zpos D)) with (Z.log2_up (Zpos D) + Z.log2_up (Zpos D))
      by ring.
    rewrite Z.pow_add_r by lia.
    set (B := 2 ^ Z.log2_up (Zpos D)) in *.
    assert (Zpos D * (N - N / Zpos D * Zpos D) < Zpos D * Zpos D)
      by (apply Z.mul_lt_mono_pos_l; lia).
    assert (Zpos D * Zpos D <= B * B) by (apply Z.mul_le_mono_nonneg; lia).
    lia. }
  rewrite Hloop. cbn [obind].
  destruct (candidates_enclose N (Zpos D) M Hgt HM Hgcd _ _ _ _ _ _ Hc Hstop)
    as (HQ & _ & _ & Hbest).
  set (k := (M - q0) / q1) in *.
  set (Pk := p0 + k * p1) in *. set (Qk := q0 + k * q1) in *.
  assert (Hq1 : 1 <= q1 <= M) by (destruct Hc as (_ & _ & _ & _ & _ & H); exact H).
  rewrite (Fraction_of_ints_pos Pk Qk) by lia. cbn [obind].
  rewrite (Fraction_of_ints_pos p1 q1) by lia. cbn [obind].
  set (bound1 := Qred (Pk # Z.to_pos Qk)). set (bound2 := Qred (p1 # Z.to_pos q1)).
  assert (Hb1 : (bound1 == Pk # Z.to_pos Qk)%Q) by apply Qred_correct.
  assert (Hb2 : (bound2 == p1 # Z.to_pos q1)%Q) by apply Qred_correct.
  assert (Hd1 : 1 <= QDen bound1 <= M).
  { pose proof (Qred_den_le (Pk # Z.to_pos Qk)) as H. fold bound1 in H.
    cbn [Qden] in H. rewrite Z2Pos.id in H by lia. lia. }
  assert (Hd2 : 1 <= QDen bound2 <= M).
  { pose proof (Qred_den_le (p1 # Z.to_pos q1)) as H. fold bound2 in H.
    cbn [Qden] in H. rewrite Z2Pos.id in H by lia. lia. }
  assert (Hfar : forall t : Q, QDen t <= M ->
            (Qabs (bound2 - (N # D)) <= Qabs (t - (N # D)))%Q
            \/ (Qabs (bound1 - (N # D)) <= Qabs (t - (N # D)))%Q).
  { intros [p q] Hq. cbn [Qden] in Hq.
    destruct (Hbest p (Zpos q) ltac:(lia)) as [H | H]; [left | right].
    - rewrite Hb2. apply Qabs_dist_le. rewrite Z2Pos.id by lia. exact H.
    - rewrite Hb1. apply Qabs_dist_le. rewrite Z2Pos.id by lia. exact H. }
  destruct (Qle_bool (Qabs (bound2 - (N # D))%Q) (Qabs (bound1 - (N # D))%Q))
    eqn:Hcmp.
  - apply Qle_bool_iff in Hcmp. exists bound2.
    split; [reflexivity |]. split; [exact Hd2 |].
    intros t Ht. destruct (Hfar t Ht) as [H | H]; [exact H |].
    eapply Qle_trans; eassumption.
  - assert (Hlt : (Qabs (bound1 - (N # D)) <= Qabs (bound2 - (N # D)))%Q).
    { apply Qlt_le_weak, Qnot_le_lt. intros H.
      apply Qle_bool_iff in H. congruence. }
    exists bound1. split; [reflexivity |]. split; [exact Hd1 |].
    intros t Ht. destruct (Hfar t Ht) as [H | H]; [| exact H].
    eapply Qle_trans; eassumption.
Qed.

(** ** Frame rate *)

Lemma Fraction_of_number_lowest_terms (fps : number) (x : Fraction) :
  Fraction_of_number fps = Return x ->
  Z.gcd (fr_numerator x) (fr_denominator x) = 1.
Proof.
  unfold fr_numerator, fr_denominator.
  destruct fps as [z | f]; cbn [Fraction_of_number].
  - intros H; injection H as <-. cbn. apply Z.gcd_1_r.
  - unfold Fraction_of_float. destruct (Prim2SF f) as [s | s | | s m e];
      try discriminate.
    + intros H; injection H as <-. reflexivity.
    + destruct (0 <=? e); intros H.
      * injection H as <-. cbn. apply Z.gcd_1_r.
      * assert (Hx : x = Qred ((if s then Zneg m else Zpos m)
                               # Z.to_pos (2 ^ (- e)))) by congruence.
        rewrite Hx. apply gcd_Qred.
Qed.

(** The bound on the denominator that [set_fps] computes:
    [int(min(2**32, 2**32/fps))]. *)
Definition max_den_of (fps : number) : outcome Z :=
  let? q := truediv_int (2 ^ 32) fps in
  int_of_number (min_int_float (2 ^ 32) q).

Lemma max_den_of_le (fps : number) (max_den : Z) :
  max_den_of fps = Return max_den -> max_den <= 2 ^ 32.
Proof.
  unfold max_den_of. destruct (truediv_int (2 ^ 32) fps) as [q | e |];
    try discriminate.
  cbn [obind]. unfold min_int_float, float_lt_int, int_of_number.
  destruct (Prim2SF q) as [s | s | | s m e] eqn:Hq.
  - cbn. rewrite Hq. intros H; injection H as <-. lia.
  - destruct s; [rewrite Hq; discriminate |].
    intros H; injection H as <-. lia.
  - intros H; injection H as <-. lia.
  - destruct (0 <=? e) eqn:He.
    + destruct (_ <? _) eqn:Hlt.
      * rewrite Hq, He. intros H; injection H as <-.
        apply Z.ltb_lt in Hlt. lia.
      * intros H; injection H as <-. lia.
    + destruct (_ <? _) eqn:Hlt.
      * rewrite Hq, He. intros H; injection H as <-.
        apply Z.ltb_lt in Hlt. apply Z.leb_gt in He.
        assert (Hp : 0 < 2 ^ (- e)) by (apply Z.pow_pos_nonneg; lia).
        destruct s.
        -- pose proof (Z.quot_opp_l (Zpos m) (2 ^ (- e)) ltac:(lia)) as Ho.
           change (- Zpos m) with (Zneg m) in Ho. rewrite Ho.
           pose proof (Z.quot_pos (Zpos m) (2 ^ (- e)) ltac:(lia) Hp). lia.
        -- apply Z.lt_le_incl. apply Z.quot_lt_upper_bound; lia.
      * intros H; injection H as <-. lia.
Qed.

Section FrameRate.

Context {KS : Kernel}.

(** The structure that [set_fps] submits for a fraction [r] of frames per
    second: the time per frame is the inverse, in 32-bit fields. *)
Definition streamparm_of (r : Fraction) : v4l2_streamparm :=
  mk_streamparm VideoCapture.buffer_type
    (mk_fract (u32 (fr_denominator r)) (u32 (fr_numerator r))).

Lemma set_fps_unfold (fps : number) (w : World) (x r : Fraction) (max_den : Z) :
  closed w = false ->
  max_den_of fps = Return max_den ->
  Fraction_of_number fps = Return x ->
  limit_denominator x max_den = Return r ->
  VideoCapture.set_fps fps w
  = (ioctl_answer S_PARM (streamparm_of r) w (fun _ => tt),
     after_ioctl S_PARM (streamparm_of r) w).
Proof.
  intros Hc Hmax Hx Hr. unfold VideoCapture.set_fps.
  change (let? q := truediv_int (2 ^ 32) fps in
          int_of_number (min_int_float (2 ^ 32) q)) with (max_den_of fps).
  rewrite Hmax. unfold bind at 1, lift at 1.
  rewrite Hx. cbn [obind]. rewrite Hr. unfold bind at 1, lift at 1.
  change (mk_streamparm _ _) with (streamparm_of r).
  unfold VideoCapture._ioctl, bind. rewrite (ioctl_open _ _ _ Hc).
  unfold ioctl_answer.
  destruct (fst (k_ioctl S_PARM (streamparm_of r) (kern w))); reflexivity.
Qed.

(** C5 (as the code has it): for every fps whose denominator bound
    [int(min(2**32, 2**32/fps))] is at least 1, on an open device:
    [set_fps] finds a fraction r that is closest to fps among all
    fractions with a denominator up to that bound, which is itself at most
    2**32, and issues one S_PARM ioctl whose time per frame has r's
    denominator as numerator and r's numerator as denominator, each
    reduced to 32 bits, hence unchanged when it fits. *)
Theorem C5_set_fps_stores_the_inverse_of_the_closest_fraction
    (fps : number) (w : World) (x : Fraction) (max_den : Z) :
  closed w = false ->
  Fraction_of_number fps = Return x ->
  max_den_of fps = Return max_den ->
  1 <= max_den ->
  exists r,
    limit_denominator x max_den = Return r
    /\ 1 <= fr_denominator r <= max_den /\ max_den <= 2 ^ 32
    /\ (forall t : Q, fr_denominator t <= max_den ->
          (Qabs (r - x) <= Qabs (t - x))%Q)
    /\ VideoCapture.set_fps fps w
       = (ioctl_answer S_PARM (streamparm_of r) w (fun _ => tt),
          after_ioctl S_PARM (streamparm_of r) w)
    /\ (0 <= fr_numerator r < 2 ^ 32 -> fr_denominator r < 2 ^ 32 ->
        numerator (timeperframe (streamparm_of r)) = fr_denominator r
        /\ denominator (timeperframe (streamparm_of r)) = fr_numerator r).
Proof.
  intros Hc Hx Hmax Hpos.
  destruct (limit_denominator_closest x max_den
              (Fraction_of_number_lowest_terms _ _ Hx) Hpos)
    as (r & Hr & Hden & Hbest).
  exists r. split; [exact Hr |].
  split; [exact Hden |].
  split; [exact (max_den_of_le _ _ Hmax) |].
  split; [exact Hbest |].
  split; [now apply set_fps_unfold with (x := x) (max_den := max_den) |].
  intros Hnum Hd. cbn. rewrite !u32_small; [auto | lia |].
  unfold fr_denominator in *. lia.
Qed.

End FrameRate.

(** The float written 29.97 in Python: the binary64 value closest to it. *)
Definition fps_29_97 : float := 0x1.df851eb851eb8p+4%float.

Lemma C5_witness :
  exists r,
    limit_denominator (8435805052018360 # 281474976710656) 143308885 = Return r
    /\ VideoCapture.set_fps (KS := scripted) (Float fps_29_97) (world0 driver0)
       = (Return tt,
          after_ioctl (KS := scripted) S_PARM
            (mk_streamparm 1 (mk_fract 100 2997)) (world0 driver0)).
Proof.
  destruct (C5_set_fps_stores_the_inverse_of_the_closest_fraction
              (KS := scripted) (Float fps_29_97) (world0 driver0)
              (Qred (8435805052018360 # 281474976710656)) 143308885)
    as (r & Hr & _ & _ & _ & Hset & _).
  - reflexivity.
  - vm_compute. reflexivity.
  - vm_compute. reflexivity.
  - lia.
  - exists r. split.
    + rewrite <- Hr. vm_compute. reflexivity.
    + rewrite Hset. assert (r = 2997 # 100) as ->.
      { vm_compute in Hr. now injection Hr as <-. }
      reflexivity.
Defined.

(** C5, refuted as stated: 2**33 frames per second is a positive fps for
    which [set_fps] raises ValueError and submits nothing; for 2**32 the
    numerator of the fraction does not fit the 32-bit field and 0 is
    stored in its place. *)
Lemma C5_counterexample :
  VideoCapture.set_fps (KS := scripted) (Int (2 ^ 33)) (world0 driver0)
  = (Raise (ValueError "max_denominator should be at least 1"), world0 driver0)
  /\ trace (snd (VideoCapture.set_fps (KS := scripted) (Int (2 ^ 32))
                   (world0 driver0)))
     = [EvIoctl S_PARM (mk_streamparm 1 (mk_fract 1 0))].
Proof. split; vm_compute; reflexivity. Qed.

(** [set_fps(fps)] followed by [get_fps()]. *)
Definition fps_round_trip {KS : Kernel} (fps : number) : M float :=
  VideoCapture.set_fps fps ;;; VideoCapture.get_fps.

(** C6: on a driver that hands back the time per frame it was given, from
    any state of the rest of that driver: setting 30 frames per second, as
    an int or as a float, and reading the rate back gives the float 30.0
    exactly; setting the float 29.97 gives back a float that differs from
    2997/100 by less than 1/1000 (it is the float 29.97 itself). *)
Theorem C6_frame_rate_round_trip (d : driver) :
  fst (fps_round_trip (KS := scripted) (Int 30) (world0 d)) = Return 30%float
  /\ fst (fps_round_trip (KS := scripted) (Float 30%float) (world0 d))
     = Return 30%float
  /\ exists (f : float) (q : Fraction),
       fst (fps_round_trip (KS := scripted) (Float fps_29_97) (world0 d))
       = Return f
       /\ f = fps_29_97
       /\ Fraction_of_float f = Return q
       /\ (Qabs (q - (2997 # 100)) < 1 # 1000)%Q.
Proof.
  split; [vm_compute; reflexivity |].
  split; [vm_compute; reflexivity |].
  exists fps_29_97. eexists.
  split; [vm_compute; reflexivity |].
  split; [reflexivity |].
  split; [vm_compute; reflexivity |].
  vm_compute. reflexivity.
Qed.

(** * Further properties of the code *)

(** ** Closing the device *)

Section DeviceClosed.

Context {KS : Kernel}.

(** X1: [Device.close] leaves the device closed, whatever it was before,
    and touches neither the mappings nor the kernel; closing again does
    nothing.  From then on every ioctl through the device raises
    ValueError without reaching the kernel, so [start] raises, while
    [stop] returns normally; neither adds to the trace. *)
Theorem Device_close_is_final (self : Device.t) (w : World) :
  let w1 := snd (Device.close self w) in
  fst (Device.close self w) = Return self
  /\ closed w1 = true /\ live w1 = live w /\ kern w1 = kern w
  /\ trace w1 = trace w ++ (if closed w then [] else [EvFileClose])
  /\ Device.close self w1 = (Return self, w1)
  /\ (forall (T : Type) (request : IOC T) (arg : T),
        Device._ioctl request arg w1
        = (Raise (ValueError "I/O operation on closed file"), w1))
  /\ VideoCapture.start w1
     = (Raise (ValueError "I/O operation on closed file"), w1)
  /\ VideoCapture.stop w1 = (Return tt, w1).
Proof.
  assert (Hshut : forall w0, closed w0 = true ->
            Device.close self w0 = (Return self, w0)).
  { intros w0 Hc. unfold Device.close, Device.is_closed, bind, ret.
    now rewrite Hc. }
  assert (Hfinal : forall w1, closed w1 = true ->
    Device.close self w1 = (Return self, w1)
    /\ (forall (T : Type) (request : IOC T) (arg : T),
          Device._ioctl request arg w1
          = (Raise (ValueError "I/O operation on closed file"), w1))
    /\ VideoCapture.start w1
       = (Raise (ValueError "I/O operation on closed file"), w1)
    /\ VideoCapture.stop w1 = (Return tt, w1)).
  { intros w1 Hc. split; [now apply Hshut |]. split; [| split].
    - intros T request arg. now apply ioctl_closed.
    - unfold VideoCapture.start, VideoCapture._ioctl.
      now rewrite (bind_Raise _ _ _ _ _ (ioctl_closed _ _ _ Hc)).
    - unfold VideoCapture.stop, Device.is_closed, bind, ret. now rewrite Hc. }
  cbv zeta. destruct (closed w) eqn:Hc.
  - rewrite (Hshut w Hc). cbn [fst snd]. rewrite app_nil_r.
    repeat (split; [first [reflexivity | assumption] |]). now apply Hfinal.
  - rewrite (Device_close_open self w Hc). cbn [fst snd closed live kern trace].
    repeat (split; [reflexivity |]). now apply Hfinal.
Qed.

End DeviceClosed.

(** ** Closing slots and pools *)

Definition is_live {KS : Kernel} (w : World) (m : mapping) : bool :=
  existsb (mapping_eqb m) (live w).

(** The mappings of [ms] taken out of a list of live mappings. *)
Definition without (ms : list mapping) (l : list mapping) : list mapping :=
  filter (fun m' => negb (existsb (fun m => mapping_eqb m m') ms)) l.

Section Closing.

Context {KS : Kernel}.

Lemma filter_filter {A} (f g : A -> bool) (l : list A) :
  filter f (filter g l) = filter (fun x => g x && f x) l.
Proof.
  induction l as [| x l IH]; cbn; [reflexivity |].
  destruct (g x); cbn; [destruct (f x) |]; now rewrite IH.
Qed.

Lemma without_cons m ms l :
  without ms (filter (fun m' => negb (mapping_eqb m m')) l) = without (m :: ms) l.
Proof.
  unfold without. rewrite filter_filter. apply filter_ext. intros m'. cbn.
  now rewrite negb_orb.
Qed.

Lemma without_nil l : without [] l = l.
Proof.
  unfold without. cbn. induction l as [| x l IH]; cbn; now rewrite ?IH.
Qed.

Lemma without_one m l :
  without [m] l = filter (fun m' => negb (mapping_eqb m m')) l.
Proof.
  unfold without. apply filter_ext. intros m'. cbn. now rewrite orb_false_r.
Qed.

(** What closing one slot does to the world. *)
Lemma slot_close_world (s : BufferMMAP.t) (w : World) :
  BufferMMAP.close s w
  = (Return (BufferMMAP.mk (BufferMMAP._context_level s) (BufferMMAP.index s)
               (BufferMMAP.buffer_type s) (BufferMMAP.queue s) None
               (BufferMMAP.length s)),
     mk_world (kern w) (closed w) (without (mappings_of [s]) (live w))
       (next_map w) (trace w ++ map EvMunmap (mappings_of [s]))).
Proof.
  unfold BufferMMAP.close, mappings_of. cbn [flat_map].
  destruct s as [lvl idx bt q [m |] len]; cbn.
  - unfold mmap_close, bind, emit, ret. cbn. now rewrite without_one.
  - unfold ret. rewrite without_nil, app_nil_r. now destruct w.
Qed.

Lemma mappings_of_cons s slots :
  mappings_of (s :: slots) = mappings_of [s] ++ mappings_of slots.
Proof. unfold mappings_of. cbn. now rewrite app_nil_r. Qed.

Lemma without_app ms1 ms2 l :
  without ms2 (without ms1 l) = without (ms1 ++ ms2) l.
Proof.
  unfold without. rewrite filter_filter. apply filter_ext. intros m'.
  now rewrite existsb_app, negb_orb.
Qed.

(** What closing all the slots of a pool does to the world. *)
Lemma close_all_world (slots : list BufferMMAP.t) :
  forall w, exists slots',
    Buffers.close_all slots w
    = (Return slots',
       mk_world (kern w) (closed w) (without (mappings_of slots) (live w))
         (next_map w) (trace w ++ map EvMunmap (mappings_of slots)))
    /\ Forall (fun s => BufferMMAP.mmap s = None) slots'.
Proof.
  induction slots as [| s slots IH]; intros w.
  - exists []. cbn. unfold ret. rewrite without_nil, app_nil_r.
    split; [now destruct w | constructor].
  - cbn [Buffers.close_all].
    rewrite (bind_Return _ _ _ _ _ (slot_close_world s w)).
    set (w1 := mk_world _ _ _ _ _).
    destruct (IH w1) as (slots' & Hs & Hn).
    rewrite (bind_Return _ _ _ _ _ Hs). unfold ret. eexists. split.
    + unfold w1. cbn [kern closed live next_map trace].
      rewrite without_app, <- app_assoc, <- map_app, <- mappings_of_cons.
      reflexivity.
    + constructor; [reflexivity | exact Hn].
Qed.

Lemma is_live_without ms l m :
  In m ms -> existsb (mapping_eqb m) (without ms l) = false.
Proof.
  intros Hin. apply not_true_is_false. intros H.
  apply existsb_exists in H as (m' & Hm' & Heq).
  unfold without in Hm'. apply filter_In in Hm' as [_ Hneg].
  apply negb_true_iff in Hneg.
  assert (Hex : existsb (fun m0 => mapping_eqb m0 m') ms = true)
    by (apply existsb_exists; eauto).
  congruence.
Qed.

(** X2: closing a slot unmaps its region once and forgets it: the slot's
    mapping is no longer live, a second [close] changes nothing, and a
    [raw_read] on the closed slot raises TypeError without copying or
    queueing anything. *)
Theorem slot_close_is_final (s : BufferMMAP.t) (w : World) (m : mapping)
    (buff : v4l2_buffer) :
  BufferMMAP.mmap s = Some m ->
  exists s' w1,
    BufferMMAP.close s w = (Return s', w1)
    /\ BufferMMAP.mmap s' = None
    /\ trace w1 = trace w ++ [EvMunmap m]
    /\ is_live w1 m = false
    /\ BufferMMAP.close s' w1 = (Return s', w1)
    /\ BufferMMAP.raw_read s' buff w1
       = (Raise (TypeError "'NoneType' object is not subscriptable"), w1).
Proof.
  intros Hm. rewrite slot_close_world. do 2 eexists.
  split; [reflexivity |].
  assert (Hms : mappings_of [s] = [m])
    by (unfold mappings_of; cbn; now rewrite Hm).
  rewrite Hms. cbn [BufferMMAP.mmap trace map].
  repeat split.
  - unfold is_live. cbn [live]. apply is_live_without. now left.
Qed.

(** What closing a pool that holds slots does. *)
Lemma pool_close_world (self : Buffers.t) (w : World)
    (s : BufferMMAP.t) (slots : list BufferMMAP.t) :
  Buffers.buffers self = Some (s :: slots) ->
  Buffers.close self w
  = (Return (Buffers.set_buffers self None),
     mk_world (kern w) (closed w)
       (without (mappings_of (s :: slots)) (live w)) (next_map w)
       (trace w ++ map EvMunmap (mappings_of (s :: slots)))).
Proof.
  intros Hs. unfold Buffers.close. rewrite Hs.
  destruct (close_all_world (s :: slots) w) as (slots' & Hc & _).
  now rewrite (bind_Return _ _ _ _ _ Hc).
Qed.

(** X3: closing a pool that holds slots unmaps every mapping its slots
    hold, once each and in slot order, and leaves the pool without slots;
    none of those mappings is live afterwards, a second [close] changes
    nothing, and [raw_read] on the closed pool raises TypeError before any
    ioctl. *)
Theorem pool_close_is_final (self : Buffers.t) (w : World)
    (s : BufferMMAP.t) (slots : list BufferMMAP.t) :
  Buffers.buffers self = Some (s :: slots) ->
  let self' := Buffers.set_buffers self None in
  let w1 := snd (Buffers.close self w) in
  Buffers.close self w
  = (Return self',
     mk_world (kern w) (closed w)
       (without (mappings_of (s :: slots)) (live w)) (next_map w)
       (trace w ++ map EvMunmap (mappings_of (s :: slots))))
  /\ Forall (fun m => is_live w1 m = false) (mappings_of (s :: slots))
  /\ Buffers.close self' w1 = (Return self', w1)
  /\ Buffers.raw_read self' w1
     = (Raise (TypeError "'NoneType' object is not subscriptable"), w1).
Proof.
  intros Hs self' w1.
  pose proof (pool_close_world self w s slots Hs) as Hclose.
  split; [exact Hclose |]. unfold w1. rewrite Hclose. cbn [snd].
  split; [| split; reflexivity].
  apply Forall_forall. intros m Hm. unfold is_live. cbn [live].
  now apply is_live_without.
Qed.

End Closing.

(** ** Building a pool and closing it again *)

(** Mapping identifiers are handed out in increasing order: those of the
    live mappings are all below the next one. *)
Definition fresh_ids {KS : Kernel} (w : World) : Prop :=
  Forall (fun m => (map_id m < next_map w)%nat) (live w).

Section PoolRoundTrip.

Context {KS : Kernel}.

Lemma ioctl_keeps_mappings {T} (request : IOC T) (arg : T) (w : World) :
  live (snd (Device._ioctl request arg w)) = live w
  /\ next_map (snd (Device._ioctl request arg w)) = next_map w.
Proof.
  destruct (closed w) eqn:Hc.
  - now rewrite (ioctl_closed _ _ _ Hc).
  - now rewrite (ioctl_open _ _ _ Hc).
Qed.

Lemma mmap_Return_world length offset w m w' :
  mmap_mmap length offset w = (Return m, w') ->
  m = mk_mapping (next_map w) length offset
  /\ live w' = live w ++ [m] /\ next_map w' = S (next_map w).
Proof.
  unfold mmap_mmap, bind, emit. cbn.
  destruct (k_mmap length offset (kern w)) as [[[] | e] k1]; [| discriminate].
  intros H; injection H as <- <-. cbn. auto.
Qed.

(** A slot that was built holds the next mapping, of the length the slot
    records. *)
Lemma slot_init_world index bt q w s w' :
  BufferMMAP.__init__ index bt q w = (Return s, w') ->
  exists m,
    BufferMMAP.mmap s = Some m /\ map_id m = next_map w
    /\ map_length m = BufferMMAP.length s
    /\ live w' = live w ++ [m] /\ next_map w' = S (next_map w).
Proof.
  unfold BufferMMAP.__init__. intros H.
  apply bind_inv_Return in H as (b & w1 & Hb & H).
  apply bind_inv_Return in H as ([] & w2 & Hf & H).
  apply bind_inv_Return in H as (m & w3 & Hm & H).
  apply bind_inv_Return in H as ([] & w4 & Hq & H).
  unfold ret in H. injection H as <- <-. cbn.
  pose proof (ioctl_keeps_mappings QUERYBUF (BufferMMAP._v4l2_buffer index bt) w)
    as [Hl1 Hn1].
  unfold BufferMMAP._ioctl in Hb. rewrite Hb in Hl1, Hn1. cbn in Hl1, Hn1.
  assert (w2 = w1) as ->.
  { unfold fileno in Hf. destruct (closed w1); [discriminate |].
    now injection Hf. }
  apply mmap_Return_world in Hm as (-> & Hl3 & Hn3).
  assert (Hw4 : live w4 = live w3 /\ next_map w4 = next_map w3).
  { destruct q.
    - apply bind_inv_Return in Hq as (b' & w5 & Hq & Hr).
      unfold ret in Hr. injection Hr as <-.
      pose proof (ioctl_keeps_mappings QBUF b w3) as Hk.
      unfold BufferMMAP._ioctl in Hq. now rewrite Hq in Hk.
    - unfold ret in Hq. now injection Hq as <-. }
  destruct Hw4 as [Hl4 Hn4]. eexists. split; [reflexivity |].
  cbn. rewrite Hl4, Hn4, Hl3, Hn3, Hl1, Hn1. auto.
Qed.

(** The slots of a pool that was built hold the mappings made for them,
    which are the newest live mappings, in slot order. *)
Lemma created_mappings (self : Buffers.t) (l : list Z) :
  forall w slots w',
    comprehension (slot_init self) l w = (Return slots, w') ->
    live w' = live w ++ mappings_of slots
    /\ map map_id (mappings_of slots) = seq (next_map w) (List.length l)
    /\ Forall (fun s => exists m, BufferMMAP.mmap s = Some m
                                  /\ map_length m = BufferMMAP.length s) slots.
Proof.
  induction l as [| i l IH]; intros w slots w' H.
  - cbn in H. unfold ret in H. injection H as <- <-. cbn.
    rewrite app_nil_r. auto.
  - cbn [comprehension] in H.
    apply bind_inv_Return in H as (s & w1 & Hs & H).
    apply bind_inv_Return in H as (ss & w2 & Hss & H).
    unfold ret in H. injection H as <- <-.
    apply slot_init_world in Hs as (m & Hm & Hid & Hlen & Hl1 & Hn1).
    apply IH in Hss as (Hl2 & Hids & Hall).
    assert (Hone : mappings_of [s] = [m])
      by (unfold mappings_of; cbn; now rewrite Hm).
    rewrite mappings_of_cons, Hone. cbn [app map List.length seq].
    rewrite Hl2, Hl1, <- app_assoc, Hids, Hn1, Hid. repeat split.
    constructor; [now exists m | exact Hall].
Qed.

Lemma without_fresh (ms l : list mapping) (n : nat) :
  Forall (fun m => (map_id m < n)%nat) l ->
  Forall (fun m => (n <= map_id m)%nat) ms ->
  without ms (l ++ ms) = l.
Proof.
  intros Hl Hms. unfold without. rewrite filter_app.
  replace (filter _ ms) with (@nil mapping).
  - rewrite app_nil_r. apply forallb_filter_id. apply forallb_forall.
    intros m' Hm'. apply negb_true_iff, not_true_is_false. intros H.
    apply existsb_exists in H as (m & Hm & Heq).
    unfold mapping_eqb in Heq. apply Nat.eqb_eq in Heq.
    rewrite Forall_forall in Hl, Hms.
    specialize (Hl m' Hm'). specialize (Hms m Hm). lia.
  - symmetry. induction ms as [| m ms' IH] in Hms |- *; [reflexivity |].
    clear IH.
    assert (Hnone : forall m', In m' (m :: ms') ->
              negb (existsb (fun m0 => mapping_eqb m0 m') (m :: ms')) = false).
    { intros m' Hm'. apply negb_false_iff, existsb_exists.
      exists m'. split; [exact Hm' |]. apply Nat.eqb_refl. }
    generalize dependent (m :: ms'). intros l0 _ Hnone.
    assert (Hgen : forall l1, incl l1 l0 ->
              filter (fun m' => negb (existsb (fun m0 => mapping_eqb m0 m') l0))
                     l1 = []).
    { induction l1 as [| x l1 IH1]; intros Hincl; [reflexivity |].
      cbn. rewrite (Hnone x) by (apply Hincl; now left).
      apply IH1. intros y Hy. apply Hincl. now right. }
    apply Hgen, incl_refl.
Qed.

(** X4: a pool that was built and is then closed leaves the mappings of
    the process as they were before it was built: every region mapped for
    the pool, and no other, is unmapped, once.  Each slot recorded the
    length of its own mapping. *)
Theorem pool_create_then_close_restores_mappings
    (buffer_type : BufferType) (buffer_size : Z) (buffer_queue : bool)
    (memory : Memory) (w : World) (self : Buffers.t) (w1 : World) :
  fresh_ids w ->
  Buffers.__init__ buffer_type buffer_size buffer_queue memory w
  = (Return self, w1) ->
  exists slots self' w2,
    Buffers.buffers self = Some slots
    /\ live w1 = live w ++ mappings_of slots
    /\ Forall (fun s => exists m, BufferMMAP.mmap s = Some m
                                  /\ map_length m = BufferMMAP.length s) slots
    /\ Buffers.close self w1 = (Return self', w2)
    /\ live w2 = live w
    /\ trace w2 = trace w1 ++ map EvMunmap (mappings_of slots).
Proof.
  intros Hfresh Hinit. unfold Buffers.__init__ in Hinit.
  apply bind_inv_Return in Hinit as (slots & w0 & Hcreate & Hret).
  unfold ret in Hret. injection Hret as <- <-.
  unfold Buffers._create_buffers in Hcreate. cbn in Hcreate.
  destruct (Memory_neq memory MMAP); [discriminate |].
  apply bind_inv_Return in Hcreate as (r & wr & Hreq & Hcreate).
  destruct (rb_count r =? 0); [discriminate |].
  pose proof (ioctl_keeps_mappings REQBUFS
                (mk_requestbuffers (u32 buffer_size) (u32 buffer_type)
                   (u32 (Memory_value memory))) w) as [Hlr Hnr].
  unfold Buffers._ioctl in Hreq. rewrite Hreq in Hlr, Hnr. cbn in Hlr, Hnr.
  apply (created_mappings (Buffers.mk 0 buffer_size buffer_type buffer_queue
                             memory None)) in Hcreate
    as (Hlive & Hids & Hlen).
  rewrite Hlr in Hlive. rewrite Hnr in Hids.
  assert (Hback : without (mappings_of slots) (live w0) = live w).
  { rewrite Hlive. apply without_fresh with (n := next_map w).
    - exact Hfresh.
    - apply Forall_forall. intros m Hm.
      apply (in_map map_id) in Hm. rewrite Hids in Hm.
      apply in_seq in Hm. lia. }
  exists slots. cbn [Buffers.buffers].
  destruct slots as [| s slots].
  - do 2 eexists. split; [reflexivity |]. split; [exact Hlive |].
    split; [exact Hlen |]. unfold Buffers.close. cbn [Buffers.buffers].
    unfold ret. split; [reflexivity |]. cbn in *.
    rewrite app_nil_r in *. auto.
  - pose proof (pool_close_world
                  (Buffers.mk 0 buffer_size buffer_type buffer_queue memory
                     (Some (s :: slots))) w0 s slots eq_refl) as Hclose.
    do 2 eexists. split; [reflexivity |]. split; [exact Hlive |].
    split; [exact Hlen |]. split; [exact Hclose |].
    cbn [live trace]. auto.
Qed.

End PoolRoundTrip.

(** ** Reading frames *)

(** An event that is a QBUF ioctl. *)
Definition is_qbuf (e : event) : bool :=
  match e with
  | EvIoctl QBUF _ => true
  | _ => false
  end.

(** The QBUF requests of a trace. *)
Definition qbufs (tr : list event) : list event := filter is_qbuf tr.

Section Reading.

Context {KS : Kernel}.

(** Computations that issue no QBUF, whatever their outcome. *)
Definition NoQbuf {A} (m : M A) : Prop :=
  forall w, qbufs (trace (snd (m w))) = qbufs (trace w).

Lemma NoQbuf_bind {A B} (m : M A) (f : A -> M B) :
  NoQbuf m -> (forall a, NoQbuf (f a)) -> NoQbuf (bind m f).
Proof.
  intros Hm Hf w. unfold bind. specialize (Hm w).
  destruct (m w) as [[a | e |] w1]; cbn in *; auto.
  now rewrite Hf.
Qed.

Lemma NoQbuf_ret {A} (a : A) : NoQbuf (ret a).
Proof. now intros w. Qed.

Lemma NoQbuf_raise {A} e : NoQbuf (@raise KS A e).
Proof. now intros w. Qed.

Lemma NoQbuf_fileno : NoQbuf fileno.
Proof. intros w. unfold fileno. now destruct (closed w). Qed.

Lemma NoQbuf_emit e : is_qbuf e = false -> NoQbuf (emit e).
Proof.
  intros He w. cbn. unfold qbufs. rewrite filter_app. cbn. rewrite He.
  apply app_nil_r.
Qed.

Lemma NoQbuf_ioctl {T} (request : IOC T) (arg : T) :
  is_qbuf (EvIoctl request arg) = false ->
  NoQbuf (Device._ioctl request arg).
Proof.
  intros He. unfold Device._ioctl, fcntl_ioctl, fcntl_ioctl_fd.
  apply NoQbuf_bind; [apply NoQbuf_fileno | intros _].
  apply NoQbuf_bind; [now apply NoQbuf_emit | intros _].
  intros w. now destruct (k_ioctl request arg (kern w)) as [[a | e] k1].
Qed.

Lemma NoQbuf_mmap length offset : NoQbuf (mmap_mmap length offset).
Proof.
  unfold mmap_mmap. apply NoQbuf_bind; [now apply NoQbuf_emit | intros _].
  intros w. now destruct (k_mmap length offset (kern w)) as [[[] | e] k1].
Qed.

Lemma NoQbuf_comprehension {A B} (f : A -> M B) (l : list A) :
  (forall x, NoQbuf (f x)) -> NoQbuf (comprehension f l).
Proof.
  intros Hf. induction l as [| x xs IH]; cbn.
  - apply NoQbuf_ret.
  - apply NoQbuf_bind; [apply Hf | intros b].
    apply NoQbuf_bind; [apply IH | intros bs]. apply NoQbuf_ret.
Qed.

Lemma NoQbuf_pool_init buffer_type buffer_size memory :
  NoQbuf (Buffers.__init__ buffer_type buffer_size false memory).
Proof.
  unfold Buffers.__init__.
  apply NoQbuf_bind; [| intros bs; apply NoQbuf_ret].
  unfold Buffers._create_buffers. cbn.
  destruct (Memory_neq memory MMAP); [apply NoQbuf_raise |].
  apply NoQbuf_bind; [now apply NoQbuf_ioctl | intros r].
  destruct (rb_count r =? 0); [apply NoQbuf_raise |].
  apply NoQbuf_comprehension. intros index.
  unfold BufferMMAP.__init__, BufferMMAP._ioctl.
  apply NoQbuf_bind; [now apply NoQbuf_ioctl | intros b].
  apply NoQbuf_bind; [apply NoQbuf_fileno | intros _].
  apply NoQbuf_bind; [apply NoQbuf_mmap | intros m].
  apply NoQbuf_bind; apply NoQbuf_ret || (intros; apply NoQbuf_ret).
Qed.

Lemma getitem_In {A} (l : list A) i x : list_getitem l i = Some x -> In x l.
Proof.
  unfold list_getitem. destruct (0 <=? i); [apply nth_error_In |].
  destruct (0 <=? _); [apply nth_error_In | discriminate].
Qed.

(** X5: a pool built without auto-queue never hands a buffer to the
    driver: its construction issues no QBUF whatever happens, and a read
    on it, when DQBUF reports a mapped slot of the pool, issues the DQBUF,
    copies the first [bytesused] bytes of that slot's mapping, returns
    them, and issues nothing else, leaving the slot dequeued. *)
Theorem pool_without_auto_queue_never_queues
    (self : Buffers.t) (w : World) (slots : list BufferMMAP.t)
    (s0 s : BufferMMAP.t) (b : v4l2_buffer) (k1 : kstate) (m : mapping) :
  closed w = false ->
  Buffers.buffer_queue self = false ->
  queue_flags_agree self ->
  Buffers.buffers self = Some slots ->
  list_getitem slots 0 = Some s0 ->
  let request :=
    BufferMMAP._v4l2_buffer (BufferMMAP.index s0) (BufferMMAP.buffer_type s0) in
  k_ioctl DQBUF request (kern w) = (KOk b, k1) ->
  list_getitem slots (buf_index b) = Some s ->
  BufferMMAP.mmap s = Some m ->
  In m (live w) ->
  Buffers.raw_read self w
  = (Return (slice_to (mmap_bytes k1 m) (buf_bytesused b)),
     mk_world k1 false (live w) (next_map w)
       (trace w ++ [EvIoctl DQBUF request; EvCopy m (buf_bytesused b)]))
  /\ (forall buffer_type buffer_size memory w0,
        qbufs (trace (snd (Buffers.__init__ buffer_type buffer_size false
                             memory w0))) = qbufs (trace w0)).
Proof.
  intros Hc Hq Hagree Hslots Hs0 request Hk Hs Hm Hlive.
  split; [| intros; apply NoQbuf_pool_init].
  unfold queue_flags_agree in Hagree. rewrite Hslots in Hagree.
  assert (Hsq : BufferMMAP.queue s = false).
  { rewrite <- Hq. rewrite Forall_forall in Hagree. apply Hagree.
    now apply getitem_In in Hs. }
  unfold Buffers.raw_read. rewrite Hslots, Hs0. fold request.
  unfold Buffers._ioctl.
  rewrite (bind_Return _ _ _ _ _ (ioctl_open_ok _ _ _ _ _ Hc Hk)).
  rewrite Hs. unfold BufferMMAP.raw_read. rewrite Hm, Hsq.
  unfold mmap_slice_to, bind, emit, ret, after_ioctl. cbn.
  rewrite Hk. cbn.
  replace (existsb (mapping_eqb m) (live w)) with true.
  2:{ symmetry. apply existsb_exists. exists m. split; [assumption |].
      unfold mapping_eqb. apply Nat.eqb_refl. }
  rewrite Hc, <- !app_assoc. reflexivity.
Qed.

(** X6: a dequeue that fails is the end of the read.  When DQBUF is
    refused, [raw_read] raises the OSError after that one ioctl; when DQBUF
    reports an index that the pool does not have, it raises IndexError
    after that one ioctl.  Either way nothing is copied and no QBUF
    follows, and on a closed device or a closed pool not even the DQBUF is
    issued. *)
Theorem failed_dequeue_ends_the_read
    (self : Buffers.t) (w : World) (slots : list BufferMMAP.t)
    (s0 : BufferMMAP.t) :
  Buffers.buffers self = Some slots ->
  list_getitem slots 0 = Some s0 ->
  let request :=
    BufferMMAP._v4l2_buffer (BufferMMAP.index s0) (BufferMMAP.buffer_type s0) in
  (closed w = true ->
     Buffers.raw_read self w
     = (Raise (ValueError "I/O operation on closed file"), w))
  /\ (forall errno k1,
        closed w = false ->
        k_ioctl DQBUF request (kern w) = (KErr errno, k1) ->
        Buffers.raw_read self w
        = (Raise (OSError errno), after_ioctl DQBUF request w))
  /\ (forall b k1,
        closed w = false ->
        k_ioctl DQBUF request (kern w) = (KOk b, k1) ->
        list_getitem slots (buf_index b) = None ->
        Buffers.raw_read self w
        = (Raise IndexError, after_ioctl DQBUF request w))
  /\ Buffers.raw_read (Buffers.set_buffers self None) w
     = (Raise (TypeError "'NoneType' object is not subscriptable"), w).
Proof.
  intros Hslots Hs0 request. unfold Buffers.raw_read at 1 2 3.
  rewrite Hslots, Hs0. fold request. unfold Buffers._ioctl.
  split; [| split; [| split; [| reflexivity]]].
  - intros Hc. now rewrite (bind_Raise _ _ _ _ _ (ioctl_closed _ _ _ Hc)).
  - intros errno k1 Hc Hk. unfold bind. rewrite (ioctl_open _ _ _ Hc).
    unfold ioctl_answer. now rewrite Hk.
  - intros b k1 Hc Hk Hnone.
    rewrite (bind_Return _ _ _ _ _ (ioctl_open_ok _ _ _ _ _ Hc Hk)).
    now rewrite Hnone.
Qed.

Lemma slice_to_length {A} (l : list A) n :
  (List.length (slice_to l n) <= List.length l)%nat.
Proof.
  unfold slice_to. destruct (0 <=? n); rewrite length_firstn; lia.
Qed.

Lemma slice_to_length_n {A} (l : list A) n :
  0 <= n -> Z.of_nat (List.length (slice_to l n)) <= n.
Proof.
  intros Hn. unfold slice_to.
  replace (0 <=? n) with true by (symmetry; apply Z.leb_le; lia).
  rewrite length_firstn. lia.
Qed.

Lemma ioctl_Return_answer {T} (request : IOC T) (arg : T) (w : World) a w' :
  Device._ioctl request arg w = (Return a, w') ->
  closed w = false
  /\ exists k1, k_ioctl request arg (kern w) = (KOk a, k1)
                /\ w' = after_ioctl request arg w.
Proof.
  destruct (closed w) eqn:Hc.
  - rewrite (ioctl_closed _ _ _ Hc). discriminate.
  - rewrite (ioctl_open _ _ _ Hc). unfold ioctl_answer, after_ioctl.
    destruct (k_ioctl request arg (kern w)) as [[a' | e] k1]; cbn;
      intros H; [| discriminate].
    injection H as <- <-. split; [reflexivity |]. now exists k1.
Qed.

(** X7: the frame that a read returns is never longer than the mapping of
    the slot it was taken from, nor than the [bytesused] that the driver
    reported, even when the driver reports more bytes than the slot
    holds. *)
Theorem frame_fits_its_slot (self : Buffers.t) (w : World)
    (frame : list Byte.byte) (w' : World) :
  Buffers.raw_read self w = (Return frame, w') ->
  exists slots s0 b k1 s m,
    Buffers.buffers self = Some slots
    /\ list_getitem slots 0 = Some s0
    /\ k_ioctl DQBUF (BufferMMAP._v4l2_buffer (BufferMMAP.index s0)
                        (BufferMMAP.buffer_type s0)) (kern w) = (KOk b, k1)
    /\ list_getitem slots (buf_index b) = Some s
    /\ BufferMMAP.mmap s = Some m
    /\ Z.of_nat (List.length frame) <= Z.max 0 (map_length m)
    /\ (0 <= buf_bytesused b ->
        Z.of_nat (List.length frame) <= buf_bytesused b).
Proof.
  unfold Buffers.raw_read. intros H.
  destruct (Buffers.buffers self) as [slots |]; [| discriminate].
  destruct (list_getitem slots 0) as [s0 |] eqn:Hs0; [| discriminate].
  apply bind_inv_Return in H as (b & w1 & Hb & H).
  unfold Buffers._ioctl in Hb.
  apply ioctl_Return_answer in Hb as (Hc & k1 & Hk & ->).
  destruct (list_getitem slots (buf_index b)) as [s |] eqn:Hs; [| discriminate].
  unfold BufferMMAP.raw_read in H.
  destruct (BufferMMAP.mmap s) as [m |] eqn:Hm; [| discriminate].
  apply bind_inv_Return in H as (result & w2 & Hcopy & H).
  apply bind_inv_Return in H as ([] & w3 & _ & H).
  unfold ret in H. injection H as <- <-.
  exists slots, s0, b, k1, s, m. repeat (split; [auto; fail |]).
  unfold mmap_slice_to, bind, emit in Hcopy. cbn in Hcopy.
  destruct (existsb (mapping_eqb m) (live w)); [| discriminate].
  injection Hcopy as <- <-. split.
  - pose proof (slice_to_length
                  (mmap_bytes (snd (k_ioctl DQBUF
                     (BufferMMAP._v4l2_buffer (BufferMMAP.index s0)
                        (BufferMMAP.buffer_type s0)) (kern w))) m)
                  (buf_bytesused b)) as Hle.
    unfold mmap_bytes in Hle at 2. rewrite length_firstn in Hle. lia.
  - intros Hn. now apply slice_to_length_n.
Qed.

End Reading.

(** ** What the enumeration loops ask for *)

(** The index that an ENUM_FRAMEINTERVALS request asks for. *)
Definition interval_request (e : event) : option Z :=
  match e with
  | EvIoctl ENUM_FRAMEINTERVALS v => Some (fi_index v)
  | _ => None
  end.

(** The control id that a QUERY_EXT_CTRL request carries. *)
Definition control_request (e : event) : option Z :=
  match e with
  | EvIoctl QUERY_EXT_CTRL q => Some (qc_id q)
  | _ => None
  end.

Section EnumerationRequests.

Context {KS : Kernel}.

Variable is_PixelFormat : Z -> bool.

Lemma added_first {T} (request : IOC T) (arg : T) (w w' : World) evs :
  added (after_ioctl request arg w) w' evs ->
  added w w' (EvIoctl request arg :: evs).
Proof. apply added_step. Qed.

(** The frame-interval loop sets [val.index] after the request, so each
    request asks for the index of the turn before it, and the first for
    the index the structure started with. *)
Lemma frame_intervals_loop_requests indices :
  forall val res w,
  exists evs,
    added w (snd (frame_intervals_loop indices val res w)) evs
    /\ (List.length evs <= List.length indices)%nat
    /\ map interval_request evs
       = map Some (firstn (List.length evs) (fi_index val :: map u32 indices)).
Proof.
  induction indices as [| index rest IH]; intros val res w.
  - exists []. cbn. split; [apply added_refl | auto].
  - rewrite frame_intervals_loop_step. cbv zeta.
    assert (Hone : forall (o : outcome (list FrameType)),
      exists evs,
        added w (snd (o, after_ioctl ENUM_FRAMEINTERVALS val w)) evs
        /\ (List.length evs <= List.length (index :: rest))%nat
        /\ map interval_request evs
           = map Some (firstn (List.length evs)
                         (fi_index val :: map u32 (index :: rest)))).
    { intros o. exists [EvIoctl ENUM_FRAMEINTERVALS val].
      split; [apply added_step, added_refl |]. cbn. split; [lia | reflexivity]. }
    destruct (fst (k_ioctl ENUM_FRAMEINTERVALS val (kern w)))
      as [val1 | errno].
    + destruct (FrameIntervalType (fi_type val1)) as [ftype |]; [| apply Hone].
      set (val' := mk_frmivalenum _ _ _ _ _ _ _ _ _).
      destruct (fps_bounds ftype val') as [[[fmin fmax] fstep] | e |];
        [| apply Hone | apply Hone].
      match goal with
      | |- context [frame_intervals_loop rest val' ?r ?w1] =>
          destruct (IH val' r w1) as (evs & Hadd & Hlen & Hreq)
      end.
      exists (EvIoctl ENUM_FRAMEINTERVALS val :: evs).
      split; [now apply added_step |]. cbn [List.length map firstn].
      split; [lia |]. cbn [interval_request]. now rewrite Hreq.
    + destruct (errno =? EINVAL); apply Hone.
Qed.

Lemma firstn_short {A} (l : list A) (x : A) n :
  (n <= List.length l)%nat -> firstn n (l ++ [x]) = firstn n l.
Proof.
  intros Hn. rewrite firstn_app.
  replace (n - List.length l)%nat with 0%nat by lia. cbn. apply app_nil_r.
Qed.

(** X8: [get_frame_intervals] asks for index 0 twice and never for index
    127: whatever the driver answers, the indices of its
    ENUM_FRAMEINTERVALS requests, in order, are a prefix of
    0, 0, 1, 2, ..., 126. *)
Theorem frame_interval_requests_repeat_index_0 (fmt width height : Z)
    (w : World) :
  exists evs,
    added w (snd (get_frame_intervals fmt width height w)) evs
    /\ (List.length evs <= 128)%nat
    /\ map interval_request evs
       = map Some (firstn (List.length evs) (0 :: range 127)).
Proof.
  unfold get_frame_intervals.
  destruct (frame_intervals_loop_requests (range 128)
              (mk_frmivalenum 0 (u32 fmt) (u32 width) (u32 height) 0
                 (mk_fract 0 0) (mk_fract 0 0) (mk_fract 0 0) (mk_fract 0 0))
              [] w) as (evs & Hadd & Hlen & Hreq).
  exists evs. split; [exact Hadd |].
  assert (Hlen' : (List.length evs <= 128)%nat).
  { etransitivity; [exact Hlen |]. vm_compute. lia. }
  split; [exact Hlen' |]. rewrite Hreq. cbn [fi_index]. f_equal.
  change (map u32 (range 128)) with (range 127 ++ [127]).
  change (0 :: range 127 ++ [127]) with ((0 :: range 127) ++ [127]).
  apply firstn_short. exact Hlen'.
Qed.

(** What the format enumeration has gathered: image formats of the stream
    types asked for, with pixel formats that [PixelFormat] knows, and the
    set of those pixel formats. *)
Definition formats_gathered (stream_types : list BufferType)
    (formats : list ImageFormat) (pixel_formats : list Z) : Prop :=
  NoDup pixel_formats
  /\ Forall (fun f => is_PixelFormat (if_pixel_format f) = true
                      /\ In (if_type f) stream_types
                      /\ In (if_pixel_format f) pixel_formats) formats
  /\ Forall (fun p => exists f, In f formats /\ if_pixel_format f = p)
            pixel_formats.

Lemma set_add_NoDup x s : NoDup s -> NoDup (set_add x s).
Proof.
  intros Hs. unfold set_add. destruct (existsb (Z.eqb x) s) eqn:Hx; [exact Hs |].
  apply NoDup_app; [exact Hs | repeat constructor; auto |].
  intros y Hy [Heq | []]. subst y.
  assert (existsb (Z.eqb x) s = true)
    by (apply existsb_exists; exists x; split; [exact Hy | apply Z.eqb_refl]).
  congruence.
Qed.

Lemma set_add_In x s y : In y (set_add x s) <-> y = x \/ In y s.
Proof.
  unfold set_add. destruct (existsb (Z.eqb x) s) eqn:Hx.
  - split; [auto |]. intros [-> | H]; [| exact H].
    apply existsb_exists in Hx as (z & Hz & Heq).
    apply Z.eqb_eq in Heq. now subst.
  - rewrite in_app_iff. cbn. intuition auto.
Qed.

Lemma formats_gathered_add types formats pixel_formats stream_type fmt1 :
  formats_gathered types formats pixel_formats ->
  In stream_type types ->
  is_PixelFormat (fd_pixelformat fmt1) = true ->
  formats_gathered types
    (formats ++ [mk_ImageFormat stream_type (fd_description fmt1)
                   (fd_flags fmt1) (fd_pixelformat fmt1)])
    (set_add (fd_pixelformat fmt1) pixel_formats).
Proof.
  intros (Hnd & Hf & Hp) Hin Hknown. split; [now apply set_add_NoDup |]. split.
  - apply Forall_app. split.
    + eapply Forall_impl; [| exact Hf]. intros f (H1 & H2 & H3).
      repeat split; auto. apply set_add_In. now right.
    + constructor; [| constructor]. cbn. repeat split; auto.
      apply set_add_In. now left.
  - apply Forall_forall. intros p Hin'. apply set_add_In in Hin' as [-> | Hin'].
    + eexists. split; [apply in_or_app; right; now left | reflexivity].
    + rewrite Forall_forall in Hp. destruct (Hp p Hin') as (f & Hf1 & Hf2).
      exists f. split; [apply in_or_app; now left | exact Hf2].
Qed.

Lemma enum_fmt_loop_gathers types stream_type indices :
  In stream_type types ->
  forall fmt formats pixel_formats w fmt' formats' pixel_formats' w',
    formats_gathered types formats pixel_formats ->
    enum_fmt_loop is_PixelFormat stream_type indices fmt formats
      pixel_formats w = (Return (fmt', formats', pixel_formats'), w') ->
    formats_gathered types formats' pixel_formats'.
Proof.
  intros Hin. induction indices as [| index rest IH];
    intros fmt formats pixel_formats w fmt' formats' pixel_formats' w' Hg.
  - cbn. unfold ret. intros H. now injection H as <- <- <- <-.
  - rewrite enum_fmt_loop_step. cbv zeta.
    destruct (fst (k_ioctl ENUM_FMT _ (kern w))) as [fmt1 | errno].
    + destruct (is_PixelFormat (fd_pixelformat fmt1)) eqn:Hknown.
      * apply IH. now apply formats_gathered_add.
      * now apply IH.
    + destruct (errno =? EINVAL); [| discriminate].
      intros H. now injection H as <- <- <- <-.
Qed.

Lemma formats_gathered_more types t formats pixel_formats :
  formats_gathered types formats pixel_formats ->
  formats_gathered (t :: types) formats pixel_formats.
Proof.
  intros (Hnd & Hf & Hp). repeat split; auto.
  eapply Forall_impl; [| exact Hf]. intros f (H1 & H2 & H3).
  repeat split; auto. now right.
Qed.

Lemma enum_formats_gathers (done todo : list BufferType) :
  forall fmt formats pixel_formats w formats' pixel_formats' w',
    formats_gathered (done ++ todo) formats pixel_formats ->
    enum_formats is_PixelFormat todo fmt formats pixel_formats w
    = (Return (formats', pixel_formats'), w') ->
    formats_gathered (done ++ todo) formats' pixel_formats'.
Proof.
  revert done. induction todo as [| stream_type rest IH];
    intros done fmt formats pixel_formats w formats' pixel_formats' w' Hg.
  - cbn. unfold ret. intros H. now injection H as <- <- <-.
  - cbn [enum_formats]. intros H.
    apply bind_inv_Return in H as ([[fmt1 formats1] pfs1] & w1 & Hloop & H).
    apply (enum_fmt_loop_gathers (done ++ stream_type :: rest)) in Hloop;
      [| apply in_or_app; right; now left | exact Hg].
    replace (done ++ stream_type :: rest) with ((done ++ [stream_type]) ++ rest)
      in * by now rewrite <- app_assoc.
    eapply IH; eassumption.
Qed.

(** X9: what the format enumeration of [read_info] returns is
    consistent: every image format listed has one of the stream types
    asked for and a pixel format that [PixelFormat] knows (answers with
    another pixel format are skipped), the pixel formats form a set
    without repetition, and that set holds exactly the pixel formats of
    the image formats listed. *)
Theorem format_enumeration_is_consistent
    (stream_types : list BufferType) (fmt : v4l2_fmtdesc) (w : World)
    (formats : list ImageFormat) (pixel_formats : list Z) (w' : World) :
  enum_formats is_PixelFormat stream_types fmt [] [] w
  = (Return (formats, pixel_formats), w') ->
  formats_gathered stream_types formats pixel_formats.
Proof.
  intros H.
  apply (enum_formats_gathers [] stream_types) in H; [exact H |].
  repeat split; constructor.
Qed.

End EnumerationRequests.

Lemma format_enumeration_witness :
  exists formats,
    fst (enum_formats (KS := scripted) (fun p => negb (p =? 1001))
           [VIDEO_CAPTURE] (mk_fmtdesc 0 0 0 EmptyString 0) [] []
           (world0 driver0))
    = Return (formats, [1000; 1002])
    /\ formats_gathered (fun p => negb (p =? 1001)) [VIDEO_CAPTURE] formats
         [1000; 1002].
Proof.
  eexists. split; [vm_compute; reflexivity |].
  eapply (format_enumeration_is_consistent (KS := scripted)
            (fun p => negb (p =? 1001)) [VIDEO_CAPTURE]
            (mk_fmtdesc 0 0 0 EmptyString 0) (world0 driver0)).
  vm_compute. reflexivity.
Defined.

(** ** The controls listed at device open *)

(** Bits 31 and 30 of a control id: NEXT_CTRL and NEXT_COMPOUND. *)
Definition asks_for_next (id : Z) : Prop :=
  Z.testbit id 31 = true /\ Z.testbit id 30 = true.

(** A control that is neither disabled nor the heading of a class. *)
Definition is_usable (q : v4l2_query_ext_ctrl) : Prop :=
  Z.land (qc_flags q) V4L2_CTRL_FLAG_DISABLED = 0
  /\ qc_type q <> V4L2_CTRL_TYPE_CTRL_CLASS.

Section ControlsListed.

Context {KS : Kernel}.

Lemma next_flags_set (id : Z) :
  asks_for_next
    (u32 (Z.lor id (Z.lor V4L2_CTRL_FLAG_NEXT_CTRL V4L2_CTRL_FLAG_NEXT_COMPOUND))).
Proof.
  unfold asks_for_next, u32.
  rewrite !Z.mod_pow2_bits_low by lia. rewrite !Z.lor_spec.
  change (Z.testbit V4L2_CTRL_FLAG_NEXT_CTRL 31) with true.
  change (Z.testbit V4L2_CTRL_FLAG_NEXT_COMPOUND 30) with true.
  cbn [orb]. rewrite !orb_true_r. auto.
Qed.

Lemma keep_control_usable q acc :
  Forall is_usable acc -> Forall is_usable (keep_control q acc).
Proof.
  intros Hacc. unfold keep_control.
  destruct (Z.land (qc_flags q) V4L2_CTRL_FLAG_DISABLED =? 0) eqn:Hf;
    [| exact Hacc].
  destruct (qc_type q =? V4L2_CTRL_TYPE_CTRL_CLASS) eqn:Ht; [exact Hacc |].
  cbn. apply Forall_app. split; [exact Hacc |].
  constructor; [| constructor]. split.
  - now apply Z.eqb_eq.
  - now apply Z.eqb_neq.
Qed.

Lemma keep_control_length q acc :
  (List.length (keep_control q acc) <= S (List.length acc))%nat.
Proof.
  unfold keep_control. destruct (_ && _); [| lia].
  rewrite length_app. cbn. lia.
Qed.

Lemma controls_loop_lists fuel :
  forall q acc w controls w',
    Forall is_usable acc -> asks_for_next (qc_id q) ->
    Device.controls_loop fuel q acc w = (Return controls, w') ->
    Forall is_usable controls
    /\ exists evs,
         added w w' evs
         /\ Forall (fun e => exists id,
                      control_request e = Some id /\ asks_for_next id) evs
         /\ (List.length controls < List.length acc + List.length evs)%nat.
Proof.
  induction fuel as [| fuel IH]; intros q acc w controls w' Hacc Hq;
    [discriminate |].
  destruct (closed w) eqn:Hc.
  - now rewrite (controls_loop_closed _ _ _ _ Hc).
  - rewrite (controls_loop_step _ _ _ _ Hc). cbv zeta.
    destruct (fst (k_ioctl QUERY_EXT_CTRL q (kern w))) as [q1 | errno].
    + intros H.
      apply IH in H as (Hus & evs & Hadd & Hreq & Hlen);
        [| now apply keep_control_usable | apply next_flags_set].
      split; [exact Hus |].
      exists (EvIoctl QUERY_EXT_CTRL q :: evs).
      split; [now apply added_step |]. split.
      * constructor; [| exact Hreq]. exists (qc_id q). now split.
      * pose proof (keep_control_length q1 acc). cbn [List.length]. lia.
    + destruct (errno =? EINVAL); [| discriminate].
      intros H. injection H as <- <-. split; [exact Hacc |].
      exists [EvIoctl QUERY_EXT_CTRL q].
      split; [apply added_step, added_refl |]. split.
      * constructor; [| constructor]. exists (qc_id q). now split.
      * cbn. lia.
Qed.

(** X10: the controls that [_get_device_controls] lists are the usable
    ones: none of them is disabled and none is the heading of a control
    class.  Every request of the enumeration carries the two flags
    NEXT_CTRL and NEXT_COMPOUND in its id, and the list is shorter than
    the number of requests, the last of which was answered EINVAL. *)
Theorem controls_listed_are_usable (fuel : nat) (w : World)
    (controls : list v4l2_query_ext_ctrl) (w' : World) :
  Device._get_device_controls fuel w = (Return controls, w') ->
  Forall is_usable controls
  /\ exists evs,
       added w w' evs
       /\ Forall (fun e => exists id,
                    control_request e = Some id /\ asks_for_next id) evs
       /\ (List.length controls < List.length evs)%nat.
Proof.
  unfold Device._get_device_controls. intros H.
  apply controls_loop_lists in H; [exact H | constructor |].
  apply (next_flags_set 0).
Qed.

End ControlsListed.

Lemma controls_listed_witness :
  exists controls,
    fst (Device._get_device_controls (KS := scripted) 5 (world0 driver0))
    = Return controls
    /\ Forall is_usable controls /\ List.length controls = 2%nat.
Proof.
  eexists. split; [vm_compute; reflexivity |]. split; [| reflexivity].
  eapply (controls_listed_are_usable (KS := scripted) 5 (world0 driver0)).
  vm_compute. reflexivity.
Defined.

(** ** Streaming: the generator [Stream] *)

(** [try: body / finally: handler]: the handler runs whether the body
    returned or raised, and what it raises replaces the body's outcome. *)
Definition try_finally {KS : Kernel} {A} (body : M A) (handler : M unit)
    : M A := fun w =>
  match body w with
  | (OutOfFuel, w') => (OutOfFuel, w')
  | (o, w') =>
      match handler w' with
      | (Return _, w'') => (o, w'')
      | (Raise e, w'') => (Raise e, w'')
      | (OutOfFuel, w'') => (OutOfFuel, w'')
      end
  end.

(** [while True: yield stream.read()] for a consumer that takes [n] frames
    and then closes the generator: the GeneratorExit raised at the last
    [yield] leaves the loop. *)
Fixpoint Stream_loop {KS : Kernel} (n : nat) (stream : VideoStream.t)
    : M (list (list Byte.byte)) :=
  match n with
  | O => ret []
  | S n' =>
      frame <- VideoStream.read stream ;;
      frames <- Stream_loop n' stream ;;
      ret (frame :: frames)
  end.

(** The generator [Stream], driven for [n] frames and then closed.  A
    generator that was never advanced has not run any of its body, and
    closing it runs none either. *)
Definition Stream {KS : Kernel} (n : nat) (stream : VideoStream.t)
    : M (list (list Byte.byte)) :=
  match n with
  | O => ret []
  | S _ =>
      VideoCapture.start ;;;
      try_finally (Stream_loop n stream) VideoCapture.stop
  end.

(** [VideoCapture.__iter__], which is also [Device.__iter__]:
    [iter(VideoStream(self))], with the defaults of [VideoStream]: one
    buffer, queued, memory-mapped. *)
Definition VideoCapture__iter__ {KS : Kernel} (n : nat)
    : M (list (list Byte.byte)) :=
  stream <- VideoStream.__init__ 1 true MMAP ;;
  Stream n stream.

(** An event that switches streaming on or off. *)
Definition is_switch (e : event) : bool :=
  match e with
  | EvIoctl STREAMON _ | EvIoctl STREAMOFF _ => true
  | _ => false
  end.

Section Streaming.

Context {KS : Kernel}.

(** What reading does to the world: the device stays as open or closed as
    it was, the loop is left, and the events added switch nothing. *)
Definition Reads {A} (m : M A) : Prop :=
  forall w,
    closed (snd (m w)) = closed w
    /\ fst (m w) <> OutOfFuel
    /\ exists evs,
         trace (snd (m w)) = trace w ++ evs
         /\ Forall (fun e => is_switch e = false) evs.

Lemma Reads_bind {A B} (m : M A) (f : A -> M B) :
  Reads m -> (forall a, Reads (f a)) -> Reads (bind m f).
Proof.
  intros Hm Hf w. unfold bind.
  destruct (Hm w) as (Hc & Ho & evs & Ht & Hs).
  destruct (m w) as [[a | e |] w1]; cbn in *.
  - destruct (Hf a w1) as (Hc' & Ho' & evs' & Ht' & Hs').
    split; [congruence |]. split; [exact Ho' |].
    exists (evs ++ evs'). split.
    + now rewrite Ht', Ht, app_assoc.
    + now apply Forall_app.
  - split; [exact Hc |]. split; [discriminate |]. now exists evs.
  - contradiction.
Qed.

Lemma Reads_quiet {A} (o : outcome A) :
  o <> OutOfFuel -> Reads (fun w => (o, w)).
Proof.
  intros Ho w. cbn. repeat split; [exact Ho |].
  exists []. split; [now rewrite app_nil_r | constructor].
Qed.

Lemma Reads_ret {A} (a : A) : Reads (ret a).
Proof. apply Reads_quiet. discriminate. Qed.

Lemma Reads_raise {A} e : Reads (@raise KS A e).
Proof. apply Reads_quiet. discriminate. Qed.

Lemma Reads_fileno : Reads fileno.
Proof.
  intros w. unfold fileno. destruct (closed w) eqn:Hc; cbn;
    (repeat split; [assumption | discriminate |]);
    (exists []; split; [now rewrite app_nil_r | constructor]).
Qed.

Lemma Reads_emit e : is_switch e = false -> Reads (emit e).
Proof.
  intros He w. unfold emit. cbn. repeat split; [discriminate |].
  exists [e]. split; [reflexivity | repeat constructor; exact He].
Qed.

Lemma Reads_ioctl {T} (request : IOC T) (arg : T) :
  is_switch (EvIoctl request arg) = false ->
  Reads (Device._ioctl request arg).
Proof.
  intros He. unfold Device._ioctl, fcntl_ioctl, fcntl_ioctl_fd.
  apply Reads_bind; [apply Reads_fileno |]. intros _.
  apply Reads_bind; [now apply Reads_emit |]. intros _ w.
  destruct (k_ioctl request arg (kern w)) as [[a | errno] k1]; cbn;
    (repeat split; [discriminate |]);
    (exists []; split; [now rewrite app_nil_r | constructor]).
Qed.

Lemma Reads_slice m n : Reads (mmap_slice_to m n).
Proof.
  unfold mmap_slice_to.
  apply Reads_bind; [now apply Reads_emit |]. intros _ w.
  destruct (existsb (mapping_eqb m) (live w)); cbn;
    (repeat split; [discriminate |]);
    (exists []; split; [now rewrite app_nil_r | constructor]).
Qed.

Lemma Reads_slot_raw_read s buff : Reads (BufferMMAP.raw_read s buff).
Proof.
  unfold BufferMMAP.raw_read. destruct (BufferMMAP.mmap s) as [m |];
    [| apply Reads_raise].
  apply Reads_bind; [apply Reads_slice |]. intros result.
  apply Reads_bind; [| intros _; apply Reads_ret].
  destruct (BufferMMAP.queue s); [| apply Reads_ret].
  apply Reads_bind; [now apply Reads_ioctl | intros _; apply Reads_ret].
Qed.

Lemma Reads_read stream : Reads (VideoStream.read stream).
Proof.
  unfold VideoStream.read, Buffers.read, select_select.
  apply Reads_bind.
  { apply Reads_bind; [apply Reads_fileno | intros _; now apply Reads_emit]. }
  intros _. unfold Buffers.raw_read.
  destruct (Buffers.buffers (VideoStream.buffers stream)) as [slots |];
    [| apply Reads_raise].
  destruct (list_getitem slots 0) as [s0 |]; [| apply Reads_raise].
  apply Reads_bind; [now apply Reads_ioctl |]. intros buff.
  destruct (list_getitem slots (buf_index buff)) as [s |];
    [apply Reads_slot_raw_read | apply Reads_raise].
Qed.

Lemma Reads_loop n stream : Reads (Stream_loop n stream).
Proof.
  induction n as [| n IH]; cbn [Stream_loop]; [apply Reads_ret |].
  apply Reads_bind; [apply Reads_read |]. intros frame.
  apply Reads_bind; [exact IH | intros frames; apply Reads_ret].
Qed.

(** X11: [Stream] switches streaming off whenever it has switched it on.
    On an open device, a generator that was advanced issues STREAMON
    first; if that is refused the error is raised and STREAMOFF is not
    issued; if it is accepted, STREAMOFF is the last thing issued, once,
    whether the reads returned or one of them raised, and the outcome is
    that of the reads unless STREAMOFF itself is refused.  A generator
    that was never advanced issues nothing. *)
Theorem stream_switches_off_what_it_switched_on
    (n : nat) (stream : VideoStream.t) (w : World) :
  closed w = false ->
  let btype := VideoCapture.buffer_type in
  let w1 := after_ioctl STREAMON btype w in
  let reads := Stream_loop (S n) stream w1 in
  (forall errno k1,
     k_ioctl STREAMON btype (kern w) = (KErr errno, k1) ->
     Stream (S n) stream w = (Raise (OSError errno), w1))
  /\ (forall a k1,
        k_ioctl STREAMON btype (kern w) = (KOk a, k1) ->
        Stream (S n) stream w
        = (match fst (k_ioctl STREAMOFF btype (kern (snd reads))) with
           | KOk _ => fst reads
           | KErr errno => Raise (OSError errno)
           end, after_ioctl STREAMOFF btype (snd reads))
        /\ exists evs,
             trace (snd (Stream (S n) stream w))
             = trace w ++ EvIoctl STREAMON btype :: evs
                 ++ [EvIoctl STREAMOFF btype]
             /\ Forall (fun e => is_switch e = false) evs)
  /\ Stream 0 stream w = (Return [], w).
Proof.
  intros Hc btype w1 reads. subst btype.
  assert (Hstart : VideoCapture.start w
                   = (ioctl_answer STREAMON VideoCapture.buffer_type w (fun _ => tt), w1)).
  { unfold VideoCapture.start, VideoCapture._ioctl. unfold bind at 1.
    rewrite (ioctl_open _ _ _ Hc). unfold ioctl_answer.
    destruct (fst (k_ioctl STREAMON VideoCapture.buffer_type (kern w))); reflexivity. }
  split; [| split; [| reflexivity]].
  - intros errno k1 Hk. unfold Stream. unfold bind at 1.
    rewrite Hstart. unfold ioctl_answer. now rewrite Hk.
  - intros a k1 Hk.
    destruct (Reads_loop (S n) stream w1) as (Hc2 & Ho & evs & Ht & Hs).
    fold reads in Hc2, Ho, Ht.
    assert (Hopen : closed (snd reads) = false) by (rewrite Hc2; exact Hc).
    assert (Hstop : VideoCapture.stop (snd reads)
                    = (ioctl_answer STREAMOFF VideoCapture.buffer_type (snd reads) (fun _ => tt),
                       after_ioctl STREAMOFF VideoCapture.buffer_type (snd reads))).
    { unfold VideoCapture.stop, Device.is_closed. unfold bind at 1.
      rewrite Hopen. cbn [negb]. unfold VideoCapture._ioctl.
      unfold bind at 1. rewrite (ioctl_open _ _ _ Hopen). unfold ioctl_answer.
      destruct (fst (k_ioctl STREAMOFF VideoCapture.buffer_type (kern (snd reads))));
        reflexivity. }
    assert (Hrun : Stream (S n) stream w
        = (match fst (k_ioctl STREAMOFF VideoCapture.buffer_type (kern (snd reads))) with
           | KOk _ => fst reads
           | KErr errno => Raise (OSError errno)
           end, after_ioctl STREAMOFF VideoCapture.buffer_type (snd reads))).
    { unfold Stream. unfold bind at 1. rewrite Hstart.
      unfold ioctl_answer at 1. rewrite Hk. cbn [fst].
      unfold try_finally. fold reads.
      destruct reads as [[frames | e |] w2] eqn:Hr; cbn [fst snd] in *.
      - rewrite Hstop. unfold ioctl_answer.
        destruct (fst (k_ioctl STREAMOFF VideoCapture.buffer_type (kern w2))); reflexivity.
      - rewrite Hstop. unfold ioctl_answer.
        destruct (fst (k_ioctl STREAMOFF VideoCapture.buffer_type (kern w2))); reflexivity.
      - contradiction. }
    split; [exact Hrun |].
    exists evs. split; [| exact Hs].
    rewrite Hrun. cbn [snd after_ioctl trace]. rewrite Ht.
    unfold w1. cbn [after_ioctl trace].
    now rewrite <- !app_assoc.
Qed.

End Streaming.

Lemma stream_witness :
  let stream :=
    VideoStream.mk 0
      (Buffers.mk 0 2 VIDEO_CAPTURE true MMAP
         (Some [BufferMMAP.mk 0 0 VIDEO_CAPTURE true
                  (Some (mk_mapping 0 4096 0)) 4096;
                BufferMMAP.mk 0 1 VIDEO_CAPTURE true
                  (Some (mk_mapping 1 4096 4096)) 4096])) in
  let w := mk_world (KS := scripted) frame_ready false
             [mk_mapping 0 4096 0; mk_mapping 1 4096 4096] 2 [] in
  fst (Stream (KS := scripted) 2 stream w) = Raise (OSError EAGAIN)
  /\ exists evs,
       trace (snd (Stream (KS := scripted) 2 stream w))
       = EvIoctl STREAMON VideoCapture.buffer_type
           :: evs ++ [EvIoctl STREAMOFF VideoCapture.buffer_type].
Proof.
  intros stream w. split; [vm_compute; reflexivity |].
  destruct (stream_switches_off_what_it_switched_on (KS := scripted)
              1 stream w eq_refl) as (_ & H & _).
  destruct (H VideoCapture.buffer_type (kern w) eq_refl)
    as (_ & evs & Ht & _).
  exists evs. exact Ht.
Defined.

(** ** Iterating a capture device *)

Section Iterating.

Context {KS : Kernel}.

Lemma Grows_raise {A} e : Grows (@raise KS A e).
Proof. intros w. apply grows_refl. Qed.

Lemma Grows_slice m n : Grows (mmap_slice_to m n).
Proof.
  unfold mmap_slice_to.
  apply Grows_bind; [now apply Grows_emit | intros _].
  intros w. destruct (existsb (mapping_eqb m) (live w)); apply grows_refl.
Qed.

Lemma Grows_try_finally {A} (body : M A) (handler : M unit) :
  Grows body -> Grows handler -> Grows (try_finally body handler).
Proof.
  intros Hb Hh w. unfold try_finally. specialize (Hb w).
  destruct (body w) as [[a | e |] w1]; cbn [snd] in *; [| | exact Hb];
    (eapply grows_trans; [exact Hb |]); specialize (Hh w1);
    destruct (handler w1) as [[[] | e' |] w2]; exact Hh.
Qed.

Lemma Grows_pool_init buffer_type buffer_size buffer_queue memory :
  Grows (Buffers.__init__ buffer_type buffer_size buffer_queue memory).
Proof.
  unfold Buffers.__init__, Buffers._create_buffers.
  cbn [Buffers.memory Buffers.buffer_size Buffers.buffer_type
       Buffers.buffer_queue].
  apply Grows_bind; [| intros bs; apply Grows_ret].
  destruct (Memory_neq memory MMAP); [apply Grows_raise |].
  apply Grows_bind; [apply Grows_ioctl | intros r].
  destruct (rb_count r =? 0); [apply Grows_raise |].
  apply comprehension_grows. intros index. apply slot_init_grows.
Qed.

Lemma Grows_read stream : Grows (VideoStream.read stream).
Proof.
  unfold VideoStream.read, Buffers.read, select_select.
  apply Grows_bind.
  { apply Grows_bind; [apply Grows_fileno | intros _; now apply Grows_emit]. }
  intros _. unfold Buffers.raw_read.
  destruct (Buffers.buffers (VideoStream.buffers stream)) as [slots |];
    [| apply Grows_raise].
  destruct (list_getitem slots 0) as [s0 |]; [| apply Grows_raise].
  apply Grows_bind; [apply Grows_ioctl | intros buff].
  destruct (list_getitem slots (buf_index buff)) as [s |];
    [| apply Grows_raise].
  unfold BufferMMAP.raw_read. destruct (BufferMMAP.mmap s) as [m |];
    [| apply Grows_raise].
  apply Grows_bind; [apply Grows_slice | intros result].
  apply Grows_bind; [| intros _; apply Grows_ret].
  destruct (BufferMMAP.queue s); [| apply Grows_ret].
  apply Grows_bind; [apply Grows_ioctl | intros _; apply Grows_ret].
Qed.

Lemma Grows_Stream n stream : Grows (Stream n stream).
Proof.
  destruct n as [| n]; [apply Grows_ret |]. unfold Stream.
  apply Grows_bind.
  { unfold VideoCapture.start.
    apply Grows_bind; [apply Grows_ioctl | intros _; apply Grows_ret]. }
  intros _. apply Grows_try_finally.
  - generalize (S n). intros k. induction k as [| k IH]; cbn [Stream_loop];
      [apply Grows_ret |].
    apply Grows_bind; [apply Grows_read | intros frame].
    apply Grows_bind; [exact IH | intros frames; apply Grows_ret].
  - unfold VideoCapture.stop.
    apply Grows_bind; [intros w; apply grows_refl | intros c].
    destruct (negb c); [| apply Grows_ret].
    apply Grows_bind; [apply Grows_ioctl | intros _; apply Grows_ret].
Qed.

(** X12: iterating a capture device ([VideoCapture.__iter__], on which
    [Device.__iter__] relies) never closes what it opens.  It builds a
    pool of its own, and whatever the number of frames taken and whatever
    fails, no unmap is issued, the device is left as open as it was, and
    every region that was mapped, the buffers of that pool among them, is
    still mapped when the iteration is over. *)
Theorem iteration_never_unmaps (n : nat) (w : World) :
  let w' := snd (VideoCapture__iter__ n w) in
  closed w' = closed w
  /\ unmaps (trace w') = unmaps (trace w)
  /\ incl (live w) (live w')
  /\ (forall stream w1 slots,
        VideoStream.__init__ 1 true MMAP w = (Return stream, w1) ->
        Buffers.buffers (VideoStream.buffers stream) = Some slots ->
        Forall (mapped_in w') slots).
Proof.
  intros w'.
  assert (Hinit : Grows (VideoStream.__init__ 1 true MMAP)).
  { unfold VideoStream.__init__.
    apply Grows_bind; [apply Grows_pool_init | intros bs; apply Grows_ret]. }
  assert (Hall : grows w w').
  { apply (Grows_bind _ _ Hinit). intros stream. apply Grows_Stream. }
  destruct Hall as (Hc & Hl & Hu).
  split; [exact Hc |]. split; [exact Hu |]. split; [exact Hl |].
  intros stream w1 slots H Hslots.
  unfold w', VideoCapture__iter__. unfold bind at 1. rewrite H. cbn [snd].
  unfold VideoStream.__init__, Buffers.__init__ in H.
  apply bind_inv_Return in H as (bs & w2 & H & Hret).
  unfold ret in Hret. injection Hret as <- <-. cbn in Hslots.
  apply bind_inv_Return in H as (created & w3 & H & Hret).
  unfold ret in Hret. injection Hret as <- <-. cbn in Hslots.
  injection Hslots as ->.
  unfold Buffers._create_buffers in H. cbn in H.
  apply bind_inv_Return in H as (r & w4 & _ & H).
  destruct (rb_count r =? 0); [discriminate |].
  apply (created_slots
           (Buffers.mk 0 1 VideoCapture.buffer_type true MMAP None))
    in H as (_ & _ & Hmapped).
  eapply Forall_impl; [| exact Hmapped].
  intros s. apply mapped_in_grows. apply Grows_Stream.
Qed.

End Iterating.

(** ** Frame sizes *)

(** The pixel formats that the ENUM_FRAMESIZES requests of a trace ask
    about. *)
Definition size_requests (evs : list event) : list Z :=
  flat_map (fun e => match e with
                     | EvIoctl ENUM_FRAMESIZES size => [fs_pixel_format size]
                     | _ => []
                     end) evs.

Section FrameSizes.

Context {KS : Kernel}.

Lemma ioctl_fd_run {T} (request : IOC T) (arg : T) (w : World) :
  fcntl_ioctl_fd request arg w
  = (ioctl_answer request arg w (fun a => a), after_ioctl request arg w).
Proof.
  unfold fcntl_ioctl_fd, bind, emit, ioctl_answer, after_ioctl. cbn.
  destruct (k_ioctl request arg (kern w)) as [[a | errno] k1]; reflexivity.
Qed.

Lemma frame_sizes_loop_step pixel_format rest size sizes w :
  let size' := mk_frmsizeenum (u32 pixel_format) (fs_type size)
                 (fs_discrete_width size) (fs_discrete_height size) in
  let w1 := after_ioctl ENUM_FRAMESIZES size' w in
  frame_sizes_loop (pixel_format :: rest) size sizes w
  = match fst (k_ioctl ENUM_FRAMESIZES size' (kern w)) with
    | KErr errno => (Raise (OSError errno), w1)
    | KOk size1 =>
        if fs_type size1 =? V4L2_FRMSIZE_TYPE_DISCRETE
        then bind (get_frame_intervals pixel_format (fs_discrete_width size1)
                     (fs_discrete_height size1))
               (fun more => frame_sizes_loop rest size1 (sizes ++ more)) w1
        else frame_sizes_loop rest size1 sizes w1
    end.
Proof.
  intros size' w1. cbn [frame_sizes_loop]. fold size'.
  unfold bind at 1. rewrite ioctl_fd_run. fold w1. unfold ioctl_answer.
  destruct (fst (k_ioctl ENUM_FRAMESIZES size' (kern w))) as [size1 | errno];
    [destruct (fs_type size1 =? V4L2_FRMSIZE_TYPE_DISCRETE) |]; reflexivity.
Qed.

Lemma size_requests_app a b :
  size_requests (a ++ b) = size_requests a ++ size_requests b.
Proof. unfold size_requests. apply flat_map_app. Qed.

Lemma size_requests_intervals evs :
  Forall (is_request ENUM_FRAMEINTERVALS) evs -> size_requests evs = [].
Proof.
  induction 1 as [| e evs [arg ->] _ IH]; [reflexivity |]. exact IH.
Qed.

Lemma added_trans (w1 w2 w3 : World) a b :
  added w1 w2 a -> added w2 w3 b -> added w1 w3 (a ++ b).
Proof. unfold added. intros H1 H2. now rewrite H2, H1, app_assoc. Qed.

Lemma frame_sizes_loop_requests pixel_formats :
  forall size sizes w,
  exists evs,
    added w (snd (frame_sizes_loop pixel_formats size sizes w)) evs
    /\ (exists rest, map u32 pixel_formats = size_requests evs ++ rest)
    /\ (forall res, fst (frame_sizes_loop pixel_formats size sizes w)
                    = Return res ->
                    size_requests evs = map u32 pixel_formats).
Proof.
  induction pixel_formats as [| pixel_format rest IH]; intros size sizes w.
  - exists []. cbn. split; [apply added_refl |]. split; [now exists [] | auto].
  - rewrite frame_sizes_loop_step. cbv zeta.
    set (size' := mk_frmsizeenum (u32 pixel_format) _ _ _).
    set (w1 := after_ioctl ENUM_FRAMESIZES size' w).
    assert (Hnext : forall size1 sizes1 w2 evs0,
      added w1 w2 evs0 -> size_requests evs0 = [] ->
      exists evs,
        added w (snd (frame_sizes_loop rest size1 sizes1 w2)) evs
        /\ (exists rest', map u32 (pixel_format :: rest)
                          = size_requests evs ++ rest')
        /\ (forall res, fst (frame_sizes_loop rest size1 sizes1 w2)
                        = Return res ->
                        size_requests evs = map u32 (pixel_format :: rest))).
    { intros size1 sizes1 w2 evs0 Hadd0 Hnone.
      destruct (IH size1 sizes1 w2) as (evs & Hadd & [rest' Hpre] & Hall).
      exists (EvIoctl ENUM_FRAMESIZES size' :: evs0 ++ evs).
      split; [apply added_step; eapply added_trans; eassumption |].
      change (EvIoctl ENUM_FRAMESIZES size' :: evs0 ++ evs)
        with ([EvIoctl ENUM_FRAMESIZES size'] ++ evs0 ++ evs).
      rewrite !size_requests_app, Hnone. cbn [app map size_requests flat_map].
      cbn [fs_pixel_format size']. split.
      - exists rest'. now rewrite Hpre.
      - intros res Hres. now rewrite (Hall res Hres). }
    destruct (fst (k_ioctl ENUM_FRAMESIZES size' (kern w)))
      as [size1 | errno].
    + destruct (fs_type size1 =? V4L2_FRMSIZE_TYPE_DISCRETE).
      * unfold bind, get_frame_intervals.
        destruct (frame_intervals_loop_bounded (range 128)
                    (mk_frmivalenum 0 (u32 pixel_format)
                       (u32 (fs_discrete_width size1))
                       (u32 (fs_discrete_height size1)) 0
                       (mk_fract 0 0) (mk_fract 0 0) (mk_fract 0 0)
                       (mk_fract 0 0)) [] w1)
          as (evs0 & Hadd0 & _ & Hreq & _).
        destruct (frame_intervals_loop _ _ _ w1) as [[more | e |] w2];
          cbn [snd] in Hadd0.
        -- apply (Hnext _ _ _ evs0 Hadd0), size_requests_intervals, Hreq.
        -- exists (EvIoctl ENUM_FRAMESIZES size' :: evs0).
           split; [now apply added_step |]. split; [| discriminate].
           exists (map u32 rest).
           change (EvIoctl ENUM_FRAMESIZES size' :: evs0)
             with ([EvIoctl ENUM_FRAMESIZES size'] ++ evs0).
           rewrite size_requests_app, (size_requests_intervals _ Hreq).
           reflexivity.
        -- exists (EvIoctl ENUM_FRAMESIZES size' :: evs0).
           split; [now apply added_step |]. split; [| discriminate].
           exists (map u32 rest).
           change (EvIoctl ENUM_FRAMESIZES size' :: evs0)
             with ([EvIoctl ENUM_FRAMESIZES size'] ++ evs0).
           rewrite size_requests_app, (size_requests_intervals _ Hreq).
           reflexivity.
      * apply (Hnext _ _ _ []); [apply added_refl | reflexivity].
    + exists [EvIoctl ENUM_FRAMESIZES size'].
      split; [apply added_step, added_refl |]. split; [| discriminate].
      exists (map u32 rest). reflexivity.
Qed.


End FrameSizes.

(** ** The version of the driver *)

(** [version_tuple] of [read_info], from [caps.version]. *)
Definition version_tuple (version : Z) : Z * Z * Z :=
  (Z.shiftr (Z.land version 0xFF0000) 16,
   Z.shiftr (Z.land version 0x00FF00) 8,
   Z.land version 0x0000FF).

Lemma byte_of_version (version : Z) (n : Z) :
  0 <= n ->
  Z.shiftr (Z.land version (Z.shiftl 255 n)) n = (version / 2 ^ n) mod 2 ^ 8.
Proof.
  intros Hn. rewrite Z.shiftr_land, Z.shiftr_shiftl_l by lia.
  rewrite Z.sub_diag, Z.shiftl_0_r, Z.shiftr_div_pow2 by lia.
  change 255 with (Z.ones 8). now rewrite Z.land_ones by lia.
Qed.

(** X14: the three numbers of the version that [read_info] reports are
    the three low bytes of [caps.version], most significant first: they
    are the one triple of numbers between 0 and 255 that makes up the low
    24 bits of the version; the high byte is not reported. *)
Theorem version_tuple_reads_three_bytes (version major minor patch : Z) :
  version_tuple version = (major, minor, patch)
  <-> (0 <= major < 256 /\ 0 <= minor < 256 /\ 0 <= patch < 256)
      /\ major * 2 ^ 16 + minor * 2 ^ 8 + patch = version mod 2 ^ 24.
Proof.
  assert (Hdecode : forall v,
    version_tuple v
    = ((v / 2 ^ 16) mod 2 ^ 8, (v / 2 ^ 8) mod 2 ^ 8, v mod 2 ^ 8)).
  { intros v. unfold version_tuple.
    change 0xFF0000 with (Z.shiftl 255 16).
    change 0x00FF00 with (Z.shiftl 255 8).
    rewrite !byte_of_version by lia.
    change 0x0000FF with (Z.ones 8). now rewrite Z.land_ones by lia. }
  assert (Hlow : forall v,
    (v / 2 ^ 16) mod 2 ^ 8 * 2 ^ 16 + (v / 2 ^ 8) mod 2 ^ 8 * 2 ^ 8
    + v mod 2 ^ 8 = v mod 2 ^ 24).
  { intros v.
    pose proof (Z.div_mod v (2 ^ 8) ltac:(lia)) as H1.
    pose proof (Z.div_mod (v / 2 ^ 8) (2 ^ 8) ltac:(lia)) as H2.
    pose proof (Z.div_mod (v / 2 ^ 8 / 2 ^ 8) (2 ^ 8) ltac:(lia)) as H3.
    pose proof (Z.mod_pos_bound v (2 ^ 8) ltac:(lia)) as B1.
    pose proof (Z.mod_pos_bound (v / 2 ^ 8) (2 ^ 8) ltac:(lia)) as B2.
    pose proof (Z.mod_pos_bound (v / 2 ^ 8 / 2 ^ 8) (2 ^ 8) ltac:(lia)) as B3.
    replace (v / 2 ^ 16) with (v / 2 ^ 8 / 2 ^ 8)
      by (rewrite Z.div_div by lia; reflexivity).
    apply Z.mod_unique_pos with (q := v / 2 ^ 8 / 2 ^ 8 / 2 ^ 8);
      lia. }
  rewrite Hdecode. specialize (Hlow version).
  pose proof (Z.mod_pos_bound (version / 2 ^ 16) (2 ^ 8) ltac:(lia)) as B1.
  pose proof (Z.mod_pos_bound (version / 2 ^ 8) (2 ^ 8) ltac:(lia)) as B2.
  pose proof (Z.mod_pos_bound version (2 ^ 8) ltac:(lia)) as B3.
  split.
  - intros H. injection H as <- <- <-. split; [lia | exact Hlow].
  - intros [Hb Hsum]. rewrite <- Hsum in Hlow.
    assert (major = (version / 2 ^ 16) mod 2 ^ 8) by lia.
    assert (minor = (version / 2 ^ 8) mod 2 ^ 8) by lia.
    assert (patch = version mod 2 ^ 8) by lia.
    congruence.
Qed.

(** ** With-blocks over one buffer slot *)

Definition BufferMMAP_with_level (z : Z) (self : BufferMMAP.t)
    : BufferMMAP.t :=
  BufferMMAP.mk z (BufferMMAP.index self) (BufferMMAP.buffer_type self)
    (BufferMMAP.queue self) (BufferMMAP.mmap self) (BufferMMAP.length self).

Section SlotBlocks.

Context {KS : Kernel}.

Lemma slot_blocks (b : block) (self : BufferMMAP.t) (w : World) :
  BufferMMAP._context_level self = 0 ->
  (forall pre post, calls_of b = pre ++ post -> post <> [] ->
     run_calls pre self w
     = (Return (BufferMMAP_with_level (depth pre) self), w))
  /\ run_with b self w = BufferMMAP.close self w.
Proof.
  intros Hl.
  apply (nested_blocks_close_at_the_end (CM := BufferMMAP_cm)
           BufferMMAP._context_level BufferMMAP_with_level BufferMMAP.close);
    [ reflexivity | reflexivity | now intros [] | reflexivity
    | intros s0 w0; cbn; unfold BufferMMAP.__exit__; cbn;
      now destruct (_ =? 0)
    | assumption ].
Qed.

(** X15: the with-blocks inherited from [BaseBuffer] behave on a buffer
    slot as they do on the other classes.  For every nesting of
    with-blocks over one slot whose counter starts at zero, nothing but
    the counter changes before the outermost [__exit__], and the nesting
    as a whole does what one [close] does: the slot's region is unmapped
    once, or nothing happens if the slot holds none.  The slot comes out
    with its counter at zero and no mapping, so that any later with-block
    over it issues nothing. *)
Theorem slot_with_blocks_unmap_once (b : block) (self : BufferMMAP.t)
    (w : World) :
  BufferMMAP._context_level self = 0 ->
  (forall pre post, calls_of b = pre ++ post -> post <> [] ->
     run_calls pre self w
     = (Return (BufferMMAP_with_level (depth pre) self), w))
  /\ run_with b self w = BufferMMAP.close self w
  /\ exists self' w',
       run_with b self w = (Return self', w')
       /\ trace w' = trace w ++ map EvMunmap (mappings_of [self])
       /\ BufferMMAP.mmap self' = None
       /\ forall later, run_with later self' w' = (Return self', w').
Proof.
  intros Hl. destruct (slot_blocks b self w Hl) as [Hin Hall].
  split; [exact Hin |]. split; [exact Hall |].
  destruct (slot_close_trace self w) as (self' & w' & Hclose & Ht & Hnone).
  exists self', w'. rewrite Hall. split; [exact Hclose |].
  split; [exact Ht |]. split; [exact Hnone |].
  intros later.
  assert (Hl' : BufferMMAP._context_level self' = 0).
  { unfold BufferMMAP.close in Hclose.
    destruct (BufferMMAP.mmap self) as [m |].
    - apply bind_inv_Return in Hclose as ([] & w1 & _ & Hret).
      unfold ret in Hret. injection Hret as <- <-. exact Hl.
    - unfold ret in Hclose. injection Hclose as <- <-. exact Hl. }
  destruct (slot_blocks later self' w' Hl') as [_ ->].
  unfold BufferMMAP.close. now rewrite Hnone.
Qed.

End SlotBlocks.

Lemma slot_with_blocks_witness :
  let slot := BufferMMAP.mk 0 0 VIDEO_CAPTURE true
                (Some (mk_mapping 0 4096 0)) 4096 in
  let w := mk_world (KS := scripted) driver0 false [mk_mapping 0 4096 0] 1 []
  in
  trace (snd (run_with (CM := BufferMMAP_cm)
                (With [With []; With [With []]]) slot w))
  = [EvMunmap (mk_mapping 0 4096 0)].
Proof.
  cbv zeta.
  destruct (slot_with_blocks_unmap_once (KS := scripted)
              (With [With []; With [With []]])
              (BufferMMAP.mk 0 0 VIDEO_CAPTURE true
                 (Some (mk_mapping 0 4096 0)) 4096)
              (mk_world (KS := scripted) driver0 false
                 [mk_mapping 0 4096 0] 1 []) eq_refl)
    as (_ & _ & self' & w' & Hrun & Ht & _).
  rewrite Hrun. exact Ht.
Defined.

(** ** Reading the frame rate *)

Section FrameRate.

Context {KS : Kernel}.

(** X16: [get_fps] divides the denominator of the time per frame by its
    numerator and guards neither.  On an open device it issues one G_PARM
    and nothing else; when the driver reports a numerator of 0, as one
    that keeps no frame rate does, the call raises ZeroDivisionError, and
    only then; a refused G_PARM is raised as it is. *)
Theorem get_fps_divides_unguarded (w : World) :
  closed w = false ->
  let p := mk_streamparm (u32 VideoCapture.buffer_type) (mk_fract 0 0) in
  let w1 := after_ioctl G_PARM p w in
  snd (VideoCapture.get_fps w) = w1
  /\ (forall errno k1,
        k_ioctl G_PARM p (kern w) = (KErr errno, k1) ->
        fst (VideoCapture.get_fps w) = Raise (OSError errno))
  /\ (forall answer k1,
        k_ioctl G_PARM p (kern w) = (KOk answer, k1) ->
        fst (VideoCapture.get_fps w)
        = truediv_int_int (denominator (timeperframe answer))
                          (numerator (timeperframe answer))
        /\ (fst (VideoCapture.get_fps w) = Raise ZeroDivisionError
            <-> numerator (timeperframe answer) = 0)).
Proof.
  intros Hc p w1.
  assert (Hrun : VideoCapture.get_fps w
    = (match fst (k_ioctl G_PARM p (kern w)) with
       | KOk answer =>
           truediv_int_int (denominator (timeperframe answer))
                           (numerator (timeperframe answer))
       | KErr errno => Raise (OSError errno)
       end, w1)).
  { unfold VideoCapture.get_fps, VideoCapture._ioctl. fold p.
    unfold bind at 1. rewrite (ioctl_open _ _ _ Hc). fold w1.
    unfold ioctl_answer.
    destruct (fst (k_ioctl G_PARM p (kern w))); reflexivity. }
  rewrite Hrun. cbn [fst snd]. split; [reflexivity |]. split.
  - intros errno k1 Hk. now rewrite Hk.
  - intros answer k1 Hk. rewrite Hk. cbn [fst]. split; [reflexivity |].
    unfold truediv_int_int.
    destruct (numerator (timeperframe answer) =? 0) eqn:Hn.
    + apply Z.eqb_eq in Hn. tauto.
    + apply Z.eqb_neq in Hn. split; [| tauto].
      destruct (SFdiv _ _ _ _); discriminate.
Qed.

End FrameRate.

Lemma get_fps_witness :
  fst (VideoCapture.get_fps (KS := scripted) (world0 driver0))
  = Raise ZeroDivisionError.
Proof.
  destruct (get_fps_divides_unguarded (KS := scripted) (world0 driver0)
              eq_refl) as (_ & _ & H).
  destruct (H (mk_streamparm 1 (mk_fract 0 0)) driver0 eq_refl) as [_ Hz].
  apply Hz. reflexivity.
Defined.

(** ** The properties of closing and reading on the scripted driver *)

(** A pool of two mapped slots, as [Buffers.__init__] builds it on the
    scripted driver, and the world around it. *)
Definition slot_of (index : Z) (queue : bool) : BufferMMAP.t :=
  BufferMMAP.mk 0 index VIDEO_CAPTURE queue
    (Some (mk_mapping (Z.to_nat index) 4096 (4096 * index))) 4096.

Definition open_pool (queue : bool) : Buffers.t :=
  Buffers.mk 0 2 VIDEO_CAPTURE queue MMAP
    (Some [slot_of 0 queue; slot_of 1 queue]).

Definition pool_world (d : driver) : @World scripted :=
  mk_world (KS := scripted) d false
    [mk_mapping 0 4096 0; mk_mapping 1 4096 4096] 2 [].

Lemma slot_close_witness :
  exists s' w1,
    BufferMMAP.close (KS := scripted) (slot_of 1 true) (pool_world driver0)
    = (Return s', w1)
    /\ trace w1 = [EvMunmap (mk_mapping 1 4096 4096)]
    /\ live w1 = [mk_mapping 0 4096 0].
Proof.
  destruct (slot_close_is_final (KS := scripted) (slot_of 1 true)
              (pool_world driver0) (mk_mapping 1 4096 4096)
              (mk_buffer 1 1 0 1 0 0) eq_refl)
    as (s' & w1 & Hclose & _ & Ht & _).
  exists s', w1. split; [exact Hclose |]. split; [exact Ht |].
  vm_compute in Hclose. now injection Hclose as <- <-.
Defined.

Lemma pool_close_witness :
  Buffers.close (KS := scripted) (open_pool true) (pool_world driver0)
  = (Return (Buffers.mk 0 2 VIDEO_CAPTURE true MMAP None),
     mk_world (KS := scripted) driver0 false [] 2
       [EvMunmap (mk_mapping 0 4096 0); EvMunmap (mk_mapping 1 4096 4096)]).
Proof.
  destruct (pool_close_is_final (KS := scripted) (open_pool true)
              (pool_world driver0) (slot_of 0 true) [slot_of 1 true] eq_refl)
    as (Hclose & _).
  rewrite Hclose. reflexivity.
Defined.

Lemma pool_round_trip_witness :
  exists w1,
    Buffers.__init__ (KS := scripted) VIDEO_CAPTURE 2 true MMAP
      (world0 driver0) = (Return (open_pool true), w1)
    /\ live w1 = [mk_mapping 0 4096 0; mk_mapping 1 4096 4096]
    /\ live (snd (Buffers.close (open_pool true) w1)) = [].
Proof.
  eexists. split; [vm_compute; reflexivity |]. split; [reflexivity |].
  edestruct (pool_create_then_close_restores_mappings (KS := scripted)
               VIDEO_CAPTURE 2 true MMAP (world0 driver0) (open_pool true))
    as (slots & self' & w2 & _ & _ & _ & Hclose & Hlive & _).
  - constructor.
  - vm_compute. reflexivity.
  - apply (f_equal (fun r => live (snd r))) in Hclose.
    exact (eq_trans Hclose Hlive).
Defined.

Lemma no_auto_queue_witness :
  Buffers.raw_read (KS := scripted) (open_pool false) (pool_world frame_ready)
  = (Return [Byte.x01; Byte.x02; Byte.x03],
     mk_world (KS := scripted) driver0 false
       [mk_mapping 0 4096 0; mk_mapping 1 4096 4096] 2
       [EvIoctl DQBUF (mk_buffer 0 1 0 1 0 0);
        EvCopy (mk_mapping 1 4096 4096) 3]).
Proof.
  edestruct (pool_without_auto_queue_never_queues (KS := scripted)
               (open_pool false) (pool_world frame_ready)
               [slot_of 0 false; slot_of 1 false]
               (slot_of 0 false) (slot_of 1 false)
               (mk_buffer 1 1 3 1 4096 4096) driver0
               (mk_mapping 1 4096 4096)) as [Hread _].
  - reflexivity.
  - reflexivity.
  - cbv. repeat constructor.
  - reflexivity.
  - reflexivity.
  - reflexivity.
  - reflexivity.
  - reflexivity.
  - cbn. auto.
  - rewrite Hread. reflexivity.
Defined.

Lemma failed_dequeue_witness :
  Buffers.raw_read (KS := scripted) (open_pool true) (pool_world driver0)
  = (Raise (OSError EAGAIN),
     mk_world (KS := scripted) driver0 false
       [mk_mapping 0 4096 0; mk_mapping 1 4096 4096] 2
       [EvIoctl DQBUF (mk_buffer 0 1 0 1 0 0)]).
Proof.
  destruct (failed_dequeue_ends_the_read (KS := scripted) (open_pool true)
              (pool_world driver0) [slot_of 0 true; slot_of 1 true]
              (slot_of 0 true) eq_refl eq_refl) as (_ & Hrefused & _).
  rewrite (Hrefused EAGAIN driver0 eq_refl eq_refl). reflexivity.
Defined.

Lemma frame_fits_witness :
  exists frame w',
    Buffers.raw_read (KS := scripted) (open_pool true)
      (pool_world frame_ready) = (Return frame, w')
    /\ frame = [Byte.x01; Byte.x02; Byte.x03]
    /\ exists m, Z.of_nat (List.length frame) <= Z.max 0 (map_length m).
Proof.
  do 2 eexists. split; [vm_compute; reflexivity |]. split; [reflexivity |].
  edestruct (frame_fits_its_slot (KS := scripted) (open_pool true)
               (pool_world frame_ready))
    as (slots & s0 & b & k1 & s & m & _ & _ & _ & _ & _ & Hlen & _).
  - vm_compute. reflexivity.
  - exists m. exact Hlen.
Defined.

(** ** The enumeration of [read_info] as a whole *)

Section ReadInfo.

Context {KS : Kernel}.

Variable is_PixelFormat : Z -> bool.

Lemma size_requests_formats evs :
  Forall (is_request ENUM_FMT) evs -> size_requests evs = [].
Proof.
  induction 1 as [| e evs [arg ->] _ IH]; [reflexivity |]. exact IH.
Qed.

Lemma enum_formats_requests (stream_types : list BufferType) :
  forall fmt formats pixel_formats w,
  exists evs,
    added w (snd (enum_formats is_PixelFormat stream_types fmt formats
                    pixel_formats w)) evs
    /\ Forall (is_request ENUM_FMT) evs.
Proof.
  induction stream_types as [| stream_type rest IH];
    intros fmt formats pixel_formats w.
  - exists []. cbn. split; [apply added_refl | constructor].
  - cbn [enum_formats]. unfold bind.
    match goal with
    | |- context [enum_fmt_loop _ _ _ ?f _ _ _] =>
        destruct (enum_fmt_loop_bounded is_PixelFormat stream_type
                    (range 128) f formats pixel_formats w)
          as (evs1 & Hadd1 & _ & Hreq1 & _)
    end.
    destruct (enum_fmt_loop _ _ _ _ _ _ w) as [[[[fmt1 fs1] ps1] | e |] w1];
      cbn [snd] in Hadd1; [| now exists evs1 | now exists evs1].
    destruct (IH fmt1 fs1 ps1 w1) as (evs2 & Hadd2 & Hreq2).
    exists (evs1 ++ evs2). split; [eapply added_trans; eassumption |].
    now apply Forall_app.
Qed.

(** X17: [read_info] asks about the frame sizes of each pixel format it
    has found once, however many stream types or indices offered that
    format, and about no other.  When the enumeration of formats and
    sizes returns, the pixel formats of its ENUM_FRAMESIZES requests are
    the members of a list without repetition, which holds exactly the
    pixel formats of the image formats returned. *)
Theorem read_info_sizes_each_format_once
    (img_fmt_stream_types : list BufferType) (w : World)
    (formats : list ImageFormat) (sizes : list FrameType) (w' : World) :
  read_info_formats is_PixelFormat img_fmt_stream_types w
  = (Return (formats, sizes), w') ->
  exists evs pixel_formats,
    added w w' evs
    /\ size_requests evs = map u32 pixel_formats
    /\ NoDup pixel_formats
    /\ (forall p, In p pixel_formats
                  <-> exists f, In f formats /\ if_pixel_format f = p)
    /\ Forall (fun f => is_PixelFormat (if_pixel_format f) = true) formats.
Proof.
  unfold read_info_formats. intros H.
  apply bind_inv_Return in H as ([fs pixel_formats] & w1 & Hfmt & H).
  apply bind_inv_Return in H as (sz & w2 & Hsizes & H).
  unfold ret in H. injection H as <- <- <-.
  destruct (enum_formats_requests img_fmt_stream_types
              (mk_fmtdesc 0 0 0 EmptyString 0) [] [] w)
    as (evs1 & Hadd1 & Hreq1).
  rewrite Hfmt in Hadd1. cbn [snd] in Hadd1.
  destruct (frame_sizes_loop_requests pixel_formats
              (mk_frmsizeenum 0 0 0 0) [] w1) as (evs2 & Hadd2 & _ & Hall).
  fold (frame_sizes pixel_formats) in Hadd2, Hall.
  rewrite Hsizes in Hadd2, Hall. cbn [fst snd] in Hadd2, Hall.
  apply (enum_formats_gathers is_PixelFormat [] img_fmt_stream_types)
    in Hfmt; [| repeat split; constructor].
  destruct Hfmt as (Hnd & Hf & Hp).
  exists (evs1 ++ evs2), pixel_formats.
  split; [eapply added_trans; eassumption |].
  split.
  { rewrite size_requests_app, (size_requests_formats _ Hreq1).
    exact (Hall _ eq_refl). }
  split; [exact Hnd |]. split.
  - intros p. split.
    + intros Hin. rewrite Forall_forall in Hp. now apply Hp.
    + intros (f & Hin & <-). rewrite Forall_forall in Hf.
      now apply Hf in Hin.
  - eapply Forall_impl; [| exact Hf]. now intros f (H1 & _).
Qed.

End ReadInfo.

Lemma read_info_sizes_witness :
  exists formats sizes w' evs pixel_formats,
    read_info_formats (KS := scripted) (fun _ => true)
      [VIDEO_CAPTURE; 2] (world0 driver0) = (Return (formats, sizes), w')
    /\ List.length formats = 6%nat
    /\ added (world0 driver0) w' evs
    /\ size_requests evs = map u32 pixel_formats
    /\ NoDup pixel_formats.
Proof.
  edestruct (read_info_sizes_each_format_once (KS := scripted)
               (fun _ => true) [VIDEO_CAPTURE; 2] (world0 driver0))
    as (evs & pixel_formats & Hadd & Hreq & Hnd & _).
  - vm_compute. reflexivity.
  - do 3 eexists. exists evs, pixel_formats.
    split; [vm_compute; reflexivity |]. split; [reflexivity |].
    split; [exact Hadd |]. split; [exact Hreq | exact Hnd].
Defined.
